(** * Completion engine: context scanner, dictionary matcher, provider
      pipeline and snippet placeholders

    A shallow embedding of the TypeScript sources, one module per file:
    - [EditorHelpers]: editor_helpers.ts (front matter bounds, block types,
      [getLatexBlockType], [matchWordBackwards]);
    - [Settings], [Provider]: settings.ts and the provider interfaces;
    - [SuggestionBlacklist], [Dictionary]: blacklist.ts,
      scanner_provider.ts, word_list_provider.ts, dictionary_provider.ts;
    - [Popup]: the provider loop of popup.ts;
    - [MarkerStateField], [Snippets]: marker_state_field.ts and
      snippet_manager.ts;
    - [SuggestionPopup], [Main], [PeriodInserter]: the trigger and the
      selection of popup.ts, the cursor handler of main.ts and the period
      inserter;
    - [FrontMatterProvider], [LatexProvider]: the [publish] values and the
      key cache of front_matter_provider.ts, and [getSuggestions] of
      latex_provider.ts.
    The modules [JS] and [CM] and the [Editor] record describe the string
    runtime and the host editor that the sources call.  The properties
    follow in [PipelineFacts], [ScannerFacts], [DictionaryFacts] and
    [SnippetFacts], and further ones in [ScannerMore], [HelperFacts],
    [DictionaryMore], [PopupFacts], [SnippetMore], [MainFacts],
    [FieldFacts], [EditFacts], [YamlFacts] and [LatexFacts].

    JavaScript numbers that index lines and characters are integers [Z];
    JavaScript strings are [string]s of code units; a call that may throw
    returns an [option] or an [Outcome]. *)

From Stdlib Require Import String Ascii List ZArith Lia Bool Arith.
From Stdlib Require Import Sorting.Sorted DecimalString.
Import ListNotations.

Open Scope string_scope.
Open Scope list_scope.
Open Scope Z_scope.

(* ================================================================== *)
(** * JavaScript string primitives *)
(* ================================================================== *)

Module JS.

(** [s.length] *)
Definition len (s : string) : Z := Z.of_nat (String.length s).

(** [s.charAt(i)]: the one-character string at index [i], or the empty
    string when [i] is out of range. *)
Definition charAt (s : string) (i : Z) : string :=
  if i <? 0 then ""
  else match String.get (Z.to_nat i) s with
       | Some ch => String ch ""
       | None => ""
       end.

(** [s.substring(start)] for [0 <= start]. *)
Definition substringFrom (s : string) (start : Z) : string :=
  let n := Z.to_nat (Z.max 0 start) in
  String.substring n (String.length s - n) s.

(** [s.substring(a, b)] for [0 <= a <= b]; both ends are clamped to the
    length of [s]. *)
Definition substring (s : string) (a b : Z) : string :=
  let a' := Z.to_nat (Z.max 0 a) in
  let b' := Z.to_nat (Z.max 0 b) in
  String.substring a' (Nat.min b' (String.length s) - a') s.

(** [s.startsWith(p)] *)
Definition startsWith (s p : string) : bool := String.prefix p s.

(** Truthiness of a string: only the empty string is falsy. *)
Definition truthy (s : string) : bool := negb (s =? "")%string.

(** [s.split("\n")]: always at least one piece. *)
Fixpoint splitLines (s : string) : list string :=
  match s with
  | EmptyString => [""]
  | String ch rest =>
      if Ascii.eqb ch "010"%char then "" :: splitLines rest
      else match splitLines rest with
           | [] => [String ch ""]
           | l :: ls => String ch l :: ls
           end
  end.

(** The integers [lo, lo+1, ..., lo+n-1], the index values of a counting
    [for] loop. *)
Fixpoint range (lo : Z) (n : nat) : list Z :=
  match n with
  | O => []
  | S n' => lo :: range (lo + 1) n'
  end.

(** [s.endsWith(p)] *)
Definition endsWith (s p : string) : bool :=
  (len p <=? len s) && (substringFrom s (len s - len p) =? p)%string.

(** White space removed by [trim], among the code units below 256. *)
Definition isWhiteSpace (ch : ascii) : bool :=
  let n := N_of_ascii ch in
  ((9 <=? n) && (n <=? 13) || (n =? 32) || (n =? 160))%N.

Fixpoint trimStart (s : string) : string :=
  match s with
  | EmptyString => EmptyString
  | String ch rest => if isWhiteSpace ch then trimStart rest else s
  end.

(** The string without its trailing white space. *)
Fixpoint trimEnd (s : string) : string :=
  match s with
  | EmptyString => EmptyString
  | String ch rest =>
      match trimEnd rest with
      | EmptyString => if isWhiteSpace ch then EmptyString else String ch EmptyString
      | r => String ch r
      end
  end.

(** [s.trim()] *)
Definition trim (s : string) : string := trimEnd (trimStart s).

(** [n.toString()] for a non-negative integer. *)
Definition toString (n : Z) : string :=
  NilZero.string_of_uint (N.to_uint (Z.to_N n)).

(** The result of a call that may throw. *)
Inductive Outcome (A : Type) : Type :=
| Returns (a : A)
| Throws (error : string).
Arguments Returns {A} a.
Arguments Throws {A} error.

(** The Unicode-dependent built-ins of the string runtime.  The model
    leaves them open; [AsciiConforming] states what every implementation
    does on ASCII text. *)
Class StringRuntime := {
  toLowerCase : string -> string;
  toUpperCase : string -> string;
  normalizeNFD : string -> string
}.

Definition isAsciiChar (ch : ascii) : bool := (N_of_ascii ch <? 128)%N.

Fixpoint isAscii (s : string) : bool :=
  match s with
  | EmptyString => true
  | String ch rest => isAsciiChar ch && isAscii rest
  end.

Definition lowerChar (ch : ascii) : ascii :=
  let n := N_of_ascii ch in
  if ((65 <=? n) && (n <=? 90))%N then ascii_of_N (n + 32) else ch.

Definition upperChar (ch : ascii) : ascii :=
  let n := N_of_ascii ch in
  if ((97 <=? n) && (n <=? 122))%N then ascii_of_N (n - 32) else ch.

Fixpoint mapString (f : ascii -> ascii) (s : string) : string :=
  match s with
  | EmptyString => EmptyString
  | String ch rest => String (f ch) (mapString f rest)
  end.

Definition asciiLower : string -> string := mapString lowerChar.
Definition asciiUpper : string -> string := mapString upperChar.

(** On ASCII text the case mappings touch the letters A-Z / a-z only and
    canonical decomposition changes nothing. *)
Class AsciiConforming (R : StringRuntime) : Prop := {
  toLowerCase_ascii : forall s, isAscii s = true -> toLowerCase s = asciiLower s;
  toUpperCase_ascii : forall s, isAscii s = true -> toUpperCase s = asciiUpper s;
  normalizeNFD_ascii : forall s, isAscii s = true -> normalizeNFD s = s
}.

(** The runtime restricted to ASCII text. *)
Definition asciiRuntime : StringRuntime :=
  {| toLowerCase := asciiLower; toUpperCase := asciiUpper; normalizeNFD := fun s => s |}.

End JS.

(* ================================================================== *)
(** * The host editor (external collaborator)

    What the sources use of Obsidian's [Editor] and of the CodeMirror
    state behind it: a document of lines addressed by zero-based
    [{line, ch}] positions or by flat offsets (a line break counts one),
    a selection, and a set of mark decorations that the editor reprojects
    through every change. *)
(* ================================================================== *)

Record EditorPosition := mkPos { line : Z; ch : Z }.

Definition Doc := list string.

Definition getLine (d : Doc) (n : Z) : string :=
  if n <? 0 then "" else nth (Z.to_nat n) d "".

Definition lastLine (d : Doc) : Z := Z.of_nat (List.length d) - 1.

Module CM.

(** Offset of the first character of line [n] (zero-based). *)
Fixpoint lineFrom (d : Doc) (n : nat) : Z :=
  match n, d with
  | O, _ => 0
  | S n', l :: d' => JS.len l + 1 + lineFrom d' n'
  | S _, [] => 0
  end.

(** [doc.length] *)
Definition docLength (d : Doc) : Z :=
  match d with
  | [] => 0
  | _ => lineFrom d (List.length d) - 1
  end.

(** [doc.line(n + 1)] as its [(from, to)]; a line number out of range is
    a [RangeError]. *)
Definition lineAtNumber (d : Doc) (n : Z) : option (Z * Z) :=
  if (n <? 0) || (Z.of_nat (List.length d) <=? n) then None
  else let f := lineFrom d (Z.to_nat n) in
       Some (f, f + JS.len (getLine d n)).

(** [doc.lineAt(offset)] as [(line index, from)], by walking the lines. *)
Fixpoint lineAtOffset (d : Doc) (lineIndex from offset : Z) : Z * Z :=
  match d with
  | [] => (lineIndex, from)
  | l :: d' =>
      match d' with
      | [] => (lineIndex, from)
      | _ => if offset <=? from + JS.len l then (lineIndex, from)
             else lineAtOffset d' (lineIndex + 1) (from + JS.len l + 1) offset
      end
  end.

(** The text of the whole document, lines joined by line breaks. *)
Definition text (d : Doc) : string := String.concat (String "010" "") d.

(** One replacement: the range [cfrom, cto) gives way to [insert]. *)
Record Change := mkChange { cfrom : Z; cto : Z; insert : string }.

Definition applyChange (d : Doc) (chg : Change) : Doc :=
  let t := text d in
  JS.splitLines (JS.substring t 0 (cfrom chg) ++ insert chg
                 ++ JS.substringFrom t (cto chg))%string.

(** [changes.mapPos(pos, assoc)] as CodeMirror computes it for a change
    set of one replacement: positions before the change stay, positions
    after it shift, a position inside the replaced range (or at a pure
    insertion, when [assoc < 0]) goes to the start of the change, or to
    its end when [assoc >= 0] and the position is not the start. *)
Definition mapPos (chg : Change) (pos assoc : Z) : Z :=
  let a := cfrom chg in
  let b := cto chg in
  let n := JS.len (insert chg) in
  if pos <? a then pos
  else if (pos <? b) || ((pos =? b) && (assoc <? 0) && (a =? b))
       then (if (pos =? a) || (assoc <? 0) then a else a + n)
       else a + n + (pos - b).

(** A mark decoration: its [inclusive] flag, its attributes and the
    placeholder object it refers to (an object identity). *)
Record Decoration := mkDeco {
  inclusive : bool;
  style : string;
  class : string;
  reference : nat
}.

Record Range := mkRange { from : Z; to : Z; value : Decoration }.

Definition RangeSet := list Range.

(** Sides of a mark's ends: an inclusive mark takes in what is inserted
    at its ends, a non-inclusive one does not. *)
Definition startSide (dc : Decoration) : Z := if inclusive dc then -1 else 1.
Definition endSide (dc : Decoration) : Z := if inclusive dc then 1 else -1.

(** [changes.touchesRange(from, to) === "cover"]: the replaced range
    reaches beyond both ends of the range [from, to]. *)
Definition covered (chg : Change) (r : Range) : bool :=
  (cfrom chg <? from r) && (to r <? cto chg).

(** [rangeSet.map(changes)] for one range.  The host keeps the ranges in
    chunks and leaves out a chunk that a change covers; the marks of a
    snippet are added one by one and each is a chunk of its own, which is
    what is modelled: a range that the change covers is dropped.  (The
    model does not keep track of chunks.  Where several ranges share a
    chunk, as they do once a removal effect has filtered the set, the
    host drops a covered range only if the change covers the whole
    chunk, and keeps it, collapsed, otherwise.)  A range that is not
    covered has both ends mapped with their sides, and is dropped if it
    collapses unless its mark is inclusive. *)
Definition mapRange (chg : Change) (r : Range) : option Range :=
  if covered chg r then None
  else
    let f := mapPos chg (from r) (startSide (value r)) in
    let t := mapPos chg (to r) (endSide (value r)) in
    if (t <? f)
       || ((f =? t) && (0 <? startSide (value r)) && (endSide (value r) <=? 0))
    then None
    else Some (mkRange f t (value r)).

(** [rangeSet.map(changes)]: every range is mapped, each as a chunk of
    its own (see [mapRange]). *)
Definition mapRangeSet (chg : option Change) (rs : RangeSet) : RangeSet :=
  match chg with
  | None => rs
  | Some chg' =>
      flat_map (fun r => match mapRange chg' r with
                         | Some r' => [r']
                         | None => []
                         end) rs
  end.

(** [rangeSet.update({add: [r]})]: ranges are kept ordered by [from]. *)
Fixpoint addRange (r : Range) (rs : RangeSet) : RangeSet :=
  match rs with
  | [] => [r]
  | x :: rest => if from r <? from x then r :: rs else x :: addRange r rest
  end.

End CM.

(* ================================================================== *)
(** * marker_state_field.ts *)
(* ================================================================== *)

Module MarkerStateField.

Import CM.

Inductive Effect :=
| addMark (r : Range)
| clearMarks
| removeMarkBySpecAttribute (attribute : string) (ref : nat).

Record Transaction := mkTr { changes : option Change; effects : list Effect }.

(** [deco.spec[attr]] when it is an object reference. *)
Definition specAttribute (attr : string) (dc : Decoration) : option nat :=
  if (attr =? "reference")%string then Some (reference dc) else None.

Definition applyEffect (value : RangeSet) (effect : Effect) : RangeSet :=
  match effect with
  | addMark r => addRange r value
  | clearMarks => filter (fun _ => false) value
  | removeMarkBySpecAttribute attr ref =>
      filter (fun r => match specAttribute attr (CM.value r) with
                       | Some x => negb (Nat.eqb x ref)
                       | None => true
                       end) value
  end.

(** [create()] *)
Definition create : RangeSet := [].

(** [update(value, tr)]: first the existing decorations are mapped
    through the changes, then the effects are applied in order. *)
Definition update (value : RangeSet) (tr : Transaction) : RangeSet :=
  fold_left applyEffect (effects tr) (mapRangeSet (changes tr) value).

End MarkerStateField.

(** ** The editor object *)

Record Editor := mkEditor {
  doc : Doc;
  selection : EditorPosition * EditorPosition;
  marks : CM.RangeSet
}.

(** [editor.getCursor()]: the head of the selection. *)
Definition getCursor (e : Editor) : EditorPosition := snd (selection e).

(** The host turns a position into an offset by clamping it into the
    document. *)
Definition posToOffset (d : Doc) (pos : EditorPosition) : Z :=
  if line pos <? 0 then 0
  else match CM.lineAtNumber d (line pos) with
       | None => CM.docLength d
       | Some (f, t) => Z.min (f + Z.max 0 (ch pos)) t
       end.

(** [view.dispatch(tr)]: the document changes and the marker field is
    updated.  The host's own remapping of the selection is not used by
    the sources and is left out. *)
Definition dispatch (e : Editor) (tr : MarkerStateField.Transaction) : Editor :=
  {| doc := match MarkerStateField.changes tr with
            | Some chg => CM.applyChange (doc e) chg
            | None => doc e
            end;
     selection := selection e;
     marks := MarkerStateField.update (marks e) tr |}.

(** [editor.replaceRange(text, from, to)] *)
Definition replaceRange (e : Editor) (txt : string) (from to : EditorPosition)
  : Editor :=
  dispatch e (MarkerStateField.mkTr
                (Some (CM.mkChange (posToOffset (doc e) from)
                                   (posToOffset (doc e) to) txt))
                []).

(** [editor.setSelection(anchor, head)] *)
Definition setSelection (e : Editor) (anchor head : EditorPosition) : Editor :=
  {| doc := doc e; selection := (anchor, head); marks := marks e |}.

(* ================================================================== *)
(** * editor_helpers.ts *)
(* ================================================================== *)

Module EditorHelpers.

(** [posFromIndex(doc, offset)]; [doc.lineAt] throws outside the document. *)
Definition posFromIndex (d : Doc) (offset : Z) : option EditorPosition :=
  if (offset <? 0) || (CM.docLength d <? offset) then None
  else let '(n, f) := CM.lineAtOffset d 0 0 offset in
       Some (mkPos n (offset - f)).

(** [indexFromPos(doc, pos)]; [doc.line] throws for a line that is not
    in the document. *)
Definition indexFromPos (d : Doc) (pos : EditorPosition) : option Z :=
  match CM.lineAtNumber d (line pos) with
  | None => None
  | Some (f, t) => Some (Z.min (f + Z.max 0 (ch pos)) t)
  end.

Definition maybeLowerCase `{JS.StringRuntime} (str : string) (lower : bool)
  : string :=
  if lower then JS.toLowerCase str else str.

(** The loop of [matchWordBackwards] over [i = cursor.ch - 1 .. start]:
    the characters accepted so far and the separator that stopped it. *)
Fixpoint matchLoop (text : string) (charPredicate : string -> bool)
         (indices : list Z) (query : string) : string * option string :=
  match indices with
  | [] => (query, None)
  | i :: rest =>
      let ch := JS.charAt text i in
      if negb (charPredicate ch) then (query, Some ch)
      else matchLoop text charPredicate rest (ch ++ query)%string
  end.

Definition matchWordBackwards (e : Editor) (cursor : EditorPosition)
           (charPredicate : string -> bool) (maxLookBack : Z)
  : string * option string :=
  let start := Z.max 0 (ch cursor - maxLookBack) in
  matchLoop (getLine (doc e) (line cursor)) charPredicate
            (rev (JS.range start (Z.to_nat (ch cursor - start)))) "".

(** ** Front matter bounds *)

Record Bounds := mkBounds { startLine : Z; endLine : Z }.

(** [getFrontMatterBounds]: the first ["---"] among lines
    [0 .. min(5, lastLine) - 1], then the first ["---"] among lines
    [startLine + 1 .. min(50, lastLine)]. *)
Definition getFrontMatterBounds (d : Doc) : option Bounds :=
  match find (fun i => (getLine d i =? "---")%string)
             (JS.range 0 (Z.to_nat (Z.min 5 (lastLine d)))) with
  | None => None
  | Some s =>
      match find (fun i => (getLine d i =? "---")%string)
                 (JS.range (s + 1) (Z.to_nat (Z.min 50 (lastLine d) - s))) with
      | None => None
      | Some e => Some (mkBounds s e)
      end
  end.

Definition isInFrontMatterBlock (d : Doc) (pos : EditorPosition) : bool :=
  if line pos =? 0 then false
  else match getFrontMatterBounds d with
       | None => false
       | Some b => (startLine b <? line pos) && (line pos <? endLine b)
       end.

(** ** Block types *)

Inductive BlockType :=
| DOLLAR_MULTI
| DOLLAR_SINGLE
| CODE_MULTI
| CODE_SINGLE
| NONE.

Definition BlockType_eqb (a b : BlockType) : bool :=
  match a, b with
  | DOLLAR_MULTI, DOLLAR_MULTI
  | DOLLAR_SINGLE, DOLLAR_SINGLE
  | CODE_MULTI, CODE_MULTI
  | CODE_SINGLE, CODE_SINGLE
  | NONE, NONE => true
  | _, _ => false
  end.

(** The delimiter text [c] of a block type. *)
Definition c (b : BlockType) : string :=
  match b with
  | DOLLAR_MULTI => "$$"
  | DOLLAR_SINGLE => "$"
  | CODE_MULTI => "```"
  | CODE_SINGLE => "`"
  | NONE => ""
  end.

Definition isMultiLine (b : BlockType) : bool :=
  match b with
  | DOLLAR_MULTI | CODE_MULTI => true
  | _ => false
  end.

(** [otherType]: the other width of the same family; [null] for NONE. *)
Definition otherType (b : BlockType) : option BlockType :=
  match b with
  | DOLLAR_MULTI => Some DOLLAR_SINGLE
  | DOLLAR_SINGLE => Some DOLLAR_MULTI
  | CODE_MULTI => Some CODE_SINGLE
  | CODE_SINGLE => Some CODE_MULTI
  | NONE => None
  end.

Definition isDollarBlock (b : BlockType) : bool :=
  BlockType_eqb b DOLLAR_SINGLE || BlockType_eqb b DOLLAR_MULTI.

Definition isCodeBlock (b : BlockType) : bool :=
  negb (isDollarBlock b) && negb (BlockType_eqb b NONE).

Definition SINGLE_TYPES : list BlockType := [DOLLAR_SINGLE; CODE_SINGLE].

(** ** substringMatches *)

Definition substringMatches (str target : string) (from : Z) : bool :=
  let end_ := from + JS.len target in
  if JS.len str <? end_ then false
  else forallb (fun i => (JS.charAt str i =? JS.charAt target (i - from))%string)
               (JS.range from (String.length target)).

(** ** Token collection *)

Record StackEntry := mkEntry { type : BlockType; eline : Z }.

(** One iteration of the character loop at index [j] of [text]: the
    entry pushed, if any, and the value of [j] when the body ends
    (before the loop's own [j--]). *)
Definition scanChar (text : string) (lineIndex j : Z)
  : option StackEntry * Z :=
  let ch := JS.charAt text j in
  match find (fun b => (JS.charAt (c b) 0 =? ch)%string) SINGLE_TYPES with
  | None => (None, j)
  | Some bt =>
      if (0 <? j) && (JS.charAt text (j - 1) =? "\")%string then (None, j)
      else
        let multiLen := match otherType bt with
                        | Some o => JS.len (c o)
                        | None => 0
                        end in
        let isMulti :=
          (multiLen <=? j + 1)
          && substringMatches text
               (match otherType bt with Some o => c o | None => "" end)
               (j - multiLen + 1) in
        match otherType bt with
        | Some o =>
            if isMulti then (Some (mkEntry o lineIndex), j - (multiLen - 1))
            else (Some (mkEntry bt lineIndex), j)
        | None => (Some (mkEntry bt lineIndex), j)
        end
  end.

(** The loop [for (j = ...; j >= 0; j--)]; [fuel] bounds the number of
    iterations, [j + 1] of them always suffice. *)
Fixpoint scanLoop (fuel : nat) (text : string) (lineIndex j : Z)
         (stack : list StackEntry) : list StackEntry :=
  match fuel with
  | O => stack
  | S fuel' =>
      if j <? 0 then stack
      else
        let '(pushed, j') := scanChar text lineIndex j in
        let stack' := match pushed with
                      | Some e => stack ++ [e]
                      | None => stack
                      end in
        scanLoop fuel' text lineIndex (j' - 1) stack'
  end.

(** The body of the line loop for one [lineIndex]. *)
Definition scanLine (d : Doc) (frontMatter : Bounds) (pos : EditorPosition)
           (lineIndex : Z) (stack : list StackEntry) : list StackEntry :=
  if (startLine frontMatter <=? lineIndex) && (lineIndex <=? endLine frontMatter)
  then stack
  else
    let text := getLine d lineIndex in
    let j0 := if lineIndex =? line pos then ch pos - 1 else JS.len text - 1 in
    scanLoop (Z.to_nat (j0 + 1)) text lineIndex j0 stack.

(** The line loop [for (lineIndex = startLine; lineIndex <= pos.line; ...)]. *)
Definition collectTokens (d : Doc) (pos : EditorPosition) : list StackEntry :=
  let frontMatter := match getFrontMatterBounds d with
                     | Some b => b
                     | None => mkBounds (-1) (-1)
                     end in
  let start := Z.max 0 (line pos - 5000) in
  fold_left (fun stack lineIndex => scanLine d frontMatter pos lineIndex stack)
            (JS.range start (Z.to_nat (line pos - start + 1)))
            [].

(** ** Pairing pass *)

(** [stack.findIndex((x, i) => i > idx && x.type === ty)], [-1] as [None]. *)
Fixpoint findIndexFrom (stack : list StackEntry) (i idx : Z) (ty : BlockType)
  : option Z :=
  match stack with
  | [] => None
  | x :: rest =>
      if (idx <? i) && BlockType_eqb (type x) ty then Some i
      else findIndexFrom rest (i + 1) idx ty
  end.

Definition findIndex (stack : list StackEntry) (idx : Z) (ty : BlockType)
  : option Z := findIndexFrom stack 0 idx ty.

Definition stackAt (stack : list StackEntry) (idx : Z) : StackEntry :=
  nth (Z.to_nat idx) stack (mkEntry NONE 0).

(** The [while (true)] loop; every iteration increases [idx], so
    [length stack + 1] iterations always suffice. *)
Fixpoint pairingLoop (fuel : nat) (stack : list StackEntry)
         (pos : EditorPosition) (triggerInCodeBlocks : bool) (idx : Z)
  : BlockType :=
  match fuel with
  | O => NONE
  | S fuel' =>
      if Z.of_nat (List.length stack) <=? idx then NONE
      else
        let block := stackAt stack idx in
        match findIndex stack idx (type block) with
        | None =>
            if negb triggerInCodeBlocks && isCodeBlock (type block) then NONE
            else if isCodeBlock (type block) then type block
            else if BlockType_eqb (type block) DOLLAR_SINGLE
                    && negb (eline block =? line pos)
                 then pairingLoop fuel' stack pos triggerInCodeBlocks (idx + 1)
                 else type block
        | Some nextIndex =>
            pairingLoop fuel' stack pos triggerInCodeBlocks (nextIndex + 1)
        end
  end.

Definition pairingPass (stack : list StackEntry) (pos : EditorPosition)
           (triggerInCodeBlocks : bool) : BlockType :=
  if Z.of_nat (List.length stack) <? 1 then NONE
  else pairingLoop (S (List.length stack)) stack pos triggerInCodeBlocks 0.

Definition getLatexBlockType (d : Doc) (pos : EditorPosition)
           (triggerInCodeBlocks : bool) : BlockType :=
  pairingPass (collectTokens d pos) pos triggerInCodeBlocks.

(** ** The scan with columns

    The stack entries carry no column.  To state in which order the
    tokens of one line are pushed, the same loops are run once more with
    the index [j] at which each token was recognised kept beside it. *)

Fixpoint scanLoopAt (fuel : nat) (text : string) (lineIndex j : Z)
         (stack : list (StackEntry * Z)) : list (StackEntry * Z) :=
  match fuel with
  | O => stack
  | S fuel' =>
      if j <? 0 then stack
      else
        let '(pushed, j') := scanChar text lineIndex j in
        let stack' := match pushed with
                      | Some e => stack ++ [(e, j)]
                      | None => stack
                      end in
        scanLoopAt fuel' text lineIndex (j' - 1) stack'
  end.

Definition scanLineAt (d : Doc) (frontMatter : Bounds) (pos : EditorPosition)
           (lineIndex : Z) (stack : list (StackEntry * Z))
  : list (StackEntry * Z) :=
  if (startLine frontMatter <=? lineIndex) && (lineIndex <=? endLine frontMatter)
  then stack
  else
    let text := getLine d lineIndex in
    let j0 := if lineIndex =? line pos then ch pos - 1 else JS.len text - 1 in
    scanLoopAt (Z.to_nat (j0 + 1)) text lineIndex j0 stack.

Definition collectTokensAt (d : Doc) (pos : EditorPosition)
  : list (StackEntry * Z) :=
  let frontMatter := match getFrontMatterBounds d with
                     | Some b => b
                     | None => mkBounds (-1) (-1)
                     end in
  let start := Z.max 0 (line pos - 5000) in
  fold_left (fun stack lineIndex => scanLineAt d frontMatter pos lineIndex stack)
            (JS.range start (Z.to_nat (line pos - start + 1)))
            [].

(** ** Vocabulary of the scanner properties *)

(** The character at [k] is neither a dollar sign nor a backtick. *)
Definition plainAt (text : string) (k : Z) : Prop :=
  JS.charAt text k <> "$" /\ JS.charAt text k <> "`".

(** The front matter bounds the scan works with, and the lines it skips. *)
Definition frontMatterOf (d : Doc) : Bounds :=
  match getFrontMatterBounds d with
  | Some b => b
  | None => mkBounds (-1) (-1)
  end.

Definition skipped (d : Doc) (i : Z) : bool :=
  (startLine (frontMatterOf d) <=? i) && (i <=? endLine (frontMatterOf d)).

(** The token at [(l1, c1)] is pushed before the token at [(l2, c2)]. *)
Definition pushedBefore (a b : StackEntry * Z) : Prop :=
  eline (fst a) < eline (fst b)
  \/ (eline (fst a) = eline (fst b) /\ snd b < snd a).


End EditorHelpers.


(* ================================================================== *)
(** * settings.ts *)
(* ================================================================== *)

Module Settings.

Inductive WordInsertionMode :=
| MATCH_CASE_REPLACE
| IGNORE_CASE_REPLACE
| APPEND.

Definition WordInsertionMode_eqb (a b : WordInsertionMode) : bool :=
  match a, b with
  | MATCH_CASE_REPLACE, MATCH_CASE_REPLACE
  | IGNORE_CASE_REPLACE, IGNORE_CASE_REPLACE
  | APPEND, APPEND => true
  | _, _ => false
  end.

Inductive CalloutProviderSource := COMPLETR | CALLOUT_MANAGER.

(** [MyAutoCompletionSettings].  The last two fields are keys that
    word_list_provider.ts reads although the interface does not declare
    them: [None] is JavaScript's [undefined], the value they have unless
    the stored settings carry them. *)
Record MyAutoCompletionSettings := mkSettings {
  autoTrigger : bool;
  minWordTriggerLength : Z;
  maxLookBackDistance : Z;
  characterRegex : string;
  insertSpaceAfterComplete : bool;
  wordInsertionMode : WordInsertionMode;
  autoFocus : bool;
  ignoreDiacriticsWhenFiltering : bool;
  insertPeriodAfterSpaces : bool;
  enableWordListProvider : bool;
  enableLatexProvider : bool;
  enableCalloutProvider : bool;
  enableFrontMatterProvider : bool;
  enableFileScannerProvider : bool;
  latexTriggerInCodeBlocks : bool;
  latexIgnoreCase : bool;
  fileScannerScanCurrent : bool;
  frontMatterTagAppendSuffix : bool;
  frontMatterIgnoreCase : bool;
  calloutProviderSource : CalloutProviderSource;
  wordListProviderEnabled : option bool;
  minWordLength : option Z
}.

Definition DEFAULT_SETTINGS : MyAutoCompletionSettings :=
  {| autoTrigger := true;
     minWordTriggerLength := 2;
     maxLookBackDistance := 50;
     characterRegex := "\w";
     insertSpaceAfterComplete := true;
     wordInsertionMode := IGNORE_CASE_REPLACE;
     autoFocus := true;
     ignoreDiacriticsWhenFiltering := false;
     insertPeriodAfterSpaces := false;
     enableWordListProvider := true;
     enableLatexProvider := true;
     enableCalloutProvider := true;
     enableFrontMatterProvider := true;
     enableFileScannerProvider := true;
     latexTriggerInCodeBlocks := true;
     latexIgnoreCase := true;
     fileScannerScanCurrent := true;
     frontMatterTagAppendSuffix := true;
     frontMatterIgnoreCase := true;
     calloutProviderSource := COMPLETR;
     wordListProviderEnabled := None;
     minWordLength := None |}.

(** [DEFAULT_SETTINGS] with another insertion mode. *)
Definition withMode (s : MyAutoCompletionSettings) (m : WordInsertionMode)
  : MyAutoCompletionSettings :=
  {| autoTrigger := autoTrigger s;
     minWordTriggerLength := minWordTriggerLength s;
     maxLookBackDistance := maxLookBackDistance s;
     characterRegex := characterRegex s;
     insertSpaceAfterComplete := insertSpaceAfterComplete s;
     wordInsertionMode := m;
     autoFocus := autoFocus s;
     ignoreDiacriticsWhenFiltering := ignoreDiacriticsWhenFiltering s;
     insertPeriodAfterSpaces := insertPeriodAfterSpaces s;
     enableWordListProvider := enableWordListProvider s;
     enableLatexProvider := enableLatexProvider s;
     enableCalloutProvider := enableCalloutProvider s;
     enableFrontMatterProvider := enableFrontMatterProvider s;
     enableFileScannerProvider := enableFileScannerProvider s;
     latexTriggerInCodeBlocks := latexTriggerInCodeBlocks s;
     latexIgnoreCase := latexIgnoreCase s;
     fileScannerScanCurrent := fileScannerScanCurrent s;
     frontMatterTagAppendSuffix := frontMatterTagAppendSuffix s;
     frontMatterIgnoreCase := frontMatterIgnoreCase s;
     calloutProviderSource := calloutProviderSource s;
     wordListProviderEnabled := wordListProviderEnabled s;
     minWordLength := minWordLength s |}.

End Settings.

(* ================================================================== *)
(** * provider/provider.ts (interfaces) *)
(* ================================================================== *)

Module Provider.

(** Modelled from the spec: the [Suggestion] class of provider/provider.ts
    is not among the sources.  A suggestion has a [displayName] shown to
    the user and a [replacement] that is inserted; [fromString] builds the
    suggestion whose two texts are the given string. *)
Record Suggestion := mkSuggestion { displayName : string; replacement : string }.

Definition fromString (s : string) : Suggestion := mkSuggestion s s.

(** [SuggestionContext]: the trigger context spread with [query] and
    [separatorChar]. *)
Record SuggestionContext := mkContext {
  editor : Editor;
  file : option string;
  start : EditorPosition;
  end_ : EditorPosition;
  query : string;
  separatorChar : string
}.

(** The [SuggestionProvider] interface: [isEnabled] and
    [blocksAllOtherProviders] are optional members, [getSuggestions] may
    throw. *)
Record SuggestionProvider := mkProvider {
  name : string;
  isEnabled : option (Settings.MyAutoCompletionSettings -> bool);
  blocksAllOtherProviders : option bool;
  getSuggestions : SuggestionContext -> Settings.MyAutoCompletionSettings
                   -> JS.Outcome (list Suggestion)
}.

End Provider.

(* ================================================================== *)
(** * provider/blacklist.ts *)
(* ================================================================== *)

Module SuggestionBlacklist.

(** The [Set<string>] of blacklisted texts, in insertion order. *)
Definition t := list string.

Definition hasText (blacklist : t) (text : string) : bool :=
  existsb (String.eqb text) blacklist.

Definition addFromText (blacklist : t) (text : string) : t :=
  if hasText blacklist text then blacklist else blacklist ++ [text].

Definition filterText (blacklist : t) (suggestions : list string) : list string :=
  if Z.of_nat (List.length blacklist) <? 1 then suggestions
  else filter (fun s => negb (hasText blacklist s)) suggestions.

End SuggestionBlacklist.

(* ================================================================== *)
(** * JavaScript [Map] with string keys

    Entries are kept in insertion order, which is the order [entries()]
    iterates them in; setting a key that is present keeps its place. *)
(* ================================================================== *)

Module JSMap.

Definition t (V : Type) := list (string * V).

Definition empty {V} : t V := [].

Fixpoint get {V} (m : t V) (key : string) : option V :=
  match m with
  | [] => None
  | (k, v) :: rest => if (k =? key)%string then Some v else get rest key
  end.

Definition has {V} (m : t V) (key : string) : bool :=
  match get m key with Some _ => true | None => false end.

Fixpoint set {V} (m : t V) (key : string) (v : V) : t V :=
  match m with
  | [] => [(key, v)]
  | (k, v0) :: rest =>
      if (k =? key)%string then (k, v) :: rest else (k, v0) :: set rest key v
  end.

End JSMap.

(* ================================================================== *)
(** * Dictionary-backed providers *)
(* ================================================================== *)

Module Dictionary.

Import Settings Provider.

(** ** Array.prototype.sort with a key comparator [(a, b) => key a - key b]

    The sort is stable: elements of equal key keep their order. *)

Fixpoint insertBy {A} (key : A -> Z) (x : A) (l : list A) : list A :=
  match l with
  | [] => [x]
  | y :: ys => if key x <? key y then x :: l else y :: insertBy key x ys
  end.

Definition sortBy {A} (key : A -> Z) (l : list A) : list A :=
  fold_left (fun acc x => insertBy key x acc) l [].

(** ** scanner_provider.ts *)

(** The word table [Map<string, Set<string>>]; a [Set] is the list of its
    members in insertion order. *)
Definition WordMap := JSMap.t (list string).

(** [Set.prototype.add] *)
Definition setAdd (members : list string) (word : string) : list string :=
  if existsb (String.eqb word) members then members else members ++ [word].

(** [ScannerSuggestionProvider.addWord] *)
Definition addWord (blacklist : SuggestionBlacklist.t) (wordMap : WordMap)
           (word : string) : WordMap :=
  if negb (JS.truthy word) || SuggestionBlacklist.hasText blacklist word
  then wordMap
  else
    let first := JS.charAt word 0 in
    let wordMap1 := if negb (JSMap.has wordMap first)
                    then JSMap.set wordMap first []
                    else wordMap in
    match JSMap.get wordMap1 first with
    | Some members => JSMap.set wordMap1 first (setAdd members word)
    | None => wordMap1
    end.

(** ** word_list_provider.ts *)

(** [data.split(/\r?\n/)] *)
Fixpoint splitNewLines (s : string) : list string :=
  match s with
  | EmptyString => [""]
  | String ch rest =>
      let continue_ :=
        match splitNewLines rest with
        | [] => [String ch ""]
        | l :: ls => String ch l :: ls
        end in
      if Ascii.eqb ch "010"%char then "" :: splitNewLines rest
      else if Ascii.eqb ch "013"%char then
        match rest with
        | String ch2 _ =>
            if Ascii.eqb ch2 "010"%char then splitNewLines rest else continue_
        | EmptyString => continue_
        end
      else continue_
  end.

(** The body of the loop over the lines of one word-list file. *)
Definition addLine (settings : MyAutoCompletionSettings)
           (wordMap : JSMap.t (list string)) (line : string)
  : JSMap.t (list string) :=
  if negb (JS.truthy line)
     || match minWordLength settings with
        | Some n => JS.len line <? n
        | None => false
        end
  then wordMap
  else
    let key := JS.charAt line 0 in
    let wordMap1 := if negb (JSMap.has wordMap key)
                    then JSMap.set wordMap key []
                    else wordMap in
    match JSMap.get wordMap1 key with
    | Some arr => JSMap.set wordMap1 key (arr ++ [JS.trim line])
    | None => wordMap1
    end.

(** [WordListSuggestionProvider.loadFromFiles]: the table is cleared,
    every readable file is added line by line, then every bucket is
    sorted by length and filtered through the blacklist.  A file is the
    outcome of reading it.  The result is the new table and the total. *)
Definition loadFromFiles (blacklist : SuggestionBlacklist.t)
           (settings : MyAutoCompletionSettings)
           (files : list (JS.Outcome string))
  : JSMap.t (list string) * Z :=
  let loaded :=
    fold_left (fun wordMap file =>
                 match file with
                 | JS.Throws _ => wordMap
                 | JS.Returns data =>
                     fold_left (addLine settings) (splitNewLines data) wordMap
                 end) files JSMap.empty in
  fold_left (fun '(wordMap, total) '(k, arr) =>
               let filtered :=
                 SuggestionBlacklist.filterText blacklist (sortBy JS.len arr) in
               (JSMap.set wordMap k filtered, total + Z.of_nat (List.length filtered)))
            loaded (loaded, 0).

(** ** dictionary_provider.ts *)

Definition isCombiningMark (ch : ascii) : bool :=
  ((768 <=? N_of_ascii ch) && (N_of_ascii ch <=? 879))%N.

Fixpoint stripCombiningMarks (s : string) : string :=
  match s with
  | EmptyString => EmptyString
  | String ch rest =>
      if isCombiningMark ch then stripCombiningMarks rest
      else String ch (stripCombiningMarks rest)
  end.

(** [str.normalize("NFD").replace(DIACRITICS_REGEX, "")], the regex being
    the class of the combining marks U+0300 to U+036F. *)
Definition removeDiacritics `{JS.StringRuntime} (str : string) : string :=
  stripCombiningMarks (JS.normalizeNFD str).

Definition filterMapIntoArray {T U} (array : list T) (iterable : list U)
           (predicate : U -> bool) (mapFn : U -> T) : list T :=
  fold_left (fun arr val => if predicate val then arr ++ [mapFn val] else arr)
            iterable array.

(** [wordMap.get(key) ?? []] *)
Definition getOrEmpty (wordMap : WordMap) (key : string) : list string :=
  match JSMap.get wordMap key with
  | Some l => l
  | None => []
  end.

Section DictionaryProvider.

Context `{JS.StringRuntime}.

(** The abstract members of the class. *)
Variable wordMap : WordMap.
Variable isEnabled : MyAutoCompletionSettings -> bool.

Definition ignoreCaseOf (settings : MyAutoCompletionSettings) : bool :=
  negb (WordInsertionMode_eqb (wordInsertionMode settings) MATCH_CASE_REPLACE).

(** The folded form under which texts are compared. *)
Definition folded (settings : MyAutoCompletionSettings) (s : string) : string :=
  let lowered := EditorHelpers.maybeLowerCase s (ignoreCaseOf settings) in
  if ignoreDiacriticsWhenFiltering settings then removeDiacritics lowered
  else lowered.

Definition listsToCheck (settings : MyAutoCompletionSettings) (firstChar : string)
  : list (list string) :=
  (if ignoreCaseOf settings
   then [getOrEmpty wordMap firstChar;
         getOrEmpty wordMap (JS.toUpperCase firstChar)]
   else [getOrEmpty wordMap firstChar])
  ++ (if ignoreDiacriticsWhenFiltering settings
      then flat_map
             (fun '(key, value) =>
                let keyFirstChar :=
                  EditorHelpers.maybeLowerCase (JS.charAt key 0)
                                               (ignoreCaseOf settings) in
                if (removeDiacritics keyFirstChar =? firstChar)%string
                then [value] else [])
             wordMap
      else []).

(** [DictionaryProvider.getSuggestions] *)
Definition getSuggestions (context : SuggestionContext)
           (settings : MyAutoCompletionSettings) : list Suggestion :=
  if negb (isEnabled settings)
     || negb (JS.truthy (query context))
     || (JS.len (query context) <? minWordTriggerLength settings)
  then []
  else
    let query := folded settings (query context) in
    let firstChar := JS.charAt query 0 in
    let result :=
      fold_left
        (fun result iterable =>
           filterMapIntoArray result iterable
             (fun s => JS.startsWith (folded settings s) query)
             (fun s =>
                if WordInsertionMode_eqb (wordInsertionMode settings) APPEND
                then fromString (Provider.query context
                                 ++ JS.substringFrom s (JS.len query))%string
                else fromString s))
        (listsToCheck settings firstChar) [] in
    sortBy (fun a => JS.len (displayName a)) result.

End DictionaryProvider.

(** The file scanner's [isEnabled]. *)
Definition FileScanner_isEnabled (settings : MyAutoCompletionSettings) : bool :=
  enableFileScannerProvider settings.

(** The word list's [isEnabled] reads [settings.wordListProviderEnabled];
    [undefined] is falsy. *)
Definition WordList_isEnabled (settings : MyAutoCompletionSettings) : bool :=
  match wordListProviderEnabled settings with
  | Some b => b
  | None => false
  end.

(** ** Vocabulary of the dictionary properties *)

(** A word is stored when it is not empty and not blacklisted. *)
Definition storable (blacklist : SuggestionBlacklist.t) (w : string) : bool :=
  JS.truthy w && negb (SuggestionBlacklist.hasText blacklist w).

(** Every bucket is duplicate-free. *)
Definition uniqueBuckets (m : WordMap) : Prop :=
  forall k l, JSMap.get m k = Some l -> NoDup l.

(** Every word is filed under its first character. *)
Definition keyedByFirst (m : WordMap) : Prop :=
  forall k l x, JSMap.get m k = Some l -> In x l -> JS.charAt x 0 = k.

(** What happens to the file scanner's table and to the blacklist while
    the plugin runs: [addWord] is called with a word (from [scanFile] or
    [loadData]), a text is blacklisted ([SuggestionBlacklist.addFromText]),
    or the table is cleared ([deleteAllWords]). *)
Inductive ScannerEvent :=
| WordAdded (word : string)
| TextBlacklisted (text : string)
| WordsDeleted.

Definition scannerStep (s : SuggestionBlacklist.t * WordMap) (ev : ScannerEvent)
  : SuggestionBlacklist.t * WordMap :=
  match ev with
  | WordAdded word => (fst s, addWord (fst s) (snd s) word)
  | TextBlacklisted text => (SuggestionBlacklist.addFromText (fst s) text, snd s)
  | WordsDeleted => (fst s, JSMap.empty)
  end.

(** The blacklist and the table after a history that starts with the
    blacklist [bl0] and the empty table. *)
Definition scannerRun (bl0 : SuggestionBlacklist.t) (history : list ScannerEvent)
  : SuggestionBlacklist.t * WordMap :=
  fold_left scannerStep history (bl0, JSMap.empty).

(** The word sits in the bucket of its first character. *)
Definition stored (m : WordMap) (w : string) : Prop :=
  In w (getOrEmpty m (JS.charAt w 0)).

(** The folding on ASCII text: lower case when case is ignored; the
    diacritics step changes nothing. *)
Definition asciiFolded (settings : MyAutoCompletionSettings) (s : string) : string :=
  if ignoreCaseOf settings then JS.asciiLower s else s.

(** What the matcher makes of a candidate [w] for the typed [query]. *)
Definition suggestionFor (settings : MyAutoCompletionSettings)
           (typed w : string) : Suggestion :=
  if WordInsertionMode_eqb (wordInsertionMode settings) APPEND
  then fromString (typed ++ JS.substringFrom w (JS.len typed))%string
  else fromString w.

(** A context with the given query. *)
Definition queryContext (q : string) : SuggestionContext :=
  mkContext (mkEditor [q] (mkPos 0 (JS.len q), mkPos 0 (JS.len q)) []) None
            (mkPos 0 0) (mkPos 0 (JS.len q)) q "".

End Dictionary.

(* ================================================================== *)
(** * popup.ts *)
(* ================================================================== *)

Module Popup.

Import Settings Provider.

(** What [getSuggestions] receives from the host. *)
Record EditorSuggestContext := mkSuggestContext {
  sc_editor : Editor;
  sc_file : option string;
  sc_start : EditorPosition;
  sc_end : EditorPosition;
  sc_query : string
}.

(** The lines written to the console while the providers are consulted. *)
Inductive LogEntry :=
| LogQuery (query separator : string)
| LogDisabled (provider : string)
| LogReturned (provider : string) (count : Z)
| LogError (provider : string) (error : string)
| LogTotal (count : Z).

(** Truthiness of the optional flag [blocksAllOtherProviders]. *)
Definition blocks (p : SuggestionProvider) : bool :=
  match blocksAllOtherProviders p with
  | Some b => b
  | None => false
  end.

(** [provider.isEnabled?.(settings)]: [undefined], hence falsy, when the
    provider has no such method. *)
Definition enabled (p : SuggestionProvider) (settings : MyAutoCompletionSettings)
  : bool :=
  match isEnabled p with
  | Some f => f settings
  | None => false
  end.

(** The loop [for (const provider of providers) { try { ... } catch ... }]. *)
Fixpoint providerLoop (settings : MyAutoCompletionSettings)
         (suggestionContext : SuggestionContext)
         (providers : list SuggestionProvider)
         (allSuggestions : list Suggestion) (log : list LogEntry)
  : list Suggestion * list LogEntry :=
  match providers with
  | [] => (allSuggestions, log)
  | provider :: rest =>
      if negb (enabled provider settings)
      then providerLoop settings suggestionContext rest allSuggestions
                        (log ++ [LogDisabled (name provider)])
      else
        match Provider.getSuggestions provider suggestionContext settings with
        | JS.Throws e =>
            providerLoop settings suggestionContext rest allSuggestions
                         (log ++ [LogError (name provider) e])
        | JS.Returns suggestions =>
            let log' := log ++ [LogReturned (name provider)
                                            (Z.of_nat (List.length suggestions))] in
            if 0 <? Z.of_nat (List.length suggestions)
            then
              if blocks provider then (suggestions, log')
              else providerLoop settings suggestionContext rest
                                (allSuggestions ++ suggestions) log'
            else providerLoop settings suggestionContext rest allSuggestions log'
        end
  end.

(** The part of [SuggestionPopup.getSuggestions] after the query has
    been matched: the providers are consulted in the order given. *)
Definition compose (settings : MyAutoCompletionSettings)
           (suggestionContext : SuggestionContext)
           (providers : list SuggestionProvider)
  : list Suggestion * list LogEntry :=
  providerLoop settings suggestionContext providers [] [].

(** The provider singletons.  What the dictionary-backed ones return is
    [DictionaryProvider.getSuggestions] over their tables; of the other
    three only the members the pipeline reads are fixed here, their
    [getSuggestions] bodies are left open. *)
Definition ProviderBody :=
  SuggestionContext -> MyAutoCompletionSettings -> JS.Outcome (list Suggestion).

Definition FileScanner `{JS.StringRuntime} (wordMap : Dictionary.WordMap)
  : SuggestionProvider :=
  {| name := "ScannerSuggestionProvider";
     isEnabled := Some Dictionary.FileScanner_isEnabled;
     blocksAllOtherProviders := None;
     getSuggestions := fun c s =>
       JS.Returns (Dictionary.getSuggestions wordMap
                     Dictionary.FileScanner_isEnabled c s) |}.

Definition WordList `{JS.StringRuntime} (wordMap : Dictionary.WordMap)
  : SuggestionProvider :=
  {| name := "WordListSuggestionProvider";
     isEnabled := Some Dictionary.WordList_isEnabled;
     blocksAllOtherProviders := None;
     getSuggestions := fun c s =>
       JS.Returns (Dictionary.getSuggestions wordMap
                     Dictionary.WordList_isEnabled c s) |}.

Definition Latex (body : ProviderBody) : SuggestionProvider :=
  {| name := "LatexSuggestionProvider";
     isEnabled := None;
     blocksAllOtherProviders := None;
     getSuggestions := body |}.

Definition Callout (body : ProviderBody) : SuggestionProvider :=
  {| name := "CalloutSuggestionProvider";
     isEnabled := None;
     blocksAllOtherProviders := Some true;
     getSuggestions := body |}.

Definition FrontMatter (body : ProviderBody) : SuggestionProvider :=
  {| name := "FrontMatterSuggestionProvider";
     isEnabled := None;
     blocksAllOtherProviders := Some true;
     getSuggestions := body |}.

(** [SuggestionPopup.getSuggestions]; [charPredicate] is the test of one
    character against [settings.characterRegex]. *)
Definition getSuggestions `{JS.StringRuntime}
           (settings : MyAutoCompletionSettings)
           (charPredicate : string -> bool)
           (scannerWords wordListWords : Dictionary.WordMap)
           (latex callout frontMatter : ProviderBody)
           (context : EditorSuggestContext)
  : list Suggestion * list LogEntry :=
  let cursor := getCursor (sc_editor context) in
  let '(query, separatorChar) :=
    EditorHelpers.matchWordBackwards (sc_editor context) cursor charPredicate
                                     (maxLookBackDistance settings) in
  let suggestionContext :=
    mkContext (sc_editor context) (sc_file context) (sc_start context)
              (sc_end context) query
              (match separatorChar with Some ch => ch | None => "" end) in
  let providers := [FileScanner scannerWords; WordList wordListWords;
                    Latex latex; Callout callout; FrontMatter frontMatter] in
  let '(allSuggestions, log) :=
    providerLoop settings suggestionContext providers []
                 [LogQuery query
                    (match separatorChar with Some ch => ch | None => "null" end)] in
  (allSuggestions, log ++ [LogTotal (Z.of_nat (List.length allSuggestions))]).

(** ** Vocabulary of the pipeline properties *)

(** A provider that, when consulted, stops the loop: it is enabled, it
    returns a non-empty list and it blocks all other providers. *)
Definition firesExclusively (settings : MyAutoCompletionSettings)
           (ctx : SuggestionContext) (p : SuggestionProvider) : bool :=
  enabled p settings
  && blocks p
  && match Provider.getSuggestions p ctx settings with
     | JS.Returns l => 0 <? Z.of_nat (List.length l)
     | JS.Throws _ => false
     end.

(** A provider that is skipped or throws leaves the accumulated
    suggestions as they were. *)
Definition contributesNothing (settings : MyAutoCompletionSettings)
           (ctx : SuggestionContext) (p : SuggestionProvider) : Prop :=
  enabled p settings = false
  \/ exists e, Provider.getSuggestions p ctx settings = JS.Throws e.

(** The three providers of the pipeline example: A and C do not block,
    B blocks; all three are enabled. *)
Definition exampleA (a1 a2 : Suggestion) : SuggestionProvider :=
  mkProvider "A" (Some (fun _ => true)) (Some false)
             (fun _ _ => JS.Returns [a1; a2]).

Definition exampleB (b : Suggestion) : SuggestionProvider :=
  mkProvider "B" (Some (fun _ => true)) (Some true)
             (fun _ _ => JS.Returns [b]).

Definition exampleC (c1 c2 c3 : Suggestion) : SuggestionProvider :=
  mkProvider "C" (Some (fun _ => true)) None
             (fun _ _ => JS.Returns [c1; c2; c3]).

(** A provider that throws between two providers that return. *)
Definition throwing : SuggestionProvider :=
  mkProvider "T" (Some (fun _ => true)) None (fun _ _ => JS.Throws "boom").

End Popup.

(* ================================================================== *)
(** * snippet_manager.ts *)
(* ================================================================== *)

Module Snippets.

Import CM MarkerStateField.

Definition COLORS : list string :=
  ["lightskyblue"; "orange"; "lime"; "pink"; "cornsilk"; "magenta"; "navajowhite"].

(** A [PlaceholderReference] is an object; the model keeps its identity.
    All references of a manager belong to the one editor it works on. *)
Definition PlaceholderReference := nat.

(** The manager with the editor its placeholders live in; [nextRef] is the
    identity the next [new PlaceholderReference] gets. *)
Record State := mkState {
  editor : Editor;
  placeholders : list PlaceholderReference;
  nextRef : nat
}.

(** The getter [marker]: the first range of the marker field whose
    [spec.reference] is this object, or [null]. *)
Definition marker (e : Editor) (ref : PlaceholderReference) : option Range :=
  find (fun r => Nat.eqb (reference (value r)) ref) (marks e).

Definition removeFromEditor (e : Editor) (ref : PlaceholderReference) : Editor :=
  dispatch e (mkTr None [removeMarkBySpecAttribute "reference" ref]).

(** [p.marker?.value?.spec?.attributes?.class ?? ""] *)
Definition markerClass (e : Editor) (ref : PlaceholderReference) : string :=
  match marker e ref with
  | Some r => class (value r)
  | None => ""
  end.

(** The colour loop; [random] is the value of
    [Math.floor(Math.random() * COLORS.length)]. *)
Definition chooseColorIndex (st : State) (random : Z) : Z :=
  match find (fun colorIndex =>
                negb (existsb (fun p => JS.endsWith (markerClass (editor st) p)
                                                    (JS.toString colorIndex))
                              (placeholders st)))
             (JS.range 0 (List.length COLORS)) with
  | Some colorIndex => colorIndex
  | None => random
  end.

(** [selectMarker]; [None] is the exception of [posFromIndex]. *)
Definition selectMarker (st : State) (ref : PlaceholderReference) : option State :=
  match marker (editor st) ref with
  | None => Some st
  | Some m =>
      match EditorHelpers.posFromIndex (doc (editor st)) (from m) with
      | None => None
      | Some p =>
          Some (mkState (setSelection (editor st) p (mkPos (line p) (ch p + 1)))
                        (placeholders st) (nextRef st))
      end
  end.

(** The [~] branch: the character at the sentinel's position is deleted. *)
Definition deleteTilde (start : EditorPosition) (lineIndex i : Z) (st : State)
  : State :=
  let lineBaseOffset := if lineIndex =? 0 then ch start else 0 in
  let pos := mkPos (line start + lineIndex) (lineBaseOffset + i) in
  mkState (replaceRange (editor st) "" pos (mkPos (line pos) (ch pos + 1)))
          (placeholders st) (nextRef st).

(** The [#] branch: a new reference, a mark over [from, from + 1), and the
    reference put at the front of the list. *)
Definition registerPlaceholder (start : EditorPosition) (colorIndex : Z)
           (lineIndex i : Z) (st : State) : option State :=
  let lineBaseOffset := if lineIndex =? 0 then ch start else 0 in
  let ref := nextRef st in
  match EditorHelpers.indexFromPos (doc (editor st))
          (mkPos (line start + lineIndex) (lineBaseOffset + i)) with
  | None => None
  | Some from =>
      let to := from + 1 in
      let deco :=
        mkRange from to
          (mkDeco true "border-width: 1px 0 1px 0; border-style: solid;"
                  ("completr-suggestion-placeholder" ++ JS.toString colorIndex)%string
                  ref) in
      Some (mkState (dispatch (editor st) (mkTr None [addMark deco]))
                    (ref :: placeholders st) (S ref))
  end.

(** The body of the character loop at index [i] of line [lineIndex]. *)
Definition processChar (start : EditorPosition) (colorIndex : Z)
           (lineText : string) (lineIndex i : Z) (st : State) : option State :=
  let c := JS.charAt lineText i in
  if negb (c =? "#")%string && negb (c =? "~")%string then Some st
  else if (c =? "~")%string then Some (deleteTilde start lineIndex i st)
  else registerPlaceholder start colorIndex lineIndex i st.

(** A loop whose body may throw, over the given index values. *)
Fixpoint forEach {A} (body : A -> State -> option State) (l : list A)
         (st : State) : option State :=
  match l with
  | [] => Some st
  | x :: rest =>
      match body x st with
      | None => None
      | Some st' => forEach body rest st'
      end
  end.

(** The index values [n - 1, ..., 1, 0] of a descending loop. *)
Definition downFrom (n : nat) : list Z := rev (JS.range 0 n).

(** [handleSnippet(value, start, editor)] *)
Definition handleSnippet (value : string) (start : EditorPosition)
           (random : Z) (st : State) : option State :=
  let colorIndex := chooseColorIndex st random in
  let lines := JS.splitLines value in
  match forEach
          (fun lineIndex st1 =>
             let lineText := nth (Z.to_nat lineIndex) lines "" in
             forEach (processChar start colorIndex lineText lineIndex)
                     (downFrom (String.length lineText)) st1)
          (downFrom (List.length lines)) st with
  | None => None
  | Some st' =>
      match placeholders st' with
      | first :: _ => selectMarker st' first
      | [] => Some st'
      end
  end.

(** [consumeAndGotoNextMarker] *)
Definition consumeAndGotoNextMarker (st : State) : option (bool * State) :=
  let st1 :=
    match placeholders st with
    | oldPlaceholder :: rest =>
        mkState (removeFromEditor (editor st) oldPlaceholder) rest (nextRef st)
    | [] => st
    end in
  match placeholders st1 with
  | [] => Some (false, st1)
  | nextPh :: _ =>
      match marker (editor st1) nextPh with
      | None => Some (false, st1)
      | Some _ =>
          match selectMarker st1 nextPh with
          | None => None
          | Some st2 => Some (true, st2)
          end
      end
  end.

(** The loop of [placeholderAtPos]: entries whose marker is gone are
    spliced out until a placeholder containing [pos] is found. *)
Fixpoint placeholderLoop (e : Editor) (pos : EditorPosition)
         (pending kept : list PlaceholderReference)
  : option (option PlaceholderReference * list PlaceholderReference) :=
  match pending with
  | [] => Some (None, kept)
  | ph :: rest =>
      match marker e ph with
      | None => placeholderLoop e pos rest kept
      | Some r =>
          match EditorHelpers.posFromIndex (doc e) (from r),
                EditorHelpers.posFromIndex (doc e) (to r) with
          | Some f, Some t =>
              if (line pos =? line f) && (ch f <=? ch pos) && (ch pos <=? ch t)
              then Some (Some ph, kept ++ ph :: rest)
              else placeholderLoop e pos rest (kept ++ [ph])
          | _, _ => None
          end
      end
  end.

Definition placeholderAtPos (pos : EditorPosition) (st : State)
  : option (option PlaceholderReference * State) :=
  match placeholderLoop (editor st) pos (placeholders st) [] with
  | None => None
  | Some (found, phs) => Some (found, mkState (editor st) phs (nextRef st))
  end.

(** [clearAllPlaceholders] *)
Definition clearAllPlaceholders (st : State) : State :=
  match placeholders st with
  | [] => st
  | _ :: _ =>
      mkState (dispatch (editor st) (mkTr None [clearMarks])) [] (nextRef st)
  end.

(** ** Vocabulary of the placeholder properties *)

(** The mark that [handleSnippet] registers for a placeholder. *)
Definition placeholderMark (from colorIndex : Z) (ref : PlaceholderReference)
  : Range :=
  mkRange from (from + 1)
    (mkDeco true "border-width: 1px 0 1px 0; border-style: solid;"
            ("completr-suggestion-placeholder" ++ JS.toString colorIndex)%string
            ref).

(** The document position of the sentinel at index [i] of snippet line
    [lineIndex]. *)
Definition sentinelPos (start : EditorPosition) (lineIndex i : Z) : EditorPosition :=
  mkPos (line start + lineIndex) ((if lineIndex =? 0 then ch start else 0) + i).

(** Reprojection of one marker through a sequence of edits; [None] once
    the marker set no longer holds it. *)
Fixpoint reproject (edits : list Change) (r : Range) : option Range :=
  match edits with
  | [] => Some r
  | chg :: rest =>
      match mapRange chg r with
      | None => None
      | Some r' => reproject rest r'
      end
  end.

(** An edit that does not touch the marked character: it ends at or
    before the marker without being an insertion at its start, or it
    starts at or after the marker's end without being an insertion
    there. *)
Definition outside (chg : Change) (r : Range) : bool :=
  ((cto chg <=? from r) && (cfrom chg <? from r))
  || ((to r <=? cfrom chg) && (to r <? cto chg)).

Fixpoint allOutside (edits : list Change) (r : Range) : bool :=
  match edits with
  | [] => true
  | chg :: rest =>
      outside chg r
      && match mapRange chg r with
         | None => true
         | Some r' => allOutside rest r'
         end
  end.

End Snippets.

(* ================================================================== *)
(** * Vocabulary of the further scanner properties *)
(* ================================================================== *)

Module ScannerTerms.

Import EditorHelpers.

(** The character at [k] is a dollar sign or a backtick. *)
Definition delimiterAt (text : string) (k : Z) : Prop :=
  JS.charAt text k = "$" \/ JS.charAt text k = "`".

(** The scanner's escape test at index [j]: [j > 0] and the character
    before [j] is a backslash. *)
Definition escapedAt (text : string) (j : Z) : bool :=
  (0 <? j) && (JS.charAt text (j - 1) =? "\")%string.

(** The delimiter text of [ty] ends at index [j] of [text]: the test
    [j + 1 >= c.length && substringMatches(line, c, j - c.length + 1)]. *)
Definition endsAt (text : string) (ty : BlockType) (j : Z) : bool :=
  (JS.len (c ty) <=? j + 1)
  && substringMatches text (c ty) (j - JS.len (c ty) + 1).

(** A token of type [ty] is to be recognised at index [j]: its delimiter
    text ends there; if it is one character wide, the escape test fails
    at [j] (the character before the token is not a backslash) and the
    wide delimiter of its family does not end at [j].  For a wide token
    the escape test looks at the token's last character but one, so it
    never fires: a wide token may well have a backslash in front. *)
Definition recognised (text : string) (j : Z) (ty : BlockType) : Prop :=
  ty <> NONE
  /\ endsAt text ty j = true
  /\ (isMultiLine ty = false ->
      escapedAt text j = false
      /\ forall o, otherType ty = Some o -> endsAt text o j = false).

(** The first of the columns that a token recognised at [snd x] takes
    up; [snd x] is the last. *)
Definition firstCol (x : StackEntry * Z) : Z :=
  snd x - JS.len (c (type (fst x))) + 1.

(** The scan for [pos] looks at index [k] of line [i]: the line is in the
    window and not front matter, and on the cursor's line the index is
    before the cursor. *)
Definition scannedAt (d : Doc) (pos : EditorPosition) (i k : Z) : Prop :=
  Z.max 0 (line pos - 5000) <= i <= line pos
  /\ skipped d i = false
  /\ (i = line pos -> k < ch pos).

(** What it means for the token [fst x], recognised at index [snd x], to
    be a real delimiter of the document [d] scanned for [pos]: the scan
    looks at that index of its line, and a token of its type is to be
    recognised there. *)
Definition realToken (d : Doc) (pos : EditorPosition) (x : StackEntry * Z) : Prop :=
  scannedAt d pos (eline (fst x)) (snd x)
  /\ 0 <= snd x
  /\ recognised (getLine d (eline (fst x))) (snd x) (type (fst x)).


(** [pushedBefore], as a test. *)
Definition pushedBeforeb (a b : StackEntry * Z) : bool :=
  (eline (fst a) <? eline (fst b))
  || ((eline (fst a) =? eline (fst b)) && (snd b <? snd a)).

(** The wide dollar token of line [L] whose two dollar signs stand at
    columns [c0] and [c0 + 1], and the tokens that the scan for [pos]
    pushes before it and behind it. *)
Definition wideDollar (L c0 : Z) : StackEntry * Z :=
  (mkEntry DOLLAR_MULTI L, c0 + 1).

Definition tokensBefore (d : Doc) (pos : EditorPosition) (x : StackEntry * Z)
  : list StackEntry :=
  map fst (filter (fun y => pushedBeforeb y x) (collectTokensAt d pos)).

Definition tokensBehind (d : Doc) (pos : EditorPosition) (x : StackEntry * Z)
  : list StackEntry :=
  map fst (filter (fun y => pushedBeforeb x y) (collectTokensAt d pos)).

(** The pairing pass, standing in front of [pre ++ stack], gets through
    [pre] and goes on with [stack]: [pre] is made of closed pairs (a
    token, tokens of other types, the next token of its type) and of
    single dollars on lines other than the cursor's that no later token
    closes. *)
Inductive walksThrough (pos : EditorPosition) (stack : list StackEntry)
  : list StackEntry -> Prop :=
| walk_done : walksThrough pos stack []
| walk_pair x mid y pre :
    type y = type x ->
    Forall (fun e => type e <> type x) mid ->
    walksThrough pos stack pre ->
    walksThrough pos stack (x :: mid ++ y :: pre)
| walk_single x pre :
    type x = DOLLAR_SINGLE ->
    eline x <> line pos ->
    Forall (fun e => type e <> DOLLAR_SINGLE) (pre ++ stack) ->
    walksThrough pos stack pre ->
    walksThrough pos stack (x :: pre).

(** Every position that the scan for [pos] looks at holds a character
    that is neither a dollar sign nor a backtick, except [(L, c0)]. *)
Definition plainExceptAt (d : Doc) (pos : EditorPosition) (L c0 : Z) : Prop :=
  forall i k,
    Z.max 0 (line pos - 5000) <= i <= line pos ->
    skipped d i = false ->
    0 <= k ->
    (i = line pos -> k < ch pos) ->
    ~ (i = L /\ k = c0) ->
    plainAt (getLine d i) k.

End ScannerTerms.

(* ================================================================== *)
(** * Vocabulary of the further helper properties *)
(* ================================================================== *)

Module HelperTerms.

(** The characters of [text] at the indices [lo, lo + 1, ..., lo + n - 1],
    each as [charAt] gives it, put together. *)
Definition textBetween (text : string) (lo : Z) (n : nat) : string :=
  fold_right String.append "" (map (JS.charAt text) (JS.range lo n)).

End HelperTerms.

(* ================================================================== *)
(** * popup.ts: trigger and selection *)
(* ================================================================== *)

Module SuggestionPopup.

Import Settings Provider.

Inductive SelectionDirection := NEXT | PREVIOUS.

(** The fields of the popup that its methods read and write; [isOpen] is
    the host's [this.open]. *)
Record PopupState := mkPopup {
  isOpen : bool;
  suggestions : list Suggestion;
  selectedIndex : Z;
  lastCursorLine : Z;
  shouldPreventNextTrigger : bool
}.

(** [EditorSuggestTriggerInfo] *)
Record TriggerInfo := mkTrigger {
  t_start : EditorPosition;
  t_end : EditorPosition;
  t_query : string
}.

(** [trigger(editor, file, force)]; [None] is [null]. *)
Definition trigger (settings : MyAutoCompletionSettings)
           (charPredicate : string -> bool) (editor : Editor) (force : bool)
  : option TriggerInfo :=
  let cursor := getCursor editor in
  let '(query, separatorChar) :=
    EditorHelpers.matchWordBackwards editor cursor charPredicate
                                     (maxLookBackDistance settings) in
  if negb force
     && (negb (JS.truthy query)
         || (JS.len query <? minWordTriggerLength settings)
         || negb (autoTrigger settings))
  then None
  else
    let start :=
      mkPos (line cursor)
            (Z.max 0 (ch cursor - (if JS.truthy query then JS.len query else 0))) in
    Some (mkTrigger start cursor (if JS.truthy query then query else "")).

(** [selectNextItem(direction)]: the remainder is JavaScript's, of the
    sign of the dividend.  The update of the DOM is left out. *)
Definition selectNextItem (p : PopupState) (direction : SelectionDirection)
  : PopupState :=
  let length := Z.of_nat (List.length (suggestions p)) in
  if negb (isOpen p) || (length =? 0) then p
  else
    let index :=
      Z.rem (selectedIndex p
             + match direction with NEXT => 1 | PREVIOUS => -1 end) length in
    mkPopup (isOpen p) (suggestions p)
            (if index <? 0 then length - 1 else index)
            (lastCursorLine p) (shouldPreventNextTrigger p).

(** [getSelectedItem()]; [None] is [undefined]. *)
Definition getSelectedItem (p : PopupState) : option Suggestion :=
  if selectedIndex p <? 0 then None
  else nth_error (suggestions p) (Z.to_nat (selectedIndex p)).

(** [preventNextTrigger()] *)
Definition preventNextTrigger (p : PopupState) : PopupState :=
  mkPopup (isOpen p) (suggestions p) (selectedIndex p) (lastCursorLine p) true.

(** [close()]: the host closes the popup. *)
Definition close (p : PopupState) : PopupState :=
  mkPopup false (suggestions p) (selectedIndex p) (lastCursorLine p)
          (shouldPreventNextTrigger p).

(** ** Vocabulary *)

(** What a provider adds to the merged list when it does not stop the
    loop: its suggestions when it is enabled and returns, else nothing. *)
Definition contribution (settings : MyAutoCompletionSettings)
           (ctx : SuggestionContext) (p : SuggestionProvider) : list Suggestion :=
  if Popup.enabled p settings
  then match Provider.getSuggestions p ctx settings with
       | JS.Returns l => l
       | JS.Throws _ => []
       end
  else [].

(** The one console line a consulted provider leaves. *)
Definition logLine (settings : MyAutoCompletionSettings)
           (ctx : SuggestionContext) (p : SuggestionProvider) : Popup.LogEntry :=
  if Popup.enabled p settings
  then match Provider.getSuggestions p ctx settings with
       | JS.Returns l => Popup.LogReturned (name p) (Z.of_nat (List.length l))
       | JS.Throws e => Popup.LogError (name p) e
       end
  else Popup.LogDisabled (name p).

(** The context the providers get for a matched query. *)
Definition contextFor (context : Popup.EditorSuggestContext) (query : string)
           (separatorChar : option string) : SuggestionContext :=
  mkContext (Popup.sc_editor context) (Popup.sc_file context)
            (Popup.sc_start context) (Popup.sc_end context) query
            (match separatorChar with Some ch => ch | None => "" end).

(** An open popup with three suggestions, the first one selected. *)
Definition threeItems : PopupState :=
  mkPopup true (map fromString ["a"; "b"; "c"]) 0 0 false.

End SuggestionPopup.

(* ================================================================== *)
(** * main.ts: cursor activity *)
(* ================================================================== *)

Module Main.

Import SuggestionPopup.

(** The parts of the plugin that [handleCursorActivity] touches;
    [canInsert] is the flag of the [PeriodInserter]. *)
Record Plugin := mkPlugin {
  canInsert : bool;
  suggestionPopup : PopupState;
  snippetManager : Snippets.State
}.

(** [handleCursorActivity(cursor)]; [None] is the exception that
    [placeholderAtPos] lets through. *)
Definition handleCursorActivity (cursor : EditorPosition) (pl : Plugin)
  : option Plugin :=
  let popup := suggestionPopup pl in
  let popup1 := if negb (lastCursorLine popup =? line cursor)
                then preventNextTrigger popup else popup in
  let popup2 := mkPopup (isOpen popup1) (suggestions popup1)
                        (selectedIndex popup1) (line cursor)
                        (shouldPreventNextTrigger popup1) in
  match Snippets.placeholderAtPos cursor (snippetManager pl) with
  | None => None
  | Some (found, manager) =>
      Some (mkPlugin false (close popup2)
                     (match found with
                      | Some _ => manager
                      | None => Snippets.clearAllPlaceholders manager
                      end))
  end.

End Main.

(* ================================================================== *)
(** * Vocabulary of the further placeholder properties *)
(* ================================================================== *)

Module SnippetTerms.

Import CM Snippets.

(** The placeholder still has a marker. *)
Definition live (e : Editor) (ph : PlaceholderReference) : bool :=
  match marker e ph with Some _ => true | None => false end.

(** The placeholder's marker is on the line of [pos] and reaches from
    before or at its column to at or after it. *)
Definition covers (e : Editor) (pos : EditorPosition) (ph : PlaceholderReference)
  : bool :=
  match marker e ph with
  | None => false
  | Some r =>
      match EditorHelpers.posFromIndex (doc e) (from r),
            EditorHelpers.posFromIndex (doc e) (to r) with
      | Some f, Some t =>
          (line pos =? line f) && (ch f <=? ch pos) && (ch pos <=? ch t)
      | _, _ => false
      end
  end.

(** The number of [#] in a text. *)
Fixpoint countHashes (s : string) : nat :=
  match s with
  | EmptyString => O
  | String c rest => (if Ascii.eqb c "#" then 1 else 0)%nat + countHashes rest
  end.

(** From [st] to [st'] exactly [k] placeholders were created, each put
    in front of those before it. *)
Definition grows (k : nat) (st st' : State) : Prop :=
  placeholders st' = rev (seq (nextRef st) k) ++ placeholders st
  /\ nextRef st' = (nextRef st + k)%nat.

(** The colour index is the class suffix of some tracked placeholder. *)
Definition inUse (st : State) (colorIndex : Z) : bool :=
  existsb (fun p => JS.endsWith (markerClass (editor st) p)
                                (JS.toString colorIndex))
          (placeholders st).

(** A manager that tracks two placeholders of the line [a#b#]. *)
Definition tracked : State :=
  mkState (mkEditor ["a#b#"] (mkPos 0 0, mkPos 0 0)
                    [placeholderMark 1 0 0%nat; placeholderMark 3 0 1%nat])
          [0%nat; 1%nat] 2%nat.

(** The same manager after the first placeholder has been consumed. *)
Definition trackedNext : State :=
  mkState (mkEditor ["a#b#"] (mkPos 0 3, mkPos 0 4)
                    [placeholderMark 3 0 1%nat])
          [1%nat] 2%nat.

(** A manager without placeholders on the line [a#b#], and the same
    manager after that text has been handled as a snippet. *)
Definition untracked : State :=
  mkState (mkEditor ["a#b#"] (mkPos 0 0, mkPos 0 0) []) [] 0%nat.

Definition afterSnippet : State :=
  mkState (mkEditor ["a#b#"] (mkPos 0 1, mkPos 0 2)
                    [placeholderMark 1 0 1%nat; placeholderMark 3 0 0%nat])
          [1%nat; 0%nat] 2%nat.

End SnippetTerms.

(* ================================================================== *)
(** * Vocabulary of the cursor handler's properties *)
(* ================================================================== *)

Module MainTerms.

Import Snippets SnippetTerms SuggestionPopup Main.

(** A plugin with an open popup and two tracked placeholders, and what
    it is after the cursor has gone to the start of the line. *)
Definition busy : Plugin := mkPlugin true threeItems tracked.

Definition settled : Plugin :=
  mkPlugin false (close threeItems)
           (mkState (mkEditor ["a#b#"] (mkPos 0 0, mkPos 0 0) []) [] 2%nat).

End MainTerms.

(* ================================================================== *)
(** * provider/front_matter_provider.ts: [publish] values and key cache *)
(* ================================================================== *)

Module FrontMatterProvider.

Import Provider.

(** [getPublishSuggestions(query)] *)
Definition getPublishSuggestions (query : string) : list Suggestion :=
  let possibilities := [fromString "true"; fromString "false"] in
  let partial :=
    filter (fun s => JS.startsWith (displayName s) query
                     && negb (displayName s =? query)%string)
           possibilities in
  if 0 <? Z.of_nat (List.length partial) then partial
  else if (query =? "true")%string || (query =? "false")%string
       then (if (query =? "true")%string then rev possibilities
             else possibilities)
       else [].

(** [YAMLKeyInfo]; the [Set] of completions is the list of its members in
    insertion order. *)
Record YAMLKeyInfo := mkKeyInfo {
  key : string;
  isList : bool;
  completions : list string
}.

(** [YAMLKeyCache]: its [keyMap]. *)
Definition YAMLKeyCache := JSMap.t YAMLKeyInfo.

(** The entry of [key], made first when there is none. *)
Definition ensure (keyMap : JSMap.t YAMLKeyInfo) (key : string)
  : JSMap.t YAMLKeyInfo :=
  if negb (JSMap.has keyMap key)
  then JSMap.set keyMap key (mkKeyInfo key false [])
  else keyMap.

(** [getAllKeys()] *)
Definition getAllKeys (keyMap : YAMLKeyCache) : list YAMLKeyInfo :=
  map snd keyMap.

(** The body of the inner loop of [getAllKnownKeys]. *)
Definition combine (combined : JSMap.t YAMLKeyInfo) (info : YAMLKeyInfo)
  : JSMap.t YAMLKeyInfo :=
  let combined1 := ensure combined (key info) in
  match JSMap.get combined1 (key info) with
  | Some existing =>
      JSMap.set combined1 (key info)
        (mkKeyInfo (key existing)
                   (isList existing || isList info)
                   (fold_left Dictionary.setAdd (completions info)
                              (completions existing)))
  | None => combined1
  end.

(** [getAllKnownKeys()] over the caches of the files, in the order of
    [fileSuggestionCache]. *)
Definition getAllKnownKeys (fileSuggestionCache : JSMap.t YAMLKeyCache)
  : list YAMLKeyInfo :=
  map snd
      (fold_left (fun combined cache =>
                    fold_left combine (getAllKeys cache) combined)
                 (map snd fileSuggestionCache) []).

(** ** Vocabulary *)

(** The key infos of all files, file by file. *)
Definition allInfos (fileSuggestionCache : JSMap.t YAMLKeyCache)
  : list YAMLKeyInfo :=
  flat_map getAllKeys (map snd fileSuggestionCache).

(** Some info of the list is for [k] and satisfies [P]. *)
Definition someInfo (infos : list YAMLKeyInfo) (k : string)
           (P : YAMLKeyInfo -> Prop) : Prop :=
  exists info, In info infos /\ key info = k /\ P info.

(** The combined map holds for every key of [infos], and for no other,
    one info that gathers the completions and the list flags. *)
Definition gathers (infos : list YAMLKeyInfo) (combined : JSMap.t YAMLKeyInfo)
  : Prop :=
  NoDup (map fst combined)
  /\ (forall info, In info infos -> JSMap.has combined (key info) = true)
  /\ forall k merged,
       JSMap.get combined k = Some merged ->
       key merged = k
       /\ NoDup (completions merged)
       /\ someInfo infos k (fun _ => True)
       /\ (forall c, In c (completions merged)
                     <-> someInfo infos k (fun info => In c (completions info)))
       /\ (isList merged = true
           <-> someInfo infos k (fun info => isList info = true)).

End FrontMatterProvider.

(* ================================================================== *)
(** * PeriodInserter *)
(* ================================================================== *)

Module PeriodInserter.

(** The inserter's one field, [canInsert]. *)
Definition t := bool.

Definition allowInsertPeriod (canInsert : t) : t := true.
Definition cancelInsertPeriod (canInsert : t) : t := false.
Definition canInsertPeriod (canInsert : t) : bool := canInsert.

(** [attemptInsert(editor)]: [replaceRange] without a [to] inserts at
    [from]. *)
Definition attemptInsert (canInsert : t) (editor : Editor) : t * Editor :=
  let canInsert1 := cancelInsertPeriod canInsert in
  let cursor := getCursor editor in
  let from := mkPos (line cursor) (ch cursor - 1) in
  (canInsert1, replaceRange editor "." from from).

End PeriodInserter.

(* ================================================================== *)
(** * Vocabulary of the properties of edits *)
(* ================================================================== *)

Module EditTerms.

(** The text holds no line break. *)
Fixpoint noBreak (s : string) : bool :=
  match s with
  | EmptyString => true
  | String c rest => negb (Ascii.eqb c "010"%char) && noBreak rest
  end.

(** A document as the editor keeps it: no line holds a line break. *)
Definition wellSplit (d : Doc) : Prop := Forall (fun l => noBreak l = true) d.

(** The document with the columns [a] to [b] of line [n] replaced by
    [txt]; the other lines are as they were. *)
Definition spliced (d : Doc) (n a b : Z) (txt : string) : Doc :=
  firstn (Z.to_nat n) d
  ++ [(JS.substring (getLine d n) 0 a ++ txt
       ++ JS.substringFrom (getLine d n) b)%string]
  ++ skipn (S (Z.to_nat n)) d.

End EditTerms.

(* ================================================================== *)
(** * provider/latex_provider.ts *)
(* ================================================================== *)

Module LatexProvider.

Import Settings Provider EditorHelpers.

(** [s.indexOf(typed)]: the first index at which [typed] occurs, or -1. *)
Fixpoint indexOfFrom (s typed : string) (i : Z) : Z :=
  if String.prefix typed s then i
  else match s with
       | EmptyString => -1
       | String _ rest => indexOfFrom rest typed (i + 1)
       end.

Definition indexOf (s typed : string) : Z := indexOfFrom s typed 0.

(** [s.includes(typed)] *)
Definition includes (s typed : string) : bool := negb (indexOf s typed =? -1).

(** [repl.replace(/\n/g, "")] *)
Fixpoint removeBreaks (s : string) : string :=
  match s with
  | EmptyString => EmptyString
  | String c rest =>
      if Ascii.eqb c "010"%char then removeBreaks rest
      else String c (removeBreaks rest)
  end.

(** [Array.prototype.sort] with a comparator; the sort is stable. *)
Fixpoint insertWith {A} (cmp : A -> A -> Z) (x : A) (l : list A) : list A :=
  match l with
  | [] => [x]
  | y :: ys => if cmp x y <? 0 then x :: l else y :: insertWith cmp x ys
  end.

Definition sortWith {A} (cmp : A -> A -> Z) (l : list A) : list A :=
  fold_left (fun acc x => insertWith cmp x acc) l [].

(** The objects that [getSuggestions] sorts. *)
Record Item := mkItem {
  i_displayName : string;
  i_replacement : string;
  priority : Z
}.

Section Provider.

Context `{JS.StringRuntime}.

(** The method [getDisplayNameLowerCase] of the [Suggestion] class, whose
    file is not among the sources, and the commands that were loaded. *)
Variable getDisplayNameLowerCase : Suggestion -> bool -> string.
Variable loadedCommands : list Suggestion.

(** [LatexSuggestionProvider.getSuggestions]; a [BlockType] is an object,
    so the test [!latexBlockType] never holds. *)
Definition getSuggestions (context : SuggestionContext)
           (settings : MyAutoCompletionSettings) : list Suggestion :=
  if negb (enableLatexProvider settings) then []
  else if negb (JS.truthy (query context))
          || (JS.len (query context) <? minWordTriggerLength settings)
  then []
  else
    let latexBlockType :=
      getLatexBlockType (doc (editor context)) (start context)
                        (latexTriggerInCodeBlocks settings) in
    let singleLineBlock := BlockType_eqb latexBlockType DOLLAR_SINGLE in
    let ignoreCase := latexIgnoreCase settings in
    let typed := maybeLowerCase (query context) ignoreCase in
    let isSeparatorBackslash := (separatorChar context =? "\")%string in
    let results :=
      map (fun s =>
             let repl := replacement s in
             let repl1 := if isSeparatorBackslash && JS.startsWith repl "\"
                          then JS.substringFrom repl 1 else repl in
             let repl2 := if singleLineBlock then removeBreaks repl1 else repl1 in
             mkItem (displayName s) repl2
                    (indexOf (getDisplayNameLowerCase s ignoreCase) typed))
          (filter (fun cmd =>
                     includes (getDisplayNameLowerCase cmd ignoreCase) typed)
                  loadedCommands) in
    let sorted :=
      sortWith (fun a b =>
                  let d := priority a - priority b in
                  if d =? 0
                  then JS.len (i_displayName a) - JS.len (i_displayName b)
                  else d)
               results in
    map (fun item => mkSuggestion (i_displayName item) (i_replacement item))
        sorted.

End Provider.

End LatexProvider.

(* ================================================================== *)
(** * Vocabulary of the further dictionary properties *)
(* ================================================================== *)

Module DictionaryTerms.

Import Settings Provider Dictionary.

(** The word [w] is in some bucket of the table. *)
Definition inTable (wordMap : WordMap) (w : string) : Prop :=
  exists key bucket, In (key, bucket) wordMap /\ In w bucket.

(** Ascending display-name length. *)
Definition byDisplayLength (a b : Suggestion) : Prop :=
  JS.len (displayName a) <= JS.len (displayName b).

(** Ascending length. *)
Definition byLength (a b : string) : Prop := JS.len a <= JS.len b.

(** A well-formed scanner table: distinct keys, and in the bucket of a
    key only words, each once, that start with the key, are not empty and
    not blacklisted. *)
Definition wellFormed (blacklist : SuggestionBlacklist.t) (wordMap : WordMap)
  : Prop :=
  NoDup (map fst wordMap)
  /\ forall key bucket,
       In (key, bucket) wordMap ->
       bucket <> []
       /\ NoDup bucket
       /\ forall w, In w bucket ->
                    JS.charAt w 0 = key
                    /\ w <> ""
                    /\ SuggestionBlacklist.hasText blacklist w = false.

(** The number of words of a table, bucket by bucket. *)
Definition bucketTotal (wordMap : JSMap.t (list string)) : Z :=
  fold_right (fun '(_, arr) n => Z.of_nat (List.length arr) + n) 0 wordMap.

(** The line was read from one of the files that could be read. *)
Definition readLine (files : list (JS.Outcome string)) (line : string) : Prop :=
  exists data, In (JS.Returns data) files /\ In line (splitNewLines data).

(** The line passes the word list's length guard. *)
Definition longEnough (settings : MyAutoCompletionSettings) (line : string)
  : Prop :=
  line <> ""
  /\ match minWordLength settings with
     | Some n => n <= JS.len line
     | None => True
     end.

(** What holds of the table while the lines are read: distinct keys, and
    every word the trimmed form of a line that passed the guard and was
    filed under the line's own first character. *)
Definition linesKept (settings : MyAutoCompletionSettings) (Q : string -> Prop)
           (m : JSMap.t (list string)) : Prop :=
  NoDup (map fst m)
  /\ forall k arr w,
       In (k, arr) m -> In w arr ->
       exists line, w = JS.trim line /\ JS.charAt line 0 = k
                    /\ longEnough settings line /\ Q line.

End DictionaryTerms.

(* ================================================================== *)
(** * Properties of the provider pipeline *)
(* ================================================================== *)

Module PipelineFacts.

Import Settings Provider Popup.

Section Loop.

Variable settings : MyAutoCompletionSettings.
Variable ctx : SuggestionContext.

Local Abbreviation loop := (providerLoop settings ctx).

(** The suggestions do not depend on what has been logged. *)
Lemma loop_log_irrelevant providers :
  forall all log log',
    fst (loop providers all log) = fst (loop providers all log').
Proof.
  induction providers as [|p rest IH]; intros all log log'; simpl.
  - reflexivity.
  - destruct (enabled p settings); simpl.
    + destruct (Provider.getSuggestions p ctx settings) as [l|e].
      * destruct (0 <? Z.of_nat (List.length l)).
        -- destruct (blocks p); [reflexivity | apply IH].
        -- apply IH.
      * apply IH.
    + apply IH.
Qed.

Lemma loop_step_nothing p rest all log :
  contributesNothing settings ctx p ->
  fst (loop (p :: rest) all log) = fst (loop rest all log).
Proof.
  intros [Hd | [e He]]; simpl.
  - rewrite Hd; simpl. apply loop_log_irrelevant.
  - destruct (enabled p settings); simpl.
    + rewrite He. apply loop_log_irrelevant.
    + apply loop_log_irrelevant.
Qed.

Lemma loop_remove_nothing pre p post :
  contributesNothing settings ctx p ->
  forall all log,
    fst (loop (pre ++ p :: post) all log) = fst (loop (pre ++ post) all log).
Proof.
  intros Hp. induction pre as [|q pre IH]; intros all log.
  - simpl app. apply loop_step_nothing, Hp.
  - simpl.
    destruct (enabled q settings); simpl.
    + destruct (Provider.getSuggestions q ctx settings) as [l|e].
      * destruct (0 <? Z.of_nat (List.length l)).
        -- destruct (blocks q); [reflexivity | apply IH].
        -- apply IH.
      * apply IH.
    + apply IH.
Qed.

(** Past providers that do not fire exclusively, the loop goes on with
    what it has accumulated. *)
Lemma loop_app pre :
  Forall (fun q => firesExclusively settings ctx q = false) pre ->
  forall rest all log,
    loop (pre ++ rest) all log
    = loop rest (fst (loop pre all log)) (snd (loop pre all log)).
Proof.
  induction 1 as [|q pre Hq _ IH]; intros rest all log.
  - reflexivity.
  - simpl. unfold firesExclusively in Hq.
    destruct (enabled q settings); simpl in *.
    + destruct (Provider.getSuggestions q ctx settings) as [l|e].
      * destruct (0 <? Z.of_nat (List.length l)).
        -- destruct (blocks q); [discriminate | apply IH].
        -- apply IH.
      * apply IH.
    + apply IH.
Qed.

Lemma loop_exclusive p post s all log :
  enabled p settings = true ->
  blocks p = true ->
  Provider.getSuggestions p ctx settings = JS.Returns s ->
  s <> [] ->
  loop (p :: post) all log
  = (s, log ++ [LogReturned (name p) (Z.of_nat (List.length s))]).
Proof.
  intros He Hb Hs Hne. simpl. rewrite He, Hs, Hb. simpl.
  destruct s as [|x s']; [contradiction|].
  reflexivity.
Qed.

End Loop.

(** C2.  Let the providers be consulted in their order and let [p] be the
    first one that is enabled, returns a non-empty list [s] and blocks all
    other providers.  Then the composed result is exactly [s], and the
    providers after [p] are not consulted: result and console log are
    those of the list cut after [p].  In particular, for A (not blocking,
    two items), B (blocking, one item) and C (not blocking, three items)
    in this order, the result is B's single item. *)
Theorem exclusive_provider_wins :
  forall settings ctx pre p post s,
    Forall (fun q => firesExclusively settings ctx q = false) pre ->
    enabled p settings = true ->
    blocks p = true ->
    Provider.getSuggestions p ctx settings = JS.Returns s ->
    s <> [] ->
    fst (compose settings ctx (pre ++ p :: post)) = s
    /\ compose settings ctx (pre ++ p :: post) = compose settings ctx (pre ++ [p])
    /\ forall a1 a2 b c1 c2 c3,
         fst (compose settings ctx
                [exampleA a1 a2; exampleB b; exampleC c1 c2 c3]) = [b].
Proof.
  intros settings ctx pre p post s Hpre He Hb Hs Hne.
  unfold compose.
  rewrite (loop_app settings ctx pre Hpre (p :: post)).
  rewrite (loop_app settings ctx pre Hpre [p]).
  rewrite !(loop_exclusive settings ctx p _ s) by assumption.
  repeat split; reflexivity.
Qed.

(** The example list itself is an instance of the theorem: A comes
    before B and does not fire exclusively. *)
Lemma exclusive_provider_wins_witness :
  fst (compose DEFAULT_SETTINGS
         (mkContext (mkEditor [""] (mkPos 0 0, mkPos 0 0) []) None
                    (mkPos 0 0) (mkPos 0 0) "ab" "")
         ([exampleA (fromString "a1") (fromString "a2")]
            ++ exampleB (fromString "b")
            :: [exampleC (fromString "c1") (fromString "c2") (fromString "c3")]))
  = [fromString "b"].
Proof.
  apply (exclusive_provider_wins DEFAULT_SETTINGS _
           [exampleA (fromString "a1") (fromString "a2")]
           (exampleB (fromString "b"))
           [exampleC (fromString "c1") (fromString "c2") (fromString "c3")]
           [fromString "b"]).
  - repeat constructor.
  - reflexivity.
  - reflexivity.
  - reflexivity.
  - discriminate.
Defined.

(** C6.  A provider whose [getSuggestions] throws contributes nothing
    and the loop goes on: consulted after any accumulated suggestions, it
    leaves them as they are and hands over to the remaining providers,
    only an error line is logged; and the composed suggestions of a list
    are those of the list without the throwing provider. *)
Theorem provider_failure_is_isolated :
  forall settings ctx pre p post e,
    Provider.getSuggestions p ctx settings = JS.Throws e ->
    (forall all log,
        enabled p settings = true ->
        providerLoop settings ctx (p :: post) all log
        = providerLoop settings ctx post all (log ++ [LogError (name p) e]))
    /\ fst (compose settings ctx (pre ++ p :: post))
       = fst (compose settings ctx (pre ++ post)).
Proof.
  intros settings ctx pre p post e He. split.
  - intros all log Hen. simpl. rewrite Hen, He. reflexivity.
  - unfold compose. apply loop_remove_nothing. right. exists e. exact He.
Qed.

Lemma provider_failure_is_isolated_witness :
  fst (compose DEFAULT_SETTINGS
         (mkContext (mkEditor [""] (mkPos 0 0, mkPos 0 0) []) None
                    (mkPos 0 0) (mkPos 0 0) "ab" "")
         ([exampleA (fromString "a1") (fromString "a2")]
            ++ throwing
            :: [exampleC (fromString "c1") (fromString "c2") (fromString "c3")]))
  = map fromString ["a1"; "a2"; "c1"; "c2"; "c3"].
Proof.
  rewrite (proj2 (provider_failure_is_isolated DEFAULT_SETTINGS _
                    [exampleA (fromString "a1") (fromString "a2")] throwing
                    [exampleC (fromString "c1") (fromString "c2") (fromString "c3")]
                    "boom" eq_refl)).
  reflexivity.
Defined.

Lemma fst_let_pair {A B C} (x : A * B) (f : A -> B -> C) :
  fst (let '(a, l) := x in (a, f a l)) = fst x.
Proof. destruct x; reflexivity. Qed.

(** C10.  A provider object without an [isEnabled] method is skipped
    whatever its other members are: the composed suggestions are those of
    the list without it.  The Latex, Callout and FrontMatter providers
    define no [isEnabled], so whatever their [getSuggestions] would
    return, [SuggestionPopup.getSuggestions] yields what the file scanner
    and the word list alone yield, for every context and settings. *)
Theorem providers_without_isEnabled_are_skipped :
  (forall settings ctx pre post name blocksAll body,
      fst (compose settings ctx
             (pre ++ mkProvider name None blocksAll body :: post))
      = fst (compose settings ctx (pre ++ post)))
  /\ (forall (R : JS.StringRuntime) settings charPredicate scannerWords
             wordListWords latex callout frontMatter context,
         fst (Popup.getSuggestions settings charPredicate scannerWords
                wordListWords latex callout frontMatter context)
         = fst (providerLoop settings
                  (mkContext (sc_editor context) (sc_file context)
                     (sc_start context) (sc_end context)
                     (fst (EditorHelpers.matchWordBackwards (sc_editor context)
                             (getCursor (sc_editor context)) charPredicate
                             (maxLookBackDistance settings)))
                     (match snd (EditorHelpers.matchWordBackwards
                                   (sc_editor context)
                                   (getCursor (sc_editor context)) charPredicate
                                   (maxLookBackDistance settings)) with
                      | Some ch => ch
                      | None => ""
                      end))
                  [FileScanner scannerWords; WordList wordListWords] [] [])).
Proof.
  split.
  - intros. unfold compose. apply loop_remove_nothing. left. reflexivity.
  - intros. unfold Popup.getSuggestions.
    destruct (EditorHelpers.matchWordBackwards _ _ _ _) as [q sep].
    cbn [fst snd].
    set (c := mkContext _ _ _ _ _ _).
    rewrite fst_let_pair.
    rewrite (loop_log_irrelevant settings c _ [] _ []).
    change [FileScanner scannerWords; WordList wordListWords;
            Latex latex; Callout callout; FrontMatter frontMatter]
      with ([FileScanner scannerWords; WordList wordListWords]
              ++ Latex latex :: [Callout callout; FrontMatter frontMatter]).
    rewrite loop_remove_nothing by (left; reflexivity).
    change ([FileScanner scannerWords; WordList wordListWords]
              ++ [Callout callout; FrontMatter frontMatter])
      with ([FileScanner scannerWords; WordList wordListWords]
              ++ Callout callout :: [FrontMatter frontMatter]).
    rewrite loop_remove_nothing by (left; reflexivity).
    change ([FileScanner scannerWords; WordList wordListWords]
              ++ [FrontMatter frontMatter])
      with ([FileScanner scannerWords; WordList wordListWords]
              ++ FrontMatter frontMatter :: []).
    rewrite loop_remove_nothing by (left; reflexivity).
    reflexivity.
Qed.

End PipelineFacts.

(* ================================================================== *)
(** * Properties of the block scanner *)
(* ================================================================== *)

Module ScannerFacts.

Import EditorHelpers ScannerTerms.

Lemma BlockType_eqb_eq a b : BlockType_eqb a b = true <-> a = b.
Proof. destruct a, b; simpl; split; intro H; try reflexivity; discriminate. Qed.

(** ** One step of the character loop *)

Lemma find_single ch :
  find (fun b => (JS.charAt (c b) 0 =? ch)%string) SINGLE_TYPES
  = if ("$" =? ch)%string then Some DOLLAR_SINGLE
    else if ("`" =? ch)%string then Some CODE_SINGLE
         else None.
Proof. reflexivity. Qed.

Lemma scanChar_plain text li j :
  plainAt text j -> scanChar text li j = (None, j).
Proof.
  intros [Hd Hc]. unfold scanChar. rewrite find_single.
  destruct (String.eqb_spec "$" (JS.charAt text j)) as [E|_];
    [symmetry in E; contradiction|].
  destruct (String.eqb_spec "`" (JS.charAt text j)) as [E|_];
    [symmetry in E; contradiction|].
  reflexivity.
Qed.

(** The body never moves [j] forward, and what it pushes carries the
    line it was called for. *)
Lemma scanChar_spec text li j pushed j' :
  scanChar text li j = (pushed, j') ->
  j' <= j /\ (forall e, pushed = Some e -> eline e = li).
Proof.
  unfold scanChar. rewrite find_single.
  destruct (_ =? _)%string.
  - destruct (_ && _); [intros [= <- <-]; split; [lia|discriminate]|].
    cbn [otherType c]. change (JS.len "$$") with 2.
    destruct (_ && _); intros [= <- <-]; split; try lia;
      intros e [= <-]; reflexivity.
  - destruct (_ =? _)%string.
    + destruct (_ && _); [intros [= <- <-]; split; [lia|discriminate]|].
      cbn [otherType c]. change (JS.len "```") with 3.
      destruct (_ && _); intros [= <- <-]; split; try lia;
        intros e [= <-]; reflexivity.
    + intros [= <- <-]; split; [lia|discriminate].
Qed.

(** ** The character loop *)

Lemma scanLoopAt_acc fuel text li :
  forall j acc,
    scanLoopAt fuel text li j acc = acc ++ scanLoopAt fuel text li j [].
Proof.
  induction fuel as [|fuel IH]; intros j acc; simpl.
  - now rewrite app_nil_r.
  - destruct (j <? 0); [now rewrite app_nil_r|].
    destruct (scanChar text li j) as [[e|] j'].
    + rewrite (IH _ (acc ++ [(e, j)])), (IH _ ([] ++ [(e, j)])).
      now rewrite <- app_assoc.
    + apply IH.
Qed.

(** Forgetting the columns gives the scan of the source. *)
Lemma scanLoopAt_erase fuel text li :
  forall j acc,
    map fst (scanLoopAt fuel text li j acc)
    = scanLoop fuel text li j (map fst acc).
Proof.
  induction fuel as [|fuel IH]; intros j acc; simpl.
  - reflexivity.
  - destruct (j <? 0); [reflexivity|].
    destruct (scanChar text li j) as [[e|] j'].
    + rewrite IH, map_app. reflexivity.
    + apply IH.
Qed.

(** The fuel the scan is given is enough: with [j + 1] steps or more the
    loop always ends because [j] has dropped below zero. *)
Lemma scanLoop_fuel text li :
  forall fuel1 fuel2 j acc,
    (Z.to_nat (j + 1) <= fuel1)%nat ->
    (Z.to_nat (j + 1) <= fuel2)%nat ->
    scanLoop fuel1 text li j acc = scanLoop fuel2 text li j acc.
Proof.
  induction fuel1 as [|fuel1 IH]; intros fuel2 j acc H1 H2.
  - destruct fuel2 as [|fuel2]; [reflexivity|]. simpl.
    destruct (Z.ltb_spec j 0); [reflexivity|lia].
  - destruct fuel2 as [|fuel2]; simpl.
    + destruct (Z.ltb_spec j 0); [reflexivity|lia].
    + destruct (Z.ltb_spec j 0); [reflexivity|].
      destruct (scanChar text li j) as [pushed j'] eqn:E.
      apply scanChar_spec in E. destruct E as [Hle _].
      apply IH; lia.
Qed.

(** Over plain characters nothing is pushed. *)
Lemma scanLoop_plain fuel text li :
  forall j acc,
    (forall k, 0 <= k <= j -> plainAt text k) ->
    scanLoop fuel text li j acc = acc.
Proof.
  induction fuel as [|fuel IH]; intros j acc Hp; simpl.
  - reflexivity.
  - destruct (Z.ltb_spec j 0); [reflexivity|].
    rewrite scanChar_plain by (apply Hp; lia).
    apply IH. intros k Hk. apply Hp. lia.
Qed.

(** The tokens of one line come with their line number and in strictly
    decreasing columns, none beyond the start column. *)
Lemma scanLoopAt_sorted fuel text li :
  forall j,
    Forall (fun x => snd x <= j /\ eline (fst x) = li)
           (scanLoopAt fuel text li j [])
    /\ StronglySorted (fun a b => snd b < snd a) (scanLoopAt fuel text li j []).
Proof.
  induction fuel as [|fuel IH]; intros j; simpl.
  - split; constructor.
  - destruct (j <? 0); [split; constructor|].
    destruct (scanChar text li j) as [pushed j'] eqn:E.
    apply scanChar_spec in E. destruct E as [Hle Hline].
    destruct (IH (j' - 1)) as [Hall Hsorted].
    destruct pushed as [e|].
    + rewrite scanLoopAt_acc. simpl. split.
      * constructor; [split; [simpl; lia | simpl; auto] |].
        eapply Forall_impl; [|exact Hall]. simpl. intros x [? ?]. split; [lia|auto].
      * constructor; [exact Hsorted|].
        eapply Forall_impl; [|exact Hall]. simpl. intros x [? ?]. lia.
    + split; [|exact Hsorted].
      eapply Forall_impl; [|exact Hall]. simpl. intros x [? ?]. split; [lia|auto].
Qed.

(** ** The line loop *)

Lemma StronglySorted_app {A} (R : A -> A -> Prop) l1 l2 :
  StronglySorted R l1 -> StronglySorted R l2 ->
  (forall x y, In x l1 -> In y l2 -> R x y) ->
  StronglySorted R (l1 ++ l2).
Proof.
  induction 1 as [|x l1 Hs IH Hx]; intros H2 Hc; simpl.
  - exact H2.
  - constructor.
    + apply IH; [exact H2|]. intros a b Ha Hb. apply Hc; [now right|exact Hb].
    + apply Forall_app. split; [exact Hx|].
      apply Forall_forall. intros b Hb. apply Hc; [now left|exact Hb].
Qed.

Lemma scanLineAt_erase d fm pos li acc :
  map fst (scanLineAt d fm pos li acc) = scanLine d fm pos li (map fst acc).
Proof.
  unfold scanLineAt, scanLine.
  destruct (_ && _); [reflexivity|]. apply scanLoopAt_erase.
Qed.

Lemma fold_scanLineAt_erase d fm pos rows :
  forall acc,
    map fst (fold_left (fun stack li => scanLineAt d fm pos li stack) rows acc)
    = fold_left (fun stack li => scanLine d fm pos li stack) rows (map fst acc).
Proof.
  induction rows as [|li rows IH]; intros acc; simpl.
  - reflexivity.
  - rewrite IH, scanLineAt_erase. reflexivity.
Qed.

Lemma collectTokensAt_erase d pos :
  map fst (collectTokensAt d pos) = collectTokens d pos.
Proof. unfold collectTokensAt, collectTokens. apply fold_scanLineAt_erase. Qed.

(** What one line adds: tokens of that line, in decreasing columns. *)
Lemma scanLineAt_spec d fm pos li acc :
  exists new,
    scanLineAt d fm pos li acc = acc ++ new
    /\ Forall (fun x => eline (fst x) = li) new
    /\ StronglySorted (fun a b => snd b < snd a) new.
Proof.
  unfold scanLineAt.
  destruct (_ && _).
  - exists []. rewrite app_nil_r. repeat split; constructor.
  - rewrite scanLoopAt_acc.
    match goal with
    | |- context [scanLoopAt ?f ?t li ?j []] =>
        exists (scanLoopAt f t li j []);
        destruct (scanLoopAt_sorted f t li j) as [Hall Hs]
    end.
    repeat split; [|exact Hs].
    eapply Forall_impl; [|exact Hall]. simpl. intros x [_ ?]. assumption.
Qed.

Lemma same_line_sorted new li :
  Forall (fun x : StackEntry * Z => eline (fst x) = li) new ->
  StronglySorted (fun a b : StackEntry * Z => snd b < snd a) new ->
  StronglySorted pushedBefore new.
Proof.
  intros Hline Hcols.
  induction Hcols as [|x new Hc IHc Hx]; constructor.
  - apply IHc. exact (Forall_inv_tail Hline).
  - pose proof (Forall_inv Hline) as Hxl.
    pose proof (Forall_inv_tail Hline) as Hnl.
    rewrite Forall_forall in Hx, Hnl |- *. intros y Hy.
    right. split; [rewrite Hxl, (Hnl y Hy); reflexivity | apply Hx, Hy].
Qed.

(** The invariant of the line loop: the stack is ordered by [pushedBefore]
    and holds lines of the window already passed only. *)
Lemma fold_scanLineAt_sorted d fm pos n :
  forall lo lo0 acc,
    lo0 <= lo ->
    StronglySorted pushedBefore acc ->
    Forall (fun x => lo0 <= eline (fst x) < lo) acc ->
    let r := fold_left (fun stack li => scanLineAt d fm pos li stack)
                       (JS.range lo n) acc in
    StronglySorted pushedBefore r
    /\ Forall (fun x => lo0 <= eline (fst x) < lo + Z.of_nat n) r.
Proof.
  induction n as [|n IH]; intros lo lo0 acc Hlo Hs Hall; cbn [JS.range fold_left].
  - split; [exact Hs|].
    eapply Forall_impl; [|exact Hall]. simpl. intros x ?. lia.
  - destruct (scanLineAt_spec d fm pos lo acc) as (new & E & Hline & Hcols).
    rewrite E.
    destruct (IH (lo + 1) lo0 (acc ++ new)) as [Hs' Hall'].
    + lia.
    + apply StronglySorted_app.
      * exact Hs.
      * apply same_line_sorted with lo; assumption.
      * intros x y Hx Hy. left.
        rewrite Forall_forall in Hall, Hline.
        specialize (Hall x Hx). rewrite (Hline y Hy). lia.
    + apply Forall_app. split.
      * eapply Forall_impl; [|exact Hall]. simpl. intros x ?. lia.
      * eapply Forall_impl; [|exact Hline]. simpl. intros x ->. lia.
    + split; [exact Hs'|].
      eapply Forall_impl; [|exact Hall']. simpl. intros x ?. lia.
Qed.

Lemma collectTokensAt_sorted d pos :
  StronglySorted pushedBefore (collectTokensAt d pos)
  /\ Forall (fun x => Z.max 0 (line pos - 5000) <= eline (fst x) <= line pos)
            (collectTokensAt d pos).
Proof.
  unfold collectTokensAt.
  set (start := Z.max 0 (line pos - 5000)).
  set (fm := match getFrontMatterBounds d with Some b => b | None => _ end).
  destruct (fold_scanLineAt_sorted d fm pos
              (Z.to_nat (line pos - start + 1)) start start [])
    as [Hs Hall]; [lia | constructor | constructor |].
  split; [exact Hs|].
  eapply Forall_impl; [|exact Hall]. simpl. intros x ?. lia.
Qed.


(** ** What the body of the character loop recognises *)

Lemma get_Some_lt s : forall n ch, String.get n s = Some ch -> (n < String.length s)%nat.
Proof.
  induction s as [|a s IH]; intros [|n] ch0 H; simpl in *; try discriminate.
  - lia.
  - apply IH in H. lia.
Qed.

Lemma charAt_in_range s i ch0 :
  JS.charAt s i = String ch0 "" -> 0 <= i < JS.len s.
Proof.
  unfold JS.charAt, JS.len.
  destruct (Z.ltb_spec i 0); [discriminate|].
  destruct (String.get (Z.to_nat i) s) eqn:E; [|discriminate].
  intros _. apply get_Some_lt in E. lia.
Qed.

Lemma delimiterAt_in_range text k : delimiterAt text k -> 0 <= k < JS.len text.
Proof. intros [H|H]; exact (charAt_in_range _ _ _ H). Qed.

Lemma plain_or_delimiter text k : plainAt text k -> delimiterAt text k -> False.
Proof. intros [H1 H2] [H|H]; contradiction. Qed.

Lemma len_c_pos ty : ty <> NONE -> 1 <= JS.len (c ty).
Proof. destruct ty; intros H; try (cbv; discriminate). now contradiction H. Qed.

(** A one-character delimiter ends at [j] when it is the character at
    [j]; a wide one when the characters up to [j] are all its own. *)
Lemma endsAt_one text ty j :
  isMultiLine ty = false -> ty <> NONE ->
  endsAt text ty j = true <-> JS.charAt text j = c ty.
Proof.
  intros Hs Hn.
  assert (G : forall dl,
             ((1 <=? j + 1)
              && substringMatches text (String dl "") (j - 1 + 1) = true)
             <-> JS.charAt text j = String dl "").
  { intros dl. unfold substringMatches. change (JS.len (String dl "")) with 1.
    cbn [String.length JS.range forallb].
    replace (j - 1 + 1 - (j - 1 + 1)) with 0 by lia.
    replace (j - 1 + 1) with j by lia.
    change (JS.charAt (String dl "") 0) with (String dl "").
    rewrite andb_true_r. split.
    - intros H. apply andb_true_iff in H. destruct H as [_ H].
      destruct (JS.len text <? j + 1); [discriminate|].
      now apply String.eqb_eq in H.
    - intros H. pose proof (charAt_in_range _ _ _ H) as Hr.
      destruct (Z.leb_spec 1 (j + 1)); [|lia].
      destruct (Z.ltb_spec (JS.len text) (j + 1)); [lia|].
      rewrite H. apply String.eqb_refl. }
  destruct ty; try discriminate; try (now contradiction Hn); apply G.
Qed.

Lemma endsAt_wide_dollar text j :
  endsAt text DOLLAR_MULTI j = true
  <-> JS.charAt text (j - 1) = "$" /\ JS.charAt text j = "$".
Proof.
  unfold endsAt, substringMatches. cbn [c]. change (JS.len "$$") with 2.
  cbn [String.length JS.range forallb].
  replace (j - 2 + 1 - (j - 2 + 1)) with 0 by lia.
  replace (j - 2 + 1 + 1 - (j - 2 + 1)) with 1 by lia.
  replace (j - 2 + 1 + 1) with j by lia.
  replace (j - 2 + 1) with (j - 1) by lia.
  change (JS.charAt "$$" 0) with "$". change (JS.charAt "$$" 1) with "$".
  rewrite andb_true_r. split.
  - intros H. apply andb_true_iff in H. destruct H as [_ H].
    destruct (JS.len text <? j - 1 + 2); [discriminate|].
    apply andb_true_iff in H. destruct H as [H1 H2].
    apply String.eqb_eq in H1, H2. now split.
  - intros [H1 H2].
    pose proof (charAt_in_range _ _ _ H1). pose proof (charAt_in_range _ _ _ H2).
    destruct (Z.leb_spec 2 (j + 1)); [|lia].
    destruct (Z.ltb_spec (JS.len text) (j - 1 + 2)); [lia|].
    rewrite H1, H2. reflexivity.
Qed.

Lemma endsAt_wide_code text j :
  endsAt text CODE_MULTI j = true
  <-> JS.charAt text (j - 2) = "`" /\ JS.charAt text (j - 1) = "`"
      /\ JS.charAt text j = "`".
Proof.
  unfold endsAt, substringMatches. cbn [c]. change (JS.len "```") with 3.
  cbn [String.length JS.range forallb].
  replace (j - 3 + 1 - (j - 3 + 1)) with 0 by lia.
  replace (j - 3 + 1 + 1 - (j - 3 + 1)) with 1 by lia.
  replace (j - 3 + 1 + 1 + 1 - (j - 3 + 1)) with 2 by lia.
  replace (j - 3 + 1 + 1 + 1) with j by lia.
  replace (j - 3 + 1 + 1) with (j - 1) by lia.
  replace (j - 3 + 1) with (j - 2) by lia.
  change (JS.charAt "```" 0) with "`". change (JS.charAt "```" 1) with "`".
  change (JS.charAt "```" 2) with "`".
  rewrite andb_true_r. split.
  - intros H. apply andb_true_iff in H. destruct H as [_ H].
    destruct (JS.len text <? j - 2 + 3); [discriminate|].
    apply andb_true_iff in H. destruct H as [H1 H].
    apply andb_true_iff in H. destruct H as [H2 H3].
    apply String.eqb_eq in H1, H2, H3. now repeat split.
  - intros (H1 & H2 & H3).
    pose proof (charAt_in_range _ _ _ H1). pose proof (charAt_in_range _ _ _ H3).
    destruct (Z.leb_spec 3 (j + 1)); [|lia].
    destruct (Z.ltb_spec (JS.len text) (j - 2 + 3)); [lia|].
    rewrite H1, H2, H3. reflexivity.
Qed.

(** The body of the character loop at [j]: either it pushes nothing and
    leaves [j], because the character is no delimiter or the escape test
    fires; or it pushes the token that is to be recognised at [j] and
    moves [j] to the token's first column. *)
Lemma scanChar_cases text li j :
  (scanChar text li j = (None, j)
   /\ (plainAt text j \/ (delimiterAt text j /\ escapedAt text j = true)))
  \/ exists ty,
       scanChar text li j = (Some (mkEntry ty li), j - JS.len (c ty) + 1)
       /\ recognised text j ty.
Proof.
  assert (G : forall single wide,
             JS.charAt text j = c single ->
             isMultiLine single = false -> single <> NONE -> wide <> NONE ->
             otherType single = Some wide ->
             scanChar text li j
             = (if escapedAt text j then (None, j)
                else if endsAt text wide j
                     then (Some (mkEntry wide li), j - (JS.len (c wide) - 1))
                     else (Some (mkEntry single li), j)) ->
             delimiterAt text j ->
             (scanChar text li j = (None, j)
              /\ (plainAt text j \/ (delimiterAt text j /\ escapedAt text j = true)))
             \/ exists ty,
                 scanChar text li j
                 = (Some (mkEntry ty li), j - JS.len (c ty) + 1)
                 /\ recognised text j ty).
  { intros single wide Hc Hs Hn Hw Ho E Hd. rewrite E.
    destruct (escapedAt text j) eqn:Eb.
    - left. split; [reflexivity|]. right. now split.
    - right. destruct (endsAt text wide j) eqn:Em.
      + exists wide. split; [f_equal; lia|].
        split; [exact Hw|]. split; [exact Em|].
        destruct single; try discriminate; try (now contradiction Hn);
          injection Ho as <-; discriminate.
      + exists single. split.
        * f_equal. destruct single; try discriminate; try (now contradiction Hn);
            cbn [c]; cbv [JS.len String.length]; lia.
        * split; [exact Hn|]. split; [now apply endsAt_one|].
          intros _. split; [exact Eb|].
          intros o Ho'. rewrite Ho in Ho'. now injection Ho' as <-. }
  destruct (String.eqb_spec "$" (JS.charAt text j)) as [Ed|Nd].
  - apply (G DOLLAR_SINGLE DOLLAR_MULTI); try reflexivity; try discriminate.
    + now symmetry.
    + unfold scanChar. rewrite find_single, <- Ed. reflexivity.
    + left. now symmetry.
  - destruct (String.eqb_spec "`" (JS.charAt text j)) as [Ec|Nc].
    + apply (G CODE_SINGLE CODE_MULTI); try reflexivity; try discriminate.
      * now symmetry.
      * unfold scanChar. rewrite find_single, <- Ec. reflexivity.
      * right. now symmetry.
    + left. split.
      * apply scanChar_plain. split; intros H; symmetry in H; contradiction.
      * left. split; intros H; symmetry in H; contradiction.
Qed.


(** What the character loop, started at [j], pushes for one line: every
    token is to be recognised where it stands, the tokens do not
    overlap, and every delimiter character from [j] down to 0 on which
    the escape test does not fire lies in one of them. *)
Lemma scanLoopAt_tokens fuel text li :
  forall j,
    (Z.to_nat (j + 1) <= fuel)%nat ->
    Forall (fun x => 0 <= snd x <= j
                     /\ eline (fst x) = li
                     /\ recognised text (snd x) (type (fst x)))
           (scanLoopAt fuel text li j [])
    /\ StronglySorted (fun a b => snd b < firstCol a)
                      (scanLoopAt fuel text li j [])
    /\ forall k,
         0 <= k <= j -> delimiterAt text k ->
         escapedAt text k = true
         \/ exists x, In x (scanLoopAt fuel text li j [])
                      /\ firstCol x <= k <= snd x.
Proof.
  induction fuel as [|fuel IH]; intros j Hf.
  - simpl. split; [constructor|]. split; [constructor|]. intros k Hk. lia.
  - cbn [scanLoopAt]. destruct (Z.ltb_spec j 0) as [Hneg|Hpos].
    { split; [constructor|]. split; [constructor|]. intros k Hk. lia. }
    destruct (scanChar_cases text li j) as [[E Hc] | (ty & E & Hrec)]; rewrite E.
    + destruct (IH (j - 1)) as (Hs & Ha & Hcov); [lia|].
      split; [|split; [exact Ha|]].
      * eapply Forall_impl; [|exact Hs]. simpl. intros x (Hx & Hr).
        split; [lia|exact Hr].
      * intros k Hk Hd. destruct (Z.eq_dec k j) as [->|Hne].
        -- destruct Hc as [Hp|[_ He]]; [|now left].
           exfalso. eapply plain_or_delimiter; eassumption.
        -- apply Hcov; [lia|exact Hd].
    + pose proof (len_c_pos ty (proj1 Hrec)) as Hlen.
      destruct (IH (j - JS.len (c ty) + 1 - 1)) as (Hs & Ha & Hcov); [lia|].
      rewrite scanLoopAt_acc. cbn [app].
      split; [|split].
      * constructor;
          [cbn [fst snd eline type];
           split; [lia|split; [reflexivity|exact Hrec]]|].
        eapply Forall_impl; [|exact Hs]. simpl. intros x (Hx & Hr).
        split; [lia|exact Hr].
      * constructor; [exact Ha|].
        eapply Forall_impl; [|exact Hs]. intros x (Hx & _).
        unfold firstCol. cbn [fst snd type]. lia.
      * intros k Hk Hd.
        destruct (Z.le_gt_cases (j - JS.len (c ty) + 1) k) as [Hin|Hout].
        -- right. eexists. split; [now left|].
           unfold firstCol. cbn [fst snd type]. lia.
        -- destruct (Hcov k) as [He|(x & Hx & Hk')]; [lia|exact Hd|now left|].
           right. exists x. split; [now right|exact Hk'].
Qed.

(** ** What the line loop gathers *)

Lemma scanLineAt_acc d fm pos li acc :
  scanLineAt d fm pos li acc = acc ++ scanLineAt d fm pos li [].
Proof.
  unfold scanLineAt. destruct (_ && _); [now rewrite app_nil_r|].
  apply scanLoopAt_acc.
Qed.

Lemma fold_scanLineAt_flat d fm pos rows :
  forall acc,
    fold_left (fun stack li => scanLineAt d fm pos li stack) rows acc
    = acc ++ flat_map (fun li => scanLineAt d fm pos li []) rows.
Proof.
  induction rows as [|li rows IH]; intros acc; simpl.
  - now rewrite app_nil_r.
  - rewrite IH, scanLineAt_acc, <- app_assoc. reflexivity.
Qed.

(** The stack with its columns is the tokens of the scanned lines, one
    line after the other. *)
Lemma collectTokensAt_flat d pos :
  collectTokensAt d pos
  = flat_map (fun li => scanLineAt d (frontMatterOf d) pos li [])
             (JS.range (Z.max 0 (line pos - 5000))
                       (Z.to_nat (line pos - Z.max 0 (line pos - 5000) + 1))).
Proof. unfold collectTokensAt. now rewrite fold_scanLineAt_flat. Qed.

Lemma In_range lo n :
  forall x, In x (JS.range lo n) <-> lo <= x < lo + Z.of_nat n.
Proof.
  revert lo. induction n as [|n IH]; intros lo x; cbn [JS.range In].
  - lia.
  - rewrite IH. lia.
Qed.

(** The tokens of one scanned line. *)
Lemma lineTokens_spec d pos li :
  Z.max 0 (line pos - 5000) <= li <= line pos ->
  Forall (fun x => realToken d pos x /\ eline (fst x) = li)
         (scanLineAt d (frontMatterOf d) pos li [])
  /\ StronglySorted (fun a b => snd b < firstCol a)
                    (scanLineAt d (frontMatterOf d) pos li [])
  /\ forall k,
       scannedAt d pos li k -> delimiterAt (getLine d li) k ->
       escapedAt (getLine d li) k = true
       \/ exists x, In x (scanLineAt d (frontMatterOf d) pos li [])
                    /\ firstCol x <= k <= snd x.
Proof.
  intros Hli. unfold scanLineAt. fold (skipped d li).
  destruct (skipped d li) eqn:Hs.
  - split; [constructor|]. split; [constructor|].
    intros k (_ & Hk & _). congruence.
  - set (j0 := if li =? line pos then ch pos - 1
               else JS.len (getLine d li) - 1).
    destruct (scanLoopAt_tokens (Z.to_nat (j0 + 1)) (getLine d li) li j0)
      as (Hsound & Ha & Hcov); [lia|].
    split; [|split; [exact Ha|]].
    + eapply Forall_impl; [|exact Hsound]. intros [e j]. cbn [fst snd].
      intros ((Hj0 & Hj) & Hl & Hrec). subst li.
      split; [|reflexivity].
      split; [|split; [exact Hj0 | exact Hrec]].
      split; [exact Hli|]. split; [exact Hs|].
      cbn [fst snd]. intros Heq. subst j0. rewrite Heq, Z.eqb_refl in Hj. lia.
    + intros k (_ & _ & Hcur) Hd.
      pose proof (delimiterAt_in_range _ _ Hd) as Hr.
      apply Hcov; [|exact Hd]. subst j0.
      destruct (Z.eqb_spec li (line pos)) as [Heq|]; [specialize (Hcur Heq)|]; lia.
Qed.

Lemma In_collectTokensAt d pos x :
  In x (collectTokensAt d pos)
  <-> exists li,
        Z.max 0 (line pos - 5000) <= li <= line pos
        /\ In x (scanLineAt d (frontMatterOf d) pos li []).
Proof.
  rewrite collectTokensAt_flat, in_flat_map.
  split; intros (li & Hli & Hx); exists li; (split; [|exact Hx]).
  - apply In_range in Hli. lia.
  - apply In_range. lia.
Qed.

(** Every token on the stack is a real delimiter. *)
Lemma collectTokensAt_sound d pos :
  Forall (realToken d pos) (collectTokensAt d pos).
Proof.
  apply Forall_forall. intros x Hx.
  apply In_collectTokensAt in Hx. destruct Hx as (li & Hli & Hx).
  destruct (lineTokens_spec d pos li Hli) as (Hs & _ & _).
  rewrite Forall_forall in Hs. now apply Hs.
Qed.

(** Every delimiter character that the scan looks at and on which the
    escape test does not fire lies in a token of the stack. *)
Lemma collectTokensAt_covers d pos i k :
  scannedAt d pos i k -> delimiterAt (getLine d i) k ->
  escapedAt (getLine d i) k = true
  \/ exists x, In x (collectTokensAt d pos)
               /\ eline (fst x) = i /\ firstCol x <= k <= snd x.
Proof.
  intros Hsc Hd.
  assert (Hli : Z.max 0 (line pos - 5000) <= i <= line pos) by apply Hsc.
  destruct (lineTokens_spec d pos i Hli) as (Hs & _ & Hcov).
  destruct (Hcov k Hsc Hd) as [He|(x & Hx & Hk)]; [now left|].
  right. exists x. split; [|split; [|exact Hk]].
  - apply In_collectTokensAt. now exists i.
  - rewrite Forall_forall in Hs. now apply Hs.
Qed.




(** ** The pairing loop ends *)

Lemma findIndexFrom_gt stack ty idx :
  forall i n, findIndexFrom stack i idx ty = Some n ->
              idx < n /\ i <= n < i + Z.of_nat (List.length stack).
Proof.
  induction stack as [|x stack IH]; intros i n; simpl; [discriminate|].
  destruct (Z.ltb_spec idx i) as [Hlt|Hge]; simpl.
  - destruct (BlockType_eqb (type x) ty).
    + intros [= <-]. lia.
    + intros Hf. apply IH in Hf. lia.
  - intros Hf. apply IH in Hf. lia.
Qed.

(** Every iteration moves [idx] forward, so [length stack - idx + 1]
    iterations or more give the answer of the unbounded loop. *)
Lemma pairingLoop_fuel stack pos t :
  forall fuel1 fuel2 idx,
    0 <= idx ->
    (Z.to_nat (Z.of_nat (List.length stack) - idx) < fuel1)%nat ->
    (Z.to_nat (Z.of_nat (List.length stack) - idx) < fuel2)%nat ->
    pairingLoop fuel1 stack pos t idx = pairingLoop fuel2 stack pos t idx.
Proof.
  induction fuel1 as [|fuel1 IH]; intros fuel2 idx Hidx H1 H2; [lia|].
  destruct fuel2 as [|fuel2]; [lia|]. simpl.
  destruct (Z.leb_spec (Z.of_nat (List.length stack)) idx); [reflexivity|].
  destruct (findIndex stack idx (type (stackAt stack idx))) as [n|] eqn:E.
  - apply findIndexFrom_gt in E. apply IH; lia.
  - destruct (negb t && isCodeBlock (type (stackAt stack idx))); [reflexivity|].
    destruct (isCodeBlock (type (stackAt stack idx))); [reflexivity|].
    destruct (_ && _); [|reflexivity].
    apply IH; lia.
Qed.

(** ** The pairing pass on a stack with something in front *)

Lemma findIndexFrom_past pre stack ty :
  forall i idx,
    i + Z.of_nat (List.length pre) - 1 <= idx ->
    findIndexFrom (pre ++ stack) i idx ty
    = findIndexFrom stack (i + Z.of_nat (List.length pre)) idx ty.
Proof.
  induction pre as [|x pre IH]; intros i idx H; simpl.
  - f_equal. lia.
  - simpl List.length in H.
    destruct (Z.ltb_spec idx i); [lia|]. simpl.
    rewrite IH by lia. f_equal. lia.
Qed.

Lemma findIndexFrom_shift stack ty k :
  forall i idx,
    findIndexFrom stack (i + k) (idx + k) ty
    = option_map (Z.add k) (findIndexFrom stack i idx ty).
Proof.
  induction stack as [|x stack IH]; intros i idx; simpl; [reflexivity|].
  replace (idx + k <? i + k) with (idx <? i)
    by (destruct (Z.ltb_spec idx i), (Z.ltb_spec (idx + k) (i + k)); lia).
  destruct ((idx <? i) && BlockType_eqb (type x) ty).
  - simpl. f_equal. lia.
  - replace (i + k + 1) with (i + 1 + k) by lia. apply IH.
Qed.

Lemma pairingLoop_past pre stack pos t :
  forall fuel idx,
    0 <= idx ->
    pairingLoop fuel (pre ++ stack) pos t (Z.of_nat (List.length pre) + idx)
    = pairingLoop fuel stack pos t idx.
Proof.
  induction fuel as [|fuel IH]; intros idx Hidx; simpl; [reflexivity|].
  rewrite length_app, Nat2Z.inj_add.
  destruct (Z.leb_spec (Z.of_nat (List.length stack)) idx),
    (Z.leb_spec (Z.of_nat (List.length pre) + Z.of_nat (List.length stack))
                (Z.of_nat (List.length pre) + idx)); try lia; [reflexivity|].
  assert (Hat : stackAt (pre ++ stack) (Z.of_nat (List.length pre) + idx)
                = stackAt stack idx).
  { unfold stackAt. rewrite app_nth2 by lia. f_equal. lia. }
  rewrite Hat. unfold findIndex.
  rewrite findIndexFrom_past by lia.
  replace (0 + Z.of_nat (List.length pre)) with (0 + Z.of_nat (List.length pre)) by lia.
  replace (Z.of_nat (List.length pre) + idx)
    with (idx + Z.of_nat (List.length pre)) by lia.
  rewrite findIndexFrom_shift.
  destruct (findIndexFrom stack 0 idx (type (stackAt stack idx))) as [n|] eqn:E;
    simpl.
  - apply findIndexFrom_gt in E.
    replace (Z.of_nat (List.length pre) + n + 1)
      with (Z.of_nat (List.length pre) + (n + 1)) by lia.
    apply IH. lia.
  - destruct (negb t && isCodeBlock (type (stackAt stack idx))); [reflexivity|].
    destruct (isCodeBlock (type (stackAt stack idx))); [reflexivity|].
    destruct (_ && _); [|reflexivity].
    replace (idx + Z.of_nat (List.length pre) + 1)
      with (Z.of_nat (List.length pre) + (idx + 1)) by lia.
    apply IH. lia.
Qed.

(** The pass over [pre ++ stack], once it stands behind [pre], is the
    pass over [stack]. *)
Lemma pairingLoop_behind pre stack pos t fuel :
  (List.length stack < fuel)%nat ->
  pairingLoop fuel (pre ++ stack) pos t (Z.of_nat (List.length pre))
  = pairingPass stack pos t.
Proof.
  intros Hf.
  replace (Z.of_nat (List.length pre)) with (Z.of_nat (List.length pre) + 0) by lia.
  rewrite pairingLoop_past by lia.
  unfold pairingPass.
  destruct (Z.ltb_spec (Z.of_nat (List.length stack)) 1).
  - destruct fuel; [lia|]. simpl.
    destruct (Z.leb_spec (Z.of_nat (List.length stack)) 0); [reflexivity|lia].
  - apply pairingLoop_fuel; lia.
Qed.

Lemma findIndexFrom_first mid y rest ty :
  Forall (fun e => type e <> ty) mid ->
  type y = ty ->
  forall i idx,
    idx < i ->
    findIndexFrom (mid ++ y :: rest) i idx ty
    = Some (i + Z.of_nat (List.length mid)).
Proof.
  intros Hmid Hy. induction Hmid as [|x mid Hx _ IH]; intros i idx Hlt; simpl.
  - destruct (Z.ltb_spec idx i); [|lia].
    rewrite (proj2 (BlockType_eqb_eq _ _) Hy). simpl. f_equal. lia.
  - destruct (BlockType_eqb (type x) ty) eqn:E.
    + apply BlockType_eqb_eq in E. contradiction.
    + rewrite andb_false_r, IH by lia. f_equal. lia.
Qed.

Lemma findIndexFrom_none stack ty :
  Forall (fun e => type e <> ty) stack ->
  forall i idx, findIndexFrom stack i idx ty = None.
Proof.
  induction 1 as [|x stack Hx _ IH]; intros i idx; simpl; [reflexivity|].
  destruct (BlockType_eqb (type x) ty) eqn:E.
  - apply BlockType_eqb_eq in E. contradiction.
  - rewrite andb_false_r. apply IH.
Qed.

(** A token and the next token of its type: the pass skips both and
    everything between them. *)
Lemma pairingPass_pair x mid y rest pos t :
  type y = type x ->
  Forall (fun e => type e <> type x) mid ->
  pairingPass (x :: mid ++ y :: rest) pos t = pairingPass rest pos t.
Proof.
  intros Hy Hmid.
  unfold pairingPass at 1.
  destruct (Z.ltb_spec (Z.of_nat (List.length (x :: mid ++ y :: rest))) 1)
    as [H|_]; [simpl List.length in H; lia|].
  cbn [pairingLoop].
  destruct (Z.leb_spec (Z.of_nat (List.length (x :: mid ++ y :: rest))) 0)
    as [H|_]; [simpl List.length in H; lia|].
  change (stackAt (x :: mid ++ y :: rest) 0) with x.
  unfold findIndex. cbn [findIndexFrom].
  change (0 <? 0) with false. cbn [andb].
  rewrite (findIndexFrom_first mid y rest (type x) Hmid Hy) by lia.
  replace (x :: mid ++ y :: rest) with ((x :: mid ++ [y]) ++ rest)
    by (simpl; now rewrite <- app_assoc).
  replace (0 + 1 + Z.of_nat (List.length mid) + 1)
    with (Z.of_nat (List.length (x :: mid ++ [y])))
    by (simpl List.length; rewrite length_app; simpl List.length; lia).
  apply pairingLoop_behind.
  rewrite !length_app. simpl. lia.
Qed.

(** A token that no later token of its type closes. *)
Lemma pairingPass_unmatched e post pos t :
  Forall (fun x => type x <> type e) post ->
  pairingPass (e :: post) pos t
  = if isCodeBlock (type e) then (if t then type e else NONE)
    else if BlockType_eqb (type e) DOLLAR_SINGLE && negb (eline e =? line pos)
         then pairingPass post pos t
         else type e.
Proof.
  intros Hpost.
  unfold pairingPass at 1.
  destruct (Z.ltb_spec (Z.of_nat (List.length (e :: post))) 1)
    as [H|_]; [simpl List.length in H; lia|].
  cbn [pairingLoop].
  destruct (Z.leb_spec (Z.of_nat (List.length (e :: post))) 0)
    as [H|_]; [simpl List.length in H; lia|].
  change (stackAt (e :: post) 0) with e.
  unfold findIndex. cbn [findIndexFrom].
  change (0 <? 0) with false. cbn [andb].
  rewrite findIndexFrom_none by exact Hpost.
  destruct (isCodeBlock (type e)); [destruct t; reflexivity|].
  rewrite andb_false_r.
  destruct (_ && _); [|reflexivity].
  change (e :: post) with ([e] ++ post).
  change (0 + 1) with (Z.of_nat (List.length [e])).
  apply pairingLoop_behind. simpl. lia.
Qed.

(** The pass gets through a front part made of closed pairs and of
    single dollars that are passed over. *)
Lemma walksThrough_pass pos stack pre t :
  walksThrough pos stack pre ->
  pairingPass (pre ++ stack) pos t = pairingPass stack pos t.
Proof.
  induction 1 as [|x mid y pre Hy Hmid _ IH|x pre Hx Hl Hnone _ IH].
  - reflexivity.
  - cbn [app]. rewrite <- app_assoc. cbn [app].
    rewrite pairingPass_pair by assumption. exact IH.
  - cbn [app]. rewrite pairingPass_unmatched by (now rewrite Hx).
    rewrite Hx. cbn [isCodeBlock isDollarBlock BlockType_eqb orb negb andb].
    destruct (Z.eqb_spec (eline x) (line pos)); [contradiction|exact IH].
Qed.

(** ** The wide dollar delimiter *)

Lemma StronglySorted_split {A} (R : A -> A -> Prop) l1 x l2 :
  StronglySorted R (l1 ++ x :: l2) ->
  Forall (fun y => R y x) l1 /\ Forall (R x) l2.
Proof.
  induction l1 as [|a l1 IH]; cbn [app]; intros H;
    inversion H as [|? ? Hs Hhd]; subst.
  - split; [constructor|exact Hhd].
  - destruct (IH Hs) as [H1 H2]. split; [|exact H2].
    constructor; [|exact H1].
    rewrite Forall_forall in Hhd. apply Hhd, in_elt.
Qed.

Lemma pushedBeforeb_spec a b : pushedBeforeb a b = true <-> pushedBefore a b.
Proof.
  unfold pushedBeforeb, pushedBefore.
  destruct (Z.ltb_spec (eline (fst a)) (eline (fst b))),
    (Z.eqb_spec (eline (fst a)) (eline (fst b))),
    (Z.ltb_spec (snd b) (snd a)); cbn [orb andb];
    split; intros; try discriminate; try reflexivity; lia.
Qed.

Lemma pushedBefore_asym a b : pushedBefore a b -> pushedBeforeb b a = false.
Proof.
  intros H. destruct (pushedBeforeb b a) eqn:E; [|reflexivity].
  apply pushedBeforeb_spec in E. unfold pushedBefore in *. lia.
Qed.

Lemma filter_all {A} (f : A -> bool) l :
  Forall (fun x => f x = true) l -> filter f l = l.
Proof.
  induction 1 as [|x l Hx _ IH]; cbn [filter]; [reflexivity|].
  now rewrite Hx, IH.
Qed.

Lemma filter_none {A} (f : A -> bool) l :
  Forall (fun x => f x = false) l -> filter f l = [].
Proof.
  induction 1 as [|x l Hx _ IH]; cbn [filter]; [reflexivity|].
  now rewrite Hx, IH.
Qed.

(** In a stack in the order of pushing, the entries pushed before an
    entry are those in front of it, the entries pushed behind it are
    those after it. *)
Lemma sorted_split pre x post :
  StronglySorted pushedBefore (pre ++ x :: post) ->
  filter (fun y => pushedBeforeb y x) (pre ++ x :: post) = pre
  /\ filter (fun y => pushedBeforeb x y) (pre ++ x :: post) = post.
Proof.
  intros Hs. apply StronglySorted_split in Hs. destruct Hs as [Hpre Hpost].
  assert (Hx : pushedBeforeb x x = false).
  { destruct (pushedBeforeb x x) eqn:E; [|reflexivity].
    apply pushedBeforeb_spec in E. unfold pushedBefore in E. lia. }
  rewrite !filter_app. cbn [filter]. rewrite Hx. split.
  - rewrite filter_all, filter_none; [apply app_nil_r | |].
    + eapply Forall_impl; [|exact Hpost]. intros y. apply pushedBefore_asym.
    + eapply Forall_impl; [|exact Hpre]. intros y. apply pushedBeforeb_spec.
  - rewrite filter_none, filter_all; [reflexivity | |].
    + eapply Forall_impl; [|exact Hpost]. intros y. apply pushedBeforeb_spec.
    + eapply Forall_impl; [|exact Hpre]. intros y. apply pushedBefore_asym.
Qed.

(** Two adjacent dollar signs that no third one follows (unless the
    cursor stands right behind the two) are one DOLLAR_MULTI token of the
    stack. *)
Lemma wideDollar_pushed d pos L c0 :
  Z.max 0 (line pos - 5000) <= L <= line pos ->
  skipped d L = false ->
  JS.charAt (getLine d L) c0 = "$" ->
  JS.charAt (getLine d L) (c0 + 1) = "$" ->
  (L = line pos -> c0 + 2 <= ch pos) ->
  (JS.charAt (getLine d L) (c0 + 2) = "$" -> L = line pos /\ ch pos = c0 + 2) ->
  In (wideDollar L c0) (collectTokensAt d pos).
Proof.
  intros HL Hskip H0 H1 Hcur Hthird.
  destruct (collectTokensAt_covers d pos L (c0 + 1))
    as [He | (x & Hx & Hl & Hk)].
  - split; [exact HL|]. split; [exact Hskip|].
    intros Heq. specialize (Hcur Heq). lia.
  - left. exact H1.
  - exfalso. unfold escapedAt in He.
    replace (c0 + 1 - 1) with c0 in He by lia. rewrite H0 in He.
    change ("$" =? "\")%string with false in He.
    rewrite andb_false_r in He. discriminate.
  - pose proof (collectTokensAt_sound d pos) as Hsound.
    rewrite Forall_forall in Hsound. specialize (Hsound x Hx).
    destruct Hsound as ((_ & _ & Hbefore) & _ & Hn & Hends & Hsingle).
    destruct x as [[ty l] j]. unfold firstCol in Hk.
    cbn [fst snd type eline] in *. subst l.
    destruct ty.
    + change (JS.len (c DOLLAR_MULTI)) with 2 in Hk.
      apply endsAt_wide_dollar in Hends. destruct Hends as [_ Hj].
      assert (Hcase : j = c0 + 1 \/ j = c0 + 2) by lia.
      destruct Hcase as [-> | ->]; [exact Hx|].
      destruct (Hthird Hj) as [Heq Hch]. specialize (Hbefore Heq). lia.
    + change (JS.len (c DOLLAR_SINGLE)) with 1 in Hk.
      assert (j = c0 + 1) as -> by lia.
      destruct (Hsingle eq_refl) as [_ Hno].
      specialize (Hno DOLLAR_MULTI eq_refl).
      assert (Hyes : endsAt (getLine d L) DOLLAR_MULTI (c0 + 1) = true).
      { apply endsAt_wide_dollar. replace (c0 + 1 - 1) with c0 by lia.
        now split. }
      congruence.
    + change (JS.len (c CODE_MULTI)) with 3 in Hk.
      apply endsAt_wide_code in Hends. destruct Hends as (Ha & Hb & Hc).
      assert (Hcase : j = c0 + 1 \/ j - 1 = c0 + 1 \/ j - 2 = c0 + 1) by lia.
      destruct Hcase as [E | [E | E]]; rewrite E in *; congruence.
    + change (JS.len (c CODE_SINGLE)) with 1 in Hk.
      assert (j = c0 + 1) as -> by lia.
      apply endsAt_one in Hends; [|reflexivity|discriminate].
      cbn [c] in Hends. congruence.
    + now contradiction Hn.
Qed.

(** C7 (as the code has it).  Let the opening [$$] stand at columns [c0]
    and [c0 + 1] of a scanned line [L] that is not front matter, let the
    cursor be behind it, and let no third dollar sign follow it (unless
    the cursor stands right behind it).  Then the two dollar signs are
    pushed as one DOLLAR_MULTI token: the stack is the tokens pushed
    before it (those of the lines above and those to its right on its
    line), the token, and the tokens pushed behind it.  The position is
    classified DOLLAR_MULTI, whatever the code-block flag is, whenever
    the pairing pass gets through the tokens pushed before it (they are
    closed pairs, with what lies between, and single dollars of other
    lines than the cursor's that no later token closes) and no further
    DOLLAR_MULTI token is pushed behind it. *)
Theorem wide_dollar_is_one_token :
  forall d pos L c0,
    Z.max 0 (line pos - 5000) <= L <= line pos ->
    skipped d L = false ->
    JS.charAt (getLine d L) c0 = "$" ->
    JS.charAt (getLine d L) (c0 + 1) = "$" ->
    (L = line pos -> c0 + 2 <= ch pos) ->
    (JS.charAt (getLine d L) (c0 + 2) = "$" -> L = line pos /\ ch pos = c0 + 2) ->
    collectTokens d pos
    = tokensBefore d pos (wideDollar L c0)
      ++ mkEntry DOLLAR_MULTI L :: tokensBehind d pos (wideDollar L c0)
    /\ (walksThrough pos
          (mkEntry DOLLAR_MULTI L :: tokensBehind d pos (wideDollar L c0))
          (tokensBefore d pos (wideDollar L c0)) ->
        Forall (fun e => type e <> DOLLAR_MULTI)
               (tokensBehind d pos (wideDollar L c0)) ->
        forall triggerInCodeBlocks,
          getLatexBlockType d pos triggerInCodeBlocks = DOLLAR_MULTI).
Proof.
  intros d pos L c0 HL Hskip H0 H1 Hcur Hthird.
  pose proof (wideDollar_pushed d pos L c0 HL Hskip H0 H1 Hcur Hthird) as Hin.
  apply in_split in Hin. destruct Hin as (pre & post & E).
  destruct (collectTokensAt_sorted d pos) as [Hs _]. rewrite E in Hs.
  destruct (sorted_split pre (wideDollar L c0) post Hs) as [Ebefore Ebehind].
  assert (Hstack : collectTokens d pos
                   = tokensBefore d pos (wideDollar L c0)
                     ++ mkEntry DOLLAR_MULTI L
                        :: tokensBehind d pos (wideDollar L c0)).
  { unfold tokensBefore, tokensBehind. rewrite <- collectTokensAt_erase.
    rewrite E, Ebefore, Ebehind, map_app. reflexivity. }
  split; [exact Hstack|].
  intros Hwalk Hnone t. unfold getLatexBlockType. rewrite Hstack.
  rewrite walksThrough_pass by exact Hwalk.
  rewrite pairingPass_unmatched by exact Hnone. reflexivity.
Qed.

(** The theorem at a block whose opening [$$] is on line 1, under a line
    with inline math and inline code; the cursor is on line 2. *)
Lemma wide_dollar_is_one_token_witness :
  collectTokens ["see $a$ and `b`"; "$$"; "x"] (mkPos 2 1)
  = [mkEntry CODE_SINGLE 0; mkEntry CODE_SINGLE 0;
     mkEntry DOLLAR_SINGLE 0; mkEntry DOLLAR_SINGLE 0;
     mkEntry DOLLAR_MULTI 1]
  /\ forall t,
       getLatexBlockType ["see $a$ and `b`"; "$$"; "x"] (mkPos 2 1) t
       = DOLLAR_MULTI.
Proof.
  destruct (wide_dollar_is_one_token
              ["see $a$ and `b`"; "$$"; "x"] (mkPos 2 1) 1 0) as [E Hc].
  - simpl. lia.
  - reflexivity.
  - reflexivity.
  - reflexivity.
  - simpl. lia.
  - simpl. discriminate.
  - split; [rewrite E; reflexivity|].
    apply Hc.
    + change (tokensBefore ["see $a$ and `b`"; "$$"; "x"] (mkPos 2 1)
                           (wideDollar 1 0))
        with [mkEntry CODE_SINGLE 0; mkEntry CODE_SINGLE 0;
              mkEntry DOLLAR_SINGLE 0; mkEntry DOLLAR_SINGLE 0].
      apply (walk_pair _ _ (mkEntry CODE_SINGLE 0) [] (mkEntry CODE_SINGLE 0));
        [reflexivity | constructor |].
      apply (walk_pair _ _ (mkEntry DOLLAR_SINGLE 0) []
                       (mkEntry DOLLAR_SINGLE 0));
        [reflexivity | constructor |].
      apply walk_done.
    + change (tokensBehind ["see $a$ and `b`"; "$$"; "x"] (mkPos 2 1)
                           (wideDollar 1 0)) with (@nil StackEntry).
      constructor.
Defined.

(** C7 as stated fails: a position between paired [$$] markers is not
    classified DOLLAR_MULTI when the pair stands inside a code fence.  The
    two dollar signs are one DOLLAR_MULTI token here too, but the pairing
    pass meets the unmatched fence first and answers NONE, or CODE_MULTI
    when suggestions inside code blocks are allowed. *)
Lemma wide_dollar_inside_code_fence :
  collectTokens ["```"; "$$ x $$"; "```"] (mkPos 1 4)
  = [mkEntry CODE_MULTI 0; mkEntry DOLLAR_MULTI 1]
  /\ getLatexBlockType ["```"; "$$ x $$"; "```"] (mkPos 1 4) false = NONE
  /\ getLatexBlockType ["```"; "$$ x $$"; "```"] (mkPos 1 4) true = CODE_MULTI.
Proof. repeat split; vm_compute; reflexivity. Qed.

End ScannerFacts.

(* ================================================================== *)
(** * Properties of the dictionary tables and of the matcher *)
(* ================================================================== *)

Module DictionaryFacts.

Import Settings Provider Dictionary.

(** ** The map *)

Lemma get_set_same {V} (m : JSMap.t V) k v :
  JSMap.get (JSMap.set m k v) k = Some v.
Proof.
  induction m as [|[k0 v0] m IH]; simpl.
  - now rewrite String.eqb_refl.
  - destruct (String.eqb_spec k0 k) as [->|Hne]; simpl.
    + now rewrite String.eqb_refl.
    + destruct (String.eqb_spec k0 k); [contradiction|exact IH].
Qed.

Lemma get_set_other {V} (m : JSMap.t V) k k' v :
  k <> k' -> JSMap.get (JSMap.set m k v) k' = JSMap.get m k'.
Proof.
  intros Hne. induction m as [|[k0 v0] m IH]; simpl.
  - destruct (String.eqb_spec k k'); [contradiction|reflexivity].
  - destruct (String.eqb_spec k0 k) as [->|Hne0]; simpl.
    + destruct (String.eqb_spec k k'); [contradiction|reflexivity].
    + destruct (String.eqb_spec k0 k'); [reflexivity|exact IH].
Qed.

Lemma set_set_same {V} (m : JSMap.t V) k v v' :
  JSMap.set (JSMap.set m k v) k v' = JSMap.set m k v'.
Proof.
  induction m as [|[k0 v0] m IH]; simpl.
  - now rewrite String.eqb_refl.
  - destruct (String.eqb_spec k0 k) as [->|Hne]; simpl.
    + now rewrite String.eqb_refl.
    + destruct (String.eqb_spec k0 k); [contradiction|now rewrite IH].
Qed.

Lemma has_set_same {V} (m : JSMap.t V) k v : JSMap.has (JSMap.set m k v) k = true.
Proof. unfold JSMap.has. now rewrite get_set_same. Qed.

Lemma getOrEmpty_set_same (m : WordMap) k v :
  getOrEmpty (JSMap.set m k v) k = v.
Proof. unfold getOrEmpty. now rewrite get_set_same. Qed.

Lemma getOrEmpty_set_other (m : WordMap) k k' v :
  k <> k' -> getOrEmpty (JSMap.set m k v) k' = getOrEmpty m k'.
Proof. intros. unfold getOrEmpty. now rewrite get_set_other. Qed.

(** ** The set of a bucket *)

Lemma existsb_eqb_In w l : existsb (String.eqb w) l = true <-> In w l.
Proof.
  rewrite existsb_exists. split.
  - intros (x & Hx & E). apply String.eqb_eq in E. now subst.
  - intros H. exists w. split; [exact H|apply String.eqb_refl].
Qed.

Lemma setAdd_In members w : In w (setAdd members w).
Proof.
  unfold setAdd. destruct (existsb (String.eqb w) members) eqn:E.
  - now apply existsb_eqb_In.
  - apply in_or_app. right. now left.
Qed.

Lemma setAdd_keeps members w x : In x members -> In x (setAdd members w).
Proof.
  unfold setAdd. destruct (existsb _ _); [auto|]. intros. apply in_or_app. now left.
Qed.

Lemma setAdd_idem members w : setAdd (setAdd members w) w = setAdd members w.
Proof.
  unfold setAdd at 1.
  destruct (existsb (String.eqb w) (setAdd members w)) eqn:E; [reflexivity|].
  pose proof (setAdd_In members w) as H. apply existsb_eqb_In in H. congruence.
Qed.

Lemma setAdd_NoDup members w : NoDup members -> NoDup (setAdd members w).
Proof.
  intros Hnd. unfold setAdd.
  destruct (existsb (String.eqb w) members) eqn:E; [exact Hnd|].
  apply NoDup_app; [exact Hnd | repeat constructor; intros [] |].
  intros x Hx [<-|[]].
  apply existsb_eqb_In in Hx. congruence.
Qed.

(** ** addWord *)

(** What [addWord] does to a storable word: its bucket becomes the set
    extended by the word, the other buckets are unchanged. *)
Lemma addWord_storable bl m w :
  storable bl w = true ->
  addWord bl m w
  = JSMap.set m (JS.charAt w 0) (setAdd (getOrEmpty m (JS.charAt w 0)) w).
Proof.
  unfold storable, addWord, getOrEmpty, JSMap.has. intros H.
  apply andb_true_iff in H. destruct H as [Ht Hb].
  rewrite Ht. apply negb_true_iff in Hb. rewrite Hb. cbn [negb orb].
  destruct (JSMap.get m (JS.charAt w 0)) as [l|] eqn:E; cbn [negb].
  - rewrite E. reflexivity.
  - rewrite get_set_same, set_set_same. reflexivity.
Qed.

Lemma addWord_unstorable bl m w : storable bl w = false -> addWord bl m w = m.
Proof.
  unfold storable, addWord. intros H.
  destruct (JS.truthy w); simpl in *; [|reflexivity].
  apply negb_false_iff in H. now rewrite H.
Qed.

Lemma addWord_idem bl m w : addWord bl (addWord bl m w) w = addWord bl m w.
Proof.
  destruct (storable bl w) eqn:Hs.
  - rewrite !addWord_storable by exact Hs.
    rewrite getOrEmpty_set_same, set_set_same, setAdd_idem.
    reflexivity.
  - now rewrite !addWord_unstorable.
Qed.

Lemma addWord_unique bl m w : uniqueBuckets m -> uniqueBuckets (addWord bl m w).
Proof.
  intros Hm. destruct (storable bl w) eqn:Hs.
  - rewrite addWord_storable by exact Hs. intros k l.
    destruct (String.eqb_spec (JS.charAt w 0) k) as [<-|Hne].
    + rewrite get_set_same. intros [= <-]. apply setAdd_NoDup.
      unfold getOrEmpty. destruct (JSMap.get m (JS.charAt w 0)) eqn:E.
      * eapply Hm, E.
      * constructor.
    + rewrite get_set_other by exact Hne. apply Hm.
  - now rewrite addWord_unstorable.
Qed.

Lemma addWord_stores bl m w : storable bl w = true -> stored (addWord bl m w) w.
Proof.
  intros Hs. unfold stored. rewrite addWord_storable by exact Hs.
  rewrite getOrEmpty_set_same. apply setAdd_In.
Qed.

Lemma addWord_keeps bl m w x : stored m x -> stored (addWord bl m w) x.
Proof.
  intros Hx. destruct (storable bl w) eqn:Hs.
  - rewrite addWord_storable by exact Hs. unfold stored.
    destruct (String.eqb_spec (JS.charAt w 0) (JS.charAt x 0)) as [E|Hne].
    + rewrite <- E, getOrEmpty_set_same. apply setAdd_keeps. rewrite E. exact Hx.
    + rewrite getOrEmpty_set_other by exact Hne. exact Hx.
  - now rewrite addWord_unstorable.
Qed.

Lemma addWords_keep bl ws :
  forall m x, stored m x -> stored (fold_left (addWord bl) ws m) x.
Proof.
  induction ws as [|w ws IH]; intros m x Hx; simpl; [exact Hx|].
  apply IH, addWord_keeps, Hx.
Qed.

Lemma setAdd_inv members w x : In x (setAdd members w) -> In x members \/ x = w.
Proof.
  unfold setAdd. destruct (existsb _ _); [auto|].
  intros H. apply in_app_or in H. destruct H as [H|[<-|[]]]; auto.
Qed.

Lemma uniqueBuckets_getOrEmpty m k : uniqueBuckets m -> NoDup (getOrEmpty m k).
Proof.
  intros Hm. unfold getOrEmpty. destruct (JSMap.get m k) eqn:E.
  - eapply Hm, E.
  - constructor.
Qed.

Lemma addWord_keyed bl m w : keyedByFirst m -> keyedByFirst (addWord bl m w).
Proof.
  intros Hm. destruct (storable bl w) eqn:Hs.
  - rewrite addWord_storable by exact Hs. intros k l x.
    destruct (String.eqb_spec (JS.charAt w 0) k) as [<-|Hne].
    + rewrite get_set_same. intros [= <-] Hx.
      apply setAdd_inv in Hx. destruct Hx as [Hx | ->]; [|reflexivity].
      unfold getOrEmpty in Hx.
      destruct (JSMap.get m (JS.charAt w 0)) eqn:E; [|contradiction].
      eapply Hm; eassumption.
    + rewrite get_set_other by exact Hne. apply Hm.
  - now rewrite addWord_unstorable.
Qed.

(** Whatever the history, the table has no bucket with a duplicate and
    files every word under its first character. *)
Lemma scannerStep_tidy s ev :
  uniqueBuckets (snd s) /\ keyedByFirst (snd s) ->
  uniqueBuckets (snd (scannerStep s ev)) /\ keyedByFirst (snd (scannerStep s ev)).
Proof.
  intros [Hu Hk]. destruct ev as [word|text|]; simpl.
  - split; [now apply addWord_unique | now apply addWord_keyed].
  - now split.
  - split; intros k l; discriminate.
Qed.

Lemma scannerRun_tidy bl0 history :
  uniqueBuckets (snd (scannerRun bl0 history))
  /\ keyedByFirst (snd (scannerRun bl0 history)).
Proof.
  unfold scannerRun.
  assert (G : forall s,
             uniqueBuckets (snd s) /\ keyedByFirst (snd s) ->
             uniqueBuckets (snd (fold_left scannerStep history s))
             /\ keyedByFirst (snd (fold_left scannerStep history s))).
  { induction history as [|ev history IH]; intros s Hs; simpl; [exact Hs|].
    apply IH, scannerStep_tidy, Hs. }
  apply G. split; intros k l; discriminate.
Qed.

Lemma keyed_elsewhere m k w :
  keyedByFirst m -> k <> JS.charAt w 0 -> ~ In w (getOrEmpty m k).
Proof.
  intros Hk Hne Hin. unfold getOrEmpty in Hin.
  destruct (JSMap.get m k) eqn:E; [|contradiction].
  apply Hne. symmetry. eapply Hk; eassumption.
Qed.

(** C8 (as the code has it).  Take the file scanner's table at any time:
    after any history of words added, texts blacklisted and clearings,
    from any blacklist and the empty table.  Inserting a word a second
    time changes nothing, every bucket stays free of duplicates, and
    after the two insertions the word occurs exactly once in the bucket
    of its first character if it can be stored now (it is not empty and
    not blacklisted) or was in the bucket already, and in no other
    bucket; a word that is empty or blacklisted and was not in the table
    is in no bucket. *)
Theorem scanner_insert_is_idempotent :
  forall bl0 history w,
    let bl := fst (scannerRun bl0 history) in
    let table := snd (scannerRun bl0 history) in
    addWord bl (addWord bl table w) w = addWord bl table w
    /\ uniqueBuckets (addWord bl (addWord bl table w) w)
    /\ forall k,
         count_occ string_dec
           (getOrEmpty (addWord bl (addWord bl table w) w) k) w
         = if (k =? JS.charAt w 0)%string
              && (storable bl w || existsb (String.eqb w) (getOrEmpty table k))
           then 1%nat else 0%nat.
Proof.
  intros bl0 history w bl table.
  destruct (scannerRun_tidy bl0 history) as [Hu Hk].
  fold table in Hu, Hk.
  split; [apply addWord_idem|].
  rewrite addWord_idem.
  split; [apply addWord_unique, Hu|].
  intros k.
  destruct (String.eqb_spec k (JS.charAt w 0)) as [->|Hne]; cbn [andb].
  - destruct (storable bl w) eqn:Hs; cbn [orb].
    + apply NoDup_count_occ'.
      * apply uniqueBuckets_getOrEmpty, addWord_unique, Hu.
      * apply addWord_stores, Hs.
    + rewrite addWord_unstorable by exact Hs.
      destruct (existsb (String.eqb w) (getOrEmpty table (JS.charAt w 0))) eqn:E.
      * apply NoDup_count_occ'.
        -- apply uniqueBuckets_getOrEmpty, Hu.
        -- now apply existsb_eqb_In.
      * apply count_occ_not_In. intros Hin.
        apply existsb_eqb_In in Hin. congruence.
  - apply count_occ_not_In. apply keyed_elsewhere; [|exact Hne].
    apply addWord_keyed, Hk.
Qed.

(** A word that was stored and blacklisted afterwards stays in its
    bucket: inserting it again neither adds nor removes it. *)
Example blacklisted_later_stays :
  scannerRun [] [WordAdded "apple"; TextBlacklisted "apple"]
  = (["apple"], [("a", ["apple"])])
  /\ storable ["apple"] "apple" = false
  /\ addWord ["apple"] [("a", ["apple"])] "apple" = [("a", ["apple"])].
Proof. repeat split. Qed.

(** C8 as stated fails for the word-list table: [loadFromFiles] pushes
    every line onto the array of its bucket, so a word that occurs on two
    lines is in the bucket twice. *)
Lemma word_list_keeps_duplicates :
  loadFromFiles [] DEFAULT_SETTINGS
                [JS.Returns ("apple" ++ String "010" "apple")%string]
  = ([("a", ["apple"; "apple"])], 2)
  /\ count_occ string_dec ["apple"; "apple"] "apple" = 2%nat.
Proof. split; vm_compute; reflexivity. Qed.

(** ** Strings *)

Lemma stripCombiningMarks_id s : stripCombiningMarks s = s.
Proof.
  induction s as [|ch0 s IH]; simpl; [reflexivity|].
  assert (H : isCombiningMark ch0 = false).
  { unfold isCombiningMark.
    pose proof (N_ascii_bounded ch0) as Hb.
    destruct (N.leb_spec 768 (N_of_ascii ch0)); [lia|reflexivity]. }
  now rewrite H, IH.
Qed.

Lemma mapString_length f s : String.length (JS.mapString f s) = String.length s.
Proof. induction s; simpl; congruence. Qed.

Lemma mapString_prefix f p s :
  String.prefix p s = true ->
  String.prefix (JS.mapString f p) (JS.mapString f s) = true.
Proof.
  revert s. induction p as [|a p IH]; intros [|b s]; simpl; try easy.
  destruct (ascii_dec a b) as [->|]; [|discriminate].
  intros H. destruct (ascii_dec (f b) (f b)); [auto|contradiction].
Qed.

Lemma prefix_refl s : String.prefix s s = true.
Proof.
  induction s as [|a s IH]; simpl; [reflexivity|].
  destruct (ascii_dec a a); [exact IH|contradiction].
Qed.

Lemma isAscii_prefix p s :
  String.prefix p s = true -> JS.isAscii s = true -> JS.isAscii p = true.
Proof.
  revert s. induction p as [|a p IH]; intros [|b s]; simpl; try easy.
  destruct (ascii_dec a b) as [->|]; [|discriminate].
  intros Hp Hs. apply andb_true_iff in Hs. destruct Hs as [Hb Hs].
  rewrite Hb. simpl. eapply IH; eassumption.
Qed.

Lemma lowerChar_ascii ch0 :
  JS.isAsciiChar ch0 = true -> JS.isAsciiChar (JS.lowerChar ch0) = true.
Proof.
  destruct ch0 as [[] [] [] [] [] [] [] []]; intros H; try discriminate H;
    vm_compute; reflexivity.
Qed.

Lemma isAscii_asciiLower s :
  JS.isAscii s = true -> JS.isAscii (JS.asciiLower s) = true.
Proof.
  unfold JS.asciiLower.
  induction s as [|a s IH]; simpl; [reflexivity|].
  intros H. apply andb_true_iff in H. destruct H as [Ha Hs].
  rewrite lowerChar_ascii by exact Ha. simpl. apply IH, Hs.
Qed.

(** A character is lower case already, or it is the upper case of its
    lower case. *)
Lemma lowerChar_cases ch0 :
  JS.lowerChar ch0 = ch0 \/ JS.upperChar (JS.lowerChar ch0) = ch0.
Proof.
  destruct ch0 as [[] [] [] [] [] [] [] []];
    (left; vm_compute; reflexivity) || (right; vm_compute; reflexivity).
Qed.

(** The first character of a string, as [charAt(0)] gives it. *)
Lemma charAt0_cons a s : JS.charAt (String a s) 0 = String a "".
Proof. reflexivity. Qed.

Lemma prefix_charAt0 p s :
  String.prefix p s = true -> p <> "" -> JS.charAt p 0 = JS.charAt s 0.
Proof.
  destruct p as [|a p], s as [|b s]; simpl; try easy.
  destruct (ascii_dec a b) as [->|]; [|discriminate]. reflexivity.
Qed.

Lemma substring_all s : String.substring 0 (String.length s) s = s.
Proof. induction s as [|a s IH]; simpl; [reflexivity|now rewrite IH]. Qed.

(** A prefix followed by the rest of the word is the word. *)
Lemma prefix_append_rest p s :
  String.prefix p s = true ->
  (p ++ JS.substringFrom s (JS.len p))%string = s.
Proof.
  unfold JS.substringFrom, JS.len.
  rewrite Z.max_r by lia. rewrite Nat2Z.id.
  revert s. induction p as [|a p IH]; intros s; simpl.
  - intros _. rewrite Nat.sub_0_r. apply substring_all.
  - destruct s as [|b s]; simpl; [discriminate|].
    destruct (ascii_dec a b) as [->|]; [|discriminate].
    intros H. now rewrite IH.
Qed.

Lemma truthy_nonempty s : JS.truthy s = true <-> s <> "".
Proof.
  unfold JS.truthy. destruct (String.eqb_spec s ""); simpl; split; intros; congruence.
Qed.

(** ** The stable sort and the collecting loops keep what they are given *)

Lemma insertBy_In {A} (key : A -> Z) x y l :
  In y (insertBy key x l) <-> y = x \/ In y l.
Proof.
  induction l as [|z l IH]; simpl.
  - intuition congruence.
  - destruct (key x <? key z); simpl; rewrite ?IH; intuition congruence.
Qed.

Lemma sortBy_In {A} (key : A -> Z) l y : In y (sortBy key l) <-> In y l.
Proof.
  unfold sortBy.
  assert (G : forall acc, In y (fold_left (fun acc x => insertBy key x acc) l acc)
                          <-> In y l \/ In y acc).
  { induction l as [|x l IH]; intros acc; simpl.
    - intuition.
    - rewrite IH, insertBy_In. intuition congruence. }
  rewrite G. simpl. intuition.
Qed.

Lemma filterMapIntoArray_In {T U} (array : list T) (iterable : list U)
      predicate mapFn y :
  In y (filterMapIntoArray array iterable predicate mapFn)
  <-> In y array
      \/ exists x, In x iterable /\ predicate x = true /\ mapFn x = y.
Proof.
  unfold filterMapIntoArray. revert array.
  induction iterable as [|x l IH]; intros array; simpl.
  - split; [auto|]. intros [H|(x & [] & _)]. exact H.
  - rewrite IH. destruct (predicate x) eqn:E.
    + rewrite in_app_iff. simpl. split.
      * intros [[H|[H|[]]]|(x' & Hx' & Hp & Hm)]; eauto 6.
      * intros [H|(x' & [<-|Hx'] & Hp & Hm)]; eauto 6.
    + split.
      * intros [H|(x' & Hx' & Hp & Hm)]; eauto 6.
      * intros [H|(x' & [<-|Hx'] & Hp & Hm)]; eauto 6. congruence.
Qed.

Lemma collect_In {T U} (lists : list (list U)) predicate (mapFn : U -> T) :
  forall acc l x,
    In l lists -> In x l -> predicate x = true ->
    In (mapFn x)
       (fold_left (fun result iterable =>
                     filterMapIntoArray result iterable predicate mapFn)
                  lists acc).
Proof.
  assert (Keep : forall lists acc y,
             In y acc ->
             In y (fold_left (fun result iterable =>
                                filterMapIntoArray result iterable predicate mapFn)
                             lists acc)).
  { intros ls. induction ls as [|l0 ls IH]; intros acc y Hy; simpl; [exact Hy|].
    apply IH. apply filterMapIntoArray_In. now left. }
  induction lists as [|l0 lists IH]; intros acc l x Hl Hx Hp; simpl.
  - destruct Hl.
  - destruct Hl as [->|Hl].
    + apply Keep. apply filterMapIntoArray_In. right. eauto.
    + eapply IH; eassumption.
Qed.

(** ** The matcher on ASCII text *)

Section Matcher.

Context {R : JS.StringRuntime} {C : JS.AsciiConforming R}.

Lemma folded_ascii settings s :
  JS.isAscii s = true -> folded settings s = asciiFolded settings s.
Proof.
  intros Hs. unfold folded, asciiFolded, EditorHelpers.maybeLowerCase, removeDiacritics.
  destruct (ignoreCaseOf settings).
  - rewrite JS.toLowerCase_ascii by exact Hs.
    destruct (ignoreDiacriticsWhenFiltering settings); [|reflexivity].
    rewrite JS.normalizeNFD_ascii by (apply isAscii_asciiLower, Hs).
    apply stripCombiningMarks_id.
  - destruct (ignoreDiacriticsWhenFiltering settings); [|reflexivity].
    rewrite JS.normalizeNFD_ascii by exact Hs.
    apply stripCombiningMarks_id.
Qed.

Lemma asciiFolded_ascii settings s :
  JS.isAscii s = true -> JS.isAscii (asciiFolded settings s) = true.
Proof.
  intros Hs. unfold asciiFolded.
  destruct (ignoreCaseOf settings); [apply isAscii_asciiLower|]; exact Hs.
Qed.

Lemma asciiFolded_length settings s :
  JS.len (asciiFolded settings s) = JS.len s.
Proof.
  unfold asciiFolded, JS.len, JS.asciiLower.
  destruct (ignoreCaseOf settings); [now rewrite mapString_length|reflexivity].
Qed.

Lemma asciiFolded_prefix settings p s :
  String.prefix p s = true ->
  String.prefix (asciiFolded settings p) (asciiFolded settings s) = true.
Proof.
  unfold asciiFolded. destruct (ignoreCaseOf settings); [|auto].
  apply mapString_prefix.
Qed.

Lemma asciiFolded_idem settings s :
  asciiFolded settings (asciiFolded settings s) = asciiFolded settings s.
Proof.
  unfold asciiFolded. destruct (ignoreCaseOf settings); [|reflexivity].
  unfold JS.asciiLower. induction s as [|a s IH]; simpl; [reflexivity|].
  rewrite IH. f_equal.
  destruct a as [[] [] [] [] [] [] [] []]; vm_compute; reflexivity.
Qed.

(** The bucket of a stored ASCII word is among the lists the matcher
    checks for a query whose folded form starts like the folded word. *)
Lemma bucket_is_checked wordMap settings w q :
  JS.isAscii w = true ->
  q <> "" ->
  String.prefix q (asciiFolded settings w) = true ->
  In (getOrEmpty wordMap (JS.charAt w 0))
     (listsToCheck wordMap settings (JS.charAt q 0)).
Proof.
  intros Hw Hq Hp.
  rewrite (prefix_charAt0 _ _ Hp Hq).
  unfold listsToCheck, asciiFolded. apply in_or_app. left.
  destruct w as [|a w].
  { unfold asciiFolded in Hp.
    destruct (ignoreCaseOf settings), q; simpl in Hp; congruence. }
  simpl in Hw. apply andb_true_iff in Hw. destruct Hw as [Ha _].
  destruct (ignoreCaseOf settings).
  - unfold JS.asciiLower. cbn [JS.mapString]. rewrite !charAt0_cons.
    rewrite JS.toUpperCase_ascii
      by (cbn [JS.isAscii]; now rewrite lowerChar_ascii).
    unfold JS.asciiUpper. cbn [JS.mapString].
    destruct (lowerChar_cases a) as [E|E]; rewrite E; simpl; auto.
  - simpl. auto.
Qed.

(** A stored ASCII word whose folded form starts with the folded query is
    suggested, provided the provider is enabled and the query is not
    empty and not shorter than the minimum. *)
Lemma matcher_finds wordMap isEnabled ctx settings w :
  JS.isAscii w = true ->
  JS.isAscii (query ctx) = true ->
  stored wordMap w ->
  isEnabled settings = true ->
  query ctx <> "" ->
  minWordTriggerLength settings <= JS.len (query ctx) ->
  String.prefix (asciiFolded settings (query ctx)) (asciiFolded settings w) = true ->
  In (suggestionFor settings (query ctx) w)
     (getSuggestions wordMap isEnabled ctx settings).
Proof.
  intros Hw Hq Hst Hen Hne Hmin Hp.
  unfold getSuggestions. rewrite Hen.
  apply truthy_nonempty in Hne. rewrite Hne.
  destruct (Z.ltb_spec (JS.len (query ctx)) (minWordTriggerLength settings)); [lia|].
  cbn [negb orb].
  apply sortBy_In.
  rewrite (folded_ascii settings (query ctx) Hq).
  assert (Hne' : asciiFolded settings (query ctx) <> "").
  { intros E. apply truthy_nonempty in Hne.
    pose proof (asciiFolded_length settings (query ctx)) as Hl.
    rewrite E in Hl. unfold JS.len in Hl. simpl in Hl.
    destruct (query ctx); [congruence|simpl in Hl; lia]. }
  unfold suggestionFor.
  rewrite <- (asciiFolded_length settings (query ctx)).
  apply (collect_In
           (listsToCheck wordMap settings
              (JS.charAt (asciiFolded settings (query ctx)) 0))
           (fun s => JS.startsWith (folded settings s)
                                   (asciiFolded settings (query ctx)))
           (fun s =>
              if WordInsertionMode_eqb (wordInsertionMode settings) APPEND
              then fromString (query ctx
                               ++ JS.substringFrom s
                                    (JS.len (asciiFolded settings (query ctx))))%string
              else fromString s)
           [] (getOrEmpty wordMap (JS.charAt w 0)) w).
  - apply bucket_is_checked; assumption.
  - exact Hst.
  - unfold JS.startsWith. rewrite folded_ascii by exact Hw. exact Hp.
Qed.

(** C4 (as the code has it).  Let the ASCII word [W], not empty and not
    blacklisted, be inserted into the table, other words before and after
    it.  Let [P] be a prefix of [W] of at least one character and at least
    [minWordTriggerLength] characters, and let the provider be enabled.
    Queried with [P] as typed, the matcher returns the suggestion whose
    display name and replacement are [W], in every insertion mode.
    Queried with [P] case-folded, it returns that suggestion in the two
    REPLACE modes, and in APPEND mode the suggestion made of the folded
    query followed by the rest of [W]. *)
Theorem dictionary_round_trip :
  forall blacklist before later W P isEnabled settings ctx,
    let table := fold_left (addWord blacklist) later
                           (addWord blacklist before W) in
    storable blacklist W = true ->
    JS.isAscii W = true ->
    String.prefix P W = true ->
    1 <= JS.len P ->
    minWordTriggerLength settings <= JS.len P ->
    isEnabled settings = true ->
    query ctx = P \/ query ctx = folded settings P ->
    In (suggestionFor settings (query ctx) W)
       (getSuggestions table isEnabled ctx settings)
    /\ (query ctx = P \/ wordInsertionMode settings <> APPEND ->
        In (fromString W) (getSuggestions table isEnabled ctx settings)).
Proof.
  intros bl before later W P isEn settings ctx table Hs Hw Hp Hlen Hmin Hen Hq.
  assert (HP : JS.isAscii P = true) by (eapply isAscii_prefix; eassumption).
  assert (Hst : stored table W) by (apply addWords_keep, addWord_stores, Hs).
  assert (Hqa : JS.isAscii (query ctx) = true
                /\ JS.len (query ctx) = JS.len P
                /\ String.prefix (asciiFolded settings (query ctx))
                                 (asciiFolded settings W) = true).
  { destruct Hq as [-> | ->].
    - repeat split; [exact HP | now apply asciiFolded_prefix].
    - rewrite folded_ascii by exact HP.
      repeat split.
      + now apply asciiFolded_ascii.
      + apply asciiFolded_length.
      + rewrite asciiFolded_idem. now apply asciiFolded_prefix. }
  destruct Hqa as (Hqa & Hql & Hqp).
  assert (Hfound : In (suggestionFor settings (query ctx) W)
                      (getSuggestions table isEn ctx settings)).
  { apply matcher_finds; try assumption; try lia.
    intros E. rewrite E in Hql. unfold JS.len in *. simpl in Hql. lia. }
  split; [exact Hfound|].
  intros Hcase. unfold suggestionFor in Hfound.
  destruct (WordInsertionMode_eqb (wordInsertionMode settings) APPEND) eqn:Em;
    [|exact Hfound].
  destruct Hcase as [E|Hna].
  - rewrite E in Hfound. rewrite prefix_append_rest in Hfound by exact Hp.
    exact Hfound.
  - destruct (wordInsertionMode settings); simpl in Em; congruence.
Qed.

End Matcher.

(** The ASCII runtime conforms. *)
Lemma asciiRuntime_conforming : JS.AsciiConforming JS.asciiRuntime.
Proof. split; intros; reflexivity. Defined.

(** The theorem at the table holding ["hello"], queried with ["he"]. *)
Lemma dictionary_round_trip_witness :
  In (fromString "hello")
     (@getSuggestions JS.asciiRuntime (addWord [] JSMap.empty "hello")
        FileScanner_isEnabled (queryContext "he") DEFAULT_SETTINGS).
Proof.
  refine (proj2 (@dictionary_round_trip JS.asciiRuntime asciiRuntime_conforming
                   [] JSMap.empty [] "hello" "he" FileScanner_isEnabled
                   DEFAULT_SETTINGS (queryContext "he")
                   _ _ _ _ _ _ _) _).
  - reflexivity.
  - reflexivity.
  - reflexivity.
  - vm_compute. discriminate.
  - vm_compute. discriminate.
  - reflexivity.
  - left. reflexivity.
  - left. reflexivity.
Defined.

(** C4 as stated fails.  A non-empty prefix shorter than
    [minWordTriggerLength] is answered with no suggestion at all; and in
    APPEND mode a case-folded prefix yields the folded query followed by
    the rest of the word, not the word. *)
Lemma short_or_appended_query_misses_word :
  @getSuggestions JS.asciiRuntime (addWord [] JSMap.empty "hello")
     FileScanner_isEnabled (queryContext "h") DEFAULT_SETTINGS = []
  /\ @getSuggestions JS.asciiRuntime (addWord [] JSMap.empty "Hello")
       FileScanner_isEnabled (queryContext "hel")
       (withMode DEFAULT_SETTINGS APPEND)
     = [fromString "hello"]
  /\ fromString "hello" <> fromString "Hello".
Proof. repeat split; try (vm_compute; reflexivity). discriminate. Qed.

(** The two modes on the table that holds ["hello"] and nothing else. *)
Lemma single_entry_modes :
  forall (R : JS.StringRuntime) (C : JS.AsciiConforming R)
         ed file start end_ separatorChar,
    let ctx := mkContext ed file start end_ "Hel" separatorChar in
    let table := addWord [] JSMap.empty "hello" in
    getSuggestions table FileScanner_isEnabled ctx
                   (withMode DEFAULT_SETTINGS IGNORE_CASE_REPLACE)
    = [mkSuggestion "hello" "hello"]
    /\ getSuggestions table FileScanner_isEnabled ctx
                      (withMode DEFAULT_SETTINGS APPEND)
       = [mkSuggestion "Hello" "Hello"].
Proof.
  intros R C ed file start end_ sep ctx table.
  assert (Hq : forall settings,
             ignoreCaseOf settings = true ->
             folded settings "Hel" = "hel").
  { intros settings Hi. rewrite folded_ascii by reflexivity.
    unfold asciiFolded. now rewrite Hi. }
  assert (Hw : forall settings,
             ignoreCaseOf settings = true ->
             folded settings "hello" = "hello").
  { intros settings Hi. rewrite folded_ascii by reflexivity.
    unfold asciiFolded. now rewrite Hi. }
  assert (Hu : JS.toUpperCase "h" = "H")
    by (now rewrite JS.toUpperCase_ascii).
  split.
  - unfold getSuggestions. cbn [query ctx].
    rewrite Hq by reflexivity.
    change (JS.charAt "hel" 0) with "h".
    unfold listsToCheck. rewrite Hu.
    change (ignoreCaseOf (withMode DEFAULT_SETTINGS IGNORE_CASE_REPLACE)) with true.
    change (ignoreDiacriticsWhenFiltering
              (withMode DEFAULT_SETTINGS IGNORE_CASE_REPLACE)) with false.
    change (getOrEmpty table "h") with ["hello"].
    change (getOrEmpty table "H") with (@nil string).
    cbn [app fold_left filterMapIntoArray].
    rewrite Hw by reflexivity.
    vm_compute. reflexivity.
  - unfold getSuggestions. cbn [query ctx].
    rewrite Hq by reflexivity.
    change (JS.charAt "hel" 0) with "h".
    unfold listsToCheck. rewrite Hu.
    change (ignoreCaseOf (withMode DEFAULT_SETTINGS APPEND)) with true.
    change (ignoreDiacriticsWhenFiltering
              (withMode DEFAULT_SETTINGS APPEND)) with false.
    change (getOrEmpty table "h") with ["hello"].
    change (getOrEmpty table "H") with (@nil string).
    cbn [app fold_left filterMapIntoArray].
    rewrite Hw by reflexivity.
    vm_compute. reflexivity.
Qed.

(** C5.  The table holds the entry ["hello"], the typed query is ["Hel"]
    and case is ignored.  In REPLACE mode the matcher returns a suggestion
    whose replacement is ["hello"]; in APPEND mode one whose replacement
    is ["Hello"], the query as typed followed by the rest of the
    candidate.  When ["hello"] is the only entry, these are the only
    suggestions. *)
Theorem replace_and_append_modes :
  forall (R : JS.StringRuntime) (C : JS.AsciiConforming R)
         blacklist before later ed file start end_ separatorChar,
    let ctx := mkContext ed file start end_ "Hel" separatorChar in
    let table := fold_left (addWord blacklist) later
                           (addWord blacklist before "hello") in
    SuggestionBlacklist.hasText blacklist "hello" = false ->
    In (mkSuggestion "hello" "hello")
       (getSuggestions table FileScanner_isEnabled ctx
                       (withMode DEFAULT_SETTINGS IGNORE_CASE_REPLACE))
    /\ In (mkSuggestion "Hello" "Hello")
          (getSuggestions table FileScanner_isEnabled ctx
                          (withMode DEFAULT_SETTINGS APPEND))
    /\ getSuggestions (addWord [] JSMap.empty "hello") FileScanner_isEnabled ctx
                      (withMode DEFAULT_SETTINGS IGNORE_CASE_REPLACE)
       = [mkSuggestion "hello" "hello"]
    /\ getSuggestions (addWord [] JSMap.empty "hello") FileScanner_isEnabled ctx
                      (withMode DEFAULT_SETTINGS APPEND)
       = [mkSuggestion "Hello" "Hello"].
Proof.
  intros R C bl before later ed file start end_ sep ctx table Hbl.
  assert (Hst : stored table "hello").
  { apply addWords_keep, addWord_stores. unfold storable. now rewrite Hbl. }
  split; [|split].
  - apply (matcher_finds table FileScanner_isEnabled ctx
             (withMode DEFAULT_SETTINGS IGNORE_CASE_REPLACE) "hello");
      try reflexivity; try exact Hst; try discriminate.
  - apply (matcher_finds table FileScanner_isEnabled ctx
             (withMode DEFAULT_SETTINGS APPEND) "hello");
      try reflexivity; try exact Hst; try discriminate.
  - apply single_entry_modes. exact C.
Qed.

(** The theorem at the ASCII runtime, in a table with other words. *)
Lemma replace_and_append_modes_witness :
  In (mkSuggestion "Hello" "Hello")
     (@getSuggestions JS.asciiRuntime
        (fold_left (addWord []) ["help"; "Helsinki"]
                   (addWord [] (addWord [] JSMap.empty "held") "hello"))
        FileScanner_isEnabled (queryContext "Hel")
        (withMode DEFAULT_SETTINGS APPEND)).
Proof.
  apply (replace_and_append_modes JS.asciiRuntime asciiRuntime_conforming
           [] (addWord [] JSMap.empty "held") ["help"; "Helsinki"]).
  reflexivity.
Defined.

End DictionaryFacts.

(* ================================================================== *)
(** * Properties of the snippet placeholders *)
(* ================================================================== *)

Module SnippetFacts.

Import CM MarkerStateField Snippets.

Lemma addRange_In r rs : In r (addRange r rs).
Proof.
  induction rs as [|x rs IH]; simpl; [now left|].
  destruct (from r <? from x); [now left | now right].
Qed.

Lemma addRange_inv r rs x : In x (addRange r rs) -> x = r \/ In x rs.
Proof.
  induction rs as [|y rs IH]; simpl.
  - intros [<-|[]]. now left.
  - destruct (from r <? from y); simpl.
    + intros [<-|H]; auto.
    + intros [<-|H]; auto. destruct (IH H); auto.
Qed.





(** ** Reprojection of the markers *)

Lemma mapPos_shift chg pos assoc :
  cfrom chg <= pos ->
  cto chg <= pos ->
  (pos = cto chg -> assoc < 0 -> cfrom chg <> cto chg) ->
  mapPos chg pos assoc = cfrom chg + JS.len (insert chg) + (pos - cto chg).
Proof.
  intros Ha Hb Hins. unfold mapPos.
  destruct (Z.ltb_spec pos (cfrom chg)); [lia|].
  destruct (Z.ltb_spec pos (cto chg)); [lia|].
  destruct (Z.eqb_spec pos (cto chg)), (Z.ltb_spec assoc 0),
    (Z.eqb_spec (cfrom chg) (cto chg)); cbn [andb orb]; try reflexivity.
  exfalso. now apply Hins.
Qed.

Lemma mapPos_stay chg pos assoc :
  pos < cfrom chg \/ (pos = cfrom chg /\ pos < cto chg) ->
  mapPos chg pos assoc = pos.
Proof.
  intros H. unfold mapPos.
  destruct (Z.ltb_spec pos (cfrom chg)); [reflexivity|].
  destruct H as [H|[H1 H2]]; [lia|].
  destruct (Z.ltb_spec pos (cto chg)); [|lia].
  destruct (Z.eqb_spec pos (cfrom chg)); [|lia].
  cbn [orb]. lia.
Qed.

(** An edit outside an inclusive marker moves it as a whole. *)
Lemma mapRange_outside chg r :
  inclusive (value r) = true ->
  from r <= to r ->
  outside chg r = true ->
  exists r',
    mapRange chg r = Some r'
    /\ to r' - from r' = to r - from r
    /\ value r' = value r.
Proof.
  intros Hinc Hle Hout.
  assert (Hmap : mapPos chg (to r) 1 - mapPos chg (from r) (-1) = to r - from r).
  { unfold outside in Hout. apply orb_true_iff in Hout.
    destruct Hout as [H|H]; apply andb_true_iff in H; destruct H as [H1 H2].
    - apply Z.leb_le in H1. apply Z.ltb_lt in H2.
      rewrite !mapPos_shift by lia. lia.
    - apply Z.leb_le in H1. apply Z.ltb_lt in H2.
      rewrite !mapPos_stay by lia. lia. }
  assert (Hcov : covered chg r = false).
  { unfold outside in Hout. unfold covered.
    destruct (Z.ltb_spec (cfrom chg) (from r)), (Z.ltb_spec (to r) (cto chg));
      try reflexivity.
    apply orb_true_iff in Hout.
    destruct Hout as [H1|H1]; apply andb_true_iff in H1; destruct H1 as [H1 H2];
      apply Z.leb_le in H1; lia. }
  unfold mapRange, startSide, endSide. rewrite Hcov, Hinc.
  change (0 <? -1) with false. rewrite andb_false_r, orb_false_r.
  destruct (Z.ltb_spec (mapPos chg (to r) 1) (mapPos chg (from r) (-1))); [lia|].
  eexists. split; [reflexivity|]. simpl. split; [exact Hmap|reflexivity].
Qed.

Lemma reproject_outside edits :
  forall r,
    inclusive (value r) = true ->
    from r <= to r ->
    allOutside edits r = true ->
    exists r',
      reproject edits r = Some r'
      /\ to r' - from r' = to r - from r
      /\ value r' = value r.
Proof.
  induction edits as [|chg edits IH]; intros r Hinc Hle Hall; simpl in *.
  - exists r. auto.
  - apply andb_true_iff in Hall. destruct Hall as [Hout Hrest].
    destruct (mapRange_outside chg r Hinc Hle Hout) as (r1 & E & Hlen & Hval).
    rewrite E in *.
    destruct (IH r1) as (r' & E' & Hlen' & Hval');
      [congruence | lia | exact Hrest |].
    exists r'. repeat split; [exact E' | lia | congruence].
Qed.

(** The removal effects delete marks, they never change one. *)
Lemma removal_keeps_ranges rs effect r :
  (forall x, effect <> addMark x) ->
  In r (applyEffect rs effect) -> In r rs.
Proof.
  intros Hrem. destruct effect as [x| |attr ref]; simpl.
  - now specialize (Hrem x).
  - intros H. apply filter_In in H. tauto.
  - intros H. apply filter_In in H. tauto.
Qed.

(** An edit between the ends of an inclusive marker stays inside it: the
    marker's start stays, its end moves by what is inserted less what is
    removed. *)
Lemma mapRange_inside chg r :
  inclusive (value r) = true ->
  from r <= cfrom chg -> cfrom chg <= cto chg -> cto chg <= to r ->
  mapRange chg r
  = Some (mkRange (from r)
                  (to r - (cto chg - cfrom chg) + JS.len (insert chg))
                  (value r)).
Proof.
  intros Hinc Ha Hab Hb.
  assert (Hn : 0 <= JS.len (insert chg)) by (unfold JS.len; lia).
  assert (Hcov : covered chg r = false).
  { unfold covered. apply andb_false_iff. left. apply Z.ltb_ge. lia. }
  assert (Hf : mapPos chg (from r) (-1) = from r).
  { unfold mapPos.
    destruct (Z.ltb_spec (from r) (cfrom chg)); [reflexivity|].
    assert (from r = cfrom chg) by lia.
    destruct (Z.ltb_spec (from r) (cto chg)); cbn [orb].
    - destruct (Z.eqb_spec (from r) (cfrom chg)); [cbn [orb]; lia | lia].
    - destruct (Z.eqb_spec (from r) (cto chg)); [|lia].
      destruct (Z.eqb_spec (cfrom chg) (cto chg)); [|lia].
      change (-1 <? 0) with true. cbn [andb].
      destruct (Z.eqb_spec (from r) (cfrom chg)); cbn [orb]; lia. }
  assert (Ht : mapPos chg (to r) 1
               = to r - (cto chg - cfrom chg) + JS.len (insert chg)).
  { unfold mapPos.
    destruct (Z.ltb_spec (to r) (cfrom chg)); [lia|].
    destruct (Z.ltb_spec (to r) (cto chg)); [lia|].
    change (1 <? 0) with false. rewrite andb_false_r. cbn [andb orb]. lia. }
  unfold mapRange, startSide, endSide. rewrite Hcov, Hinc, Hf, Ht.
  change (0 <? -1) with false. rewrite andb_false_r, orb_false_r.
  destruct (Z.ltb_spec (to r - (cto chg - cfrom chg) + JS.len (insert chg))
                       (from r)); [lia|reflexivity].
Qed.

(** What the state field does with a document change that carries no
    effect: every mark is reprojected. *)
Lemma update_reprojects rs chg r r' :
  In r rs -> mapRange chg r = Some r' ->
  In r' (update rs (mkTr (Some chg) [])).
Proof.
  intros Hin Hm. unfold update. simpl.
  apply in_flat_map. exists r. split; [exact Hin|]. rewrite Hm. now left.
Qed.

(** A change that reaches beyond both ends of the only mark of the set
    removes it. *)
Lemma update_drops_covered chg r :
  covered chg r = true -> update [r] (mkTr (Some chg) []) = [].
Proof.
  intros Hcov. unfold update. simpl. unfold mapRange. now rewrite Hcov.
Qed.

(** C9 (as the code has it).  A placeholder's marker is registered over
    exactly one character and is inclusive.  Reprojected through edits
    that lie outside it, it keeps its length and its decoration.  An edit
    between its ends (text typed at its start, at its end or over the
    marked character) resizes it: its length changes by what is inserted
    less what is removed.  A document change keeps every marker that the
    mapping keeps; a marker that stands alone in the set is removed by a
    change that reaches beyond both its ends.  The removal effects delete
    markers and leave the others as they are. *)
Theorem placeholder_marker_length :
  (forall start colorIndex lineIndex i st st',
      registerPlaceholder start colorIndex lineIndex i st = Some st' ->
      exists r,
        In r (marks (editor st'))
        /\ reference (value r) = nextRef st
        /\ inclusive (value r) = true
        /\ to r - from r = 1)
  /\ (forall edits r,
         inclusive (value r) = true ->
         to r - from r = 1 ->
         allOutside edits r = true ->
         exists r',
           reproject edits r = Some r'
           /\ to r' - from r' = 1
           /\ value r' = value r)
  /\ (forall chg r,
         inclusive (value r) = true ->
         from r <= cfrom chg -> cfrom chg <= cto chg -> cto chg <= to r ->
         mapRange chg r
         = Some (mkRange (from r)
                         (to r - (cto chg - cfrom chg) + JS.len (insert chg))
                         (value r)))
  /\ (forall rs chg r r',
         In r rs -> mapRange chg r = Some r' ->
         In r' (update rs (mkTr (Some chg) [])))
  /\ (forall chg r,
         covered chg r = true -> update [r] (mkTr (Some chg) []) = [])
  /\ (forall rs effect r,
         (forall x, effect <> addMark x) ->
         In r (applyEffect rs effect) -> In r rs).
Proof.
  split; [|split; [|split; [|split; [|split]]]].
  - intros start colorIndex lineIndex i st st'. unfold registerPlaceholder.
    destruct (EditorHelpers.indexFromPos _ _) as [f|]; [|discriminate].
    intros [= <-]. eexists. split; [apply addRange_In|].
    simpl. repeat split. lia.
  - intros edits r Hinc Hlen Hall.
    destruct (reproject_outside edits r Hinc) as (r' & E & Hl & Hv);
      [lia | exact Hall |].
    exists r'. repeat split; [exact E | lia | exact Hv].
  - exact mapRange_inside.
  - exact update_reprojects.
  - exact update_drops_covered.
  - exact removal_keeps_ranges.
Qed.

(** The theorem at the marker [5, 6): a character typed at offset 2 and
    the deletion of the range [8, 10) leave it one character long; the
    deletion of [4, 7), which reaches beyond both its ends, removes it
    from the set that holds it alone. *)
Lemma placeholder_marker_length_witness :
  (exists r',
      reproject [mkChange 2 2 "a"; mkChange 8 10 ""]
                (placeholderMark 5 0 0%nat) = Some r'
      /\ to r' - from r' = 1
      /\ value r' = value (placeholderMark 5 0 0%nat))
  /\ update [placeholderMark 5 0 0%nat] (mkTr (Some (mkChange 4 7 "")) []) = [].
Proof.
  split.
  - apply (proj1 (proj2 placeholder_marker_length)
             [mkChange 2 2 "a"; mkChange 8 10 ""] (placeholderMark 5 0 0%nat)).
    + reflexivity.
    + reflexivity.
    + reflexivity.
  - apply (proj1 (proj2 (proj2 (proj2 (proj2 placeholder_marker_length))))
             (mkChange 4 7 "") (placeholderMark 5 0 0%nat)).
    reflexivity.
Defined.

(** C9 as stated fails.  The placeholder of the snippet ["x#y"] is
    registered over [1, 2); when the selected [#] is replaced by the two
    typed characters ["ab"], the marker is reprojected to [1, 3): it has
    been resized to length 2, and is still there. *)
Lemma marker_grows_with_typed_text :
  option_map
    (fun st =>
       let e := replaceRange (editor st) "ab" (mkPos 0 1) (mkPos 0 2) in
       (doc e, map (fun r => (from r, to r, reference (value r))) (marks e)))
    (handleSnippet "x#y" (mkPos 0 0) 0
       (mkState (mkEditor ["x#y"] (mkPos 0 3, mkPos 0 3) []) [] 0))
  = Some (["xaby"], [(1, 3, 0%nat)])
  /\ mapRange (mkChange 1 2 "ab") (placeholderMark 1 0 0%nat)
     = Some (mkRange 1 3 (value (placeholderMark 1 0 0%nat)))
  /\ 3 - 1 <> 1.
Proof. repeat split; try (vm_compute; reflexivity). discriminate. Qed.

End SnippetFacts.

(* ================================================================== *)
(** * Further properties of the block scanner *)
(* ================================================================== *)

Module ScannerMore.

Import EditorHelpers ScannerFacts.

(** ** The pairing pass *)

(** Without permission to trigger inside code blocks the loop never
    answers with a code block type. *)
Lemma pairingLoop_never_code fuel stack pos :
  forall idx, isCodeBlock (pairingLoop fuel stack pos false idx) = false.
Proof.
  induction fuel as [|fuel IH]; intros idx; simpl; [reflexivity|].
  destruct (_ <=? _); [reflexivity|].
  destruct (findIndex stack idx (type (stackAt stack idx))); [apply IH|].
  destruct (isCodeBlock (type (stackAt stack idx))) eqn:E; [reflexivity|].
  simpl. destruct (_ && _); [apply IH | exact E].
Qed.

(** With [triggerInCodeBlocks] off the classification is NONE,
    DOLLAR_SINGLE or DOLLAR_MULTI, for every document and position. *)
Theorem no_code_block_unless_allowed :
  forall d pos,
    isCodeBlock (getLatexBlockType d pos false) = false
    /\ (getLatexBlockType d pos false = NONE
        \/ getLatexBlockType d pos false = DOLLAR_SINGLE
        \/ getLatexBlockType d pos false = DOLLAR_MULTI).
Proof.
  intros d pos.
  assert (H : isCodeBlock (getLatexBlockType d pos false) = false).
  { unfold getLatexBlockType, pairingPass.
    destruct (_ <? _); [reflexivity | apply pairingLoop_never_code]. }
  split; [exact H|].
  destruct (getLatexBlockType d pos false); auto; discriminate.
Qed.

Lemma findIndexFrom_skipn stack ty :
  forall i idx,
    findIndexFrom stack i idx ty = None ->
    Forall (fun e => type e <> ty) (skipn (Z.to_nat (idx + 1 - i)) stack).
Proof.
  induction stack as [|x stack IH]; intros i idx H.
  - rewrite skipn_nil. constructor.
  - simpl in H. destruct (Z.ltb_spec idx i).
    + replace (Z.to_nat (idx + 1 - i)) with 0%nat by lia. simpl.
      destruct (BlockType_eqb (type x) ty) eqn:E; [discriminate|].
      constructor.
      * intros Heq. apply BlockType_eqb_eq in Heq. congruence.
      * specialize (IH (i + 1) idx H).
        now replace (Z.to_nat (idx + 1 - (i + 1))) with 0%nat in IH by lia.
    + simpl in H.
      replace (Z.to_nat (idx + 1 - i)) with (S (Z.to_nat (idx + 1 - (i + 1)))) by lia.
      simpl. apply IH. exact H.
Qed.

Lemma stackAt_split (stack : list StackEntry) idx :
  0 <= idx < Z.of_nat (List.length stack) ->
  stack = firstn (Z.to_nat idx) stack
          ++ stackAt stack idx :: skipn (Z.to_nat (idx + 1)) stack.
Proof.
  intros H. unfold stackAt.
  replace (Z.to_nat (idx + 1)) with (S (Z.to_nat idx)) by lia.
  assert (Hn : (Z.to_nat idx < List.length stack)%nat) by lia.
  revert Hn. generalize (Z.to_nat idx). clear H idx.
  induction stack as [|x stack IH]; intros [|n] Hn; simpl in *; try lia.
  - reflexivity.
  - f_equal. apply IH. lia.
Qed.

(** Where an answer other than NONE comes from: an entry of the stack of
    that type with no entry of the same type behind it; it is on the
    cursor's line if it is a single dollar, and the flag is on if it is a
    code block. *)
Lemma pairingLoop_answer fuel stack pos t :
  forall idx b,
    0 <= idx ->
    pairingLoop fuel stack pos t idx = b ->
    b <> NONE ->
    exists pre e post,
      stack = pre ++ e :: post
      /\ type e = b
      /\ Forall (fun x => type x <> b) post
      /\ (b = DOLLAR_SINGLE -> eline e = line pos)
      /\ (isCodeBlock b = true -> t = true).
Proof.
  induction fuel as [|fuel IH]; intros idx b Hidx Hb Hne; simpl in Hb;
    [congruence|].
  destruct (Z.leb_spec (Z.of_nat (List.length stack)) idx); [congruence|].
  destruct (findIndex stack idx (type (stackAt stack idx))) as [n|] eqn:E.
  - apply findIndexFrom_gt in E. apply (IH (n + 1)); [lia|exact Hb|exact Hne].
  - assert (Hhere : type (stackAt stack idx) = b ->
                    (b = DOLLAR_SINGLE -> eline (stackAt stack idx) = line pos) ->
                    (isCodeBlock b = true -> t = true) ->
                    exists pre e post,
                      stack = pre ++ e :: post /\ type e = b
                      /\ Forall (fun x => type x <> b) post
                      /\ (b = DOLLAR_SINGLE -> eline e = line pos)
                      /\ (isCodeBlock b = true -> t = true)).
    { intros Hty Hl Hc.
      exists (firstn (Z.to_nat idx) stack), (stackAt stack idx),
        (skipn (Z.to_nat (idx + 1)) stack).
      split; [apply stackAt_split; lia|].
      split; [exact Hty|]. split; [|split; assumption].
      rewrite <- Hty. unfold findIndex in E.
      apply findIndexFrom_skipn in E.
      now replace (idx + 1 - 0) with (idx + 1) in E by lia. }
    destruct (isCodeBlock (type (stackAt stack idx))) eqn:Ec.
    + destruct t; simpl in Hb; [|congruence].
      apply Hhere; [exact Hb | | reflexivity].
      intros ->. rewrite Hb in Ec. discriminate.
    + rewrite andb_false_r in Hb.
      destruct (BlockType_eqb (type (stackAt stack idx)) DOLLAR_SINGLE) eqn:Es.
      * destruct (Z.eqb_spec (eline (stackAt stack idx)) (line pos)) as [El|Enl];
          simpl in Hb.
        -- apply Hhere; [exact Hb | auto |].
           rewrite <- Hb, Ec. discriminate.
        -- apply (IH (idx + 1)); [lia|exact Hb|exact Hne].
      * simpl in Hb. apply Hhere; [exact Hb | |].
        -- intros ->. rewrite Hb in Es. discriminate.
        -- rewrite <- Hb, Ec. discriminate.
Qed.

(** Every classification other than NONE is the type of a token that the
    scan pushed and that no later token of the same type closes; a
    DOLLAR_SINGLE answer comes from a token on the cursor's line, and a
    code block answer is only given when [triggerInCodeBlocks] is on. *)
Theorem classification_is_an_unmatched_token :
  forall d pos t,
    getLatexBlockType d pos t <> NONE ->
    exists pre e post,
      collectTokens d pos = pre ++ e :: post
      /\ type e = getLatexBlockType d pos t
      /\ Forall (fun x => type x <> getLatexBlockType d pos t) post
      /\ (getLatexBlockType d pos t = DOLLAR_SINGLE -> eline e = line pos)
      /\ (isCodeBlock (getLatexBlockType d pos t) = true -> t = true).
Proof.
  intros d pos t Hne.
  unfold getLatexBlockType in *. unfold pairingPass in *.
  destruct (_ <? _); [congruence|].
  eapply pairingLoop_answer; [| reflexivity | exact Hne]. lia.
Qed.

Lemma classification_is_an_unmatched_token_witness :
  exists pre e post,
    collectTokens ["a `b` $x"] (mkPos 0 8) = pre ++ e :: post
    /\ type e = getLatexBlockType ["a `b` $x"] (mkPos 0 8) true
    /\ Forall (fun x => type x <> getLatexBlockType ["a `b` $x"] (mkPos 0 8) true) post
    /\ (getLatexBlockType ["a `b` $x"] (mkPos 0 8) true = DOLLAR_SINGLE -> eline e = 0)
    /\ (isCodeBlock (getLatexBlockType ["a `b` $x"] (mkPos 0 8) true) = true
        -> true = true).
Proof.
  apply (classification_is_an_unmatched_token ["a `b` $x"] (mkPos 0 8) true).
  vm_compute. discriminate.
Defined.

(** ** Closed pairs and unmatched tokens *)

(** A token and the next token of its type form a closed pair: the pass
    skips both and everything between them, and goes on behind them. *)
Theorem closed_pair_is_skipped :
  forall x mid y rest pos t,
    type y = type x ->
    Forall (fun e => type e <> type x) mid ->
    pairingPass (x :: mid ++ y :: rest) pos t = pairingPass rest pos t.
Proof.
  intros x mid y rest pos t Hy Hmid.
  unfold pairingPass at 1.
  destruct (Z.ltb_spec (Z.of_nat (List.length (x :: mid ++ y :: rest))) 1)
    as [H|_]; [simpl List.length in H; lia|].
  cbn [pairingLoop].
  destruct (Z.leb_spec (Z.of_nat (List.length (x :: mid ++ y :: rest))) 0)
    as [H|_]; [simpl List.length in H; lia|].
  change (stackAt (x :: mid ++ y :: rest) 0) with x.
  unfold findIndex. cbn [findIndexFrom].
  change (0 <? 0) with false. cbn [andb].
  rewrite (findIndexFrom_first mid y rest (type x) Hmid Hy) by lia.
  replace (x :: mid ++ y :: rest) with ((x :: mid ++ [y]) ++ rest)
    by (simpl; now rewrite <- app_assoc).
  replace (0 + 1 + Z.of_nat (List.length mid) + 1)
    with (Z.of_nat (List.length (x :: mid ++ [y])))
    by (simpl List.length; rewrite length_app; simpl List.length; lia).
  apply pairingLoop_behind.
  rewrite !length_app. simpl. lia.
Qed.

Lemma closed_pair_is_skipped_witness :
  pairingPass (mkEntry DOLLAR_SINGLE 3
               :: [mkEntry CODE_SINGLE 3; mkEntry CODE_MULTI 2]
               ++ mkEntry DOLLAR_SINGLE 3 :: [mkEntry DOLLAR_MULTI 1])
              (mkPos 3 9) false
  = pairingPass [mkEntry DOLLAR_MULTI 1] (mkPos 3 9) false.
Proof.
  apply closed_pair_is_skipped.
  - reflexivity.
  - repeat constructor; discriminate.
Defined.

(** A token that no later token of its type closes decides: a code block
    gives its type or, when code blocks are not allowed, NONE; a single
    dollar on another line than the cursor's is passed over; every other
    token gives its type. *)
Theorem unmatched_token_decides :
  forall e post pos t,
    Forall (fun x => type x <> type e) post ->
    pairingPass (e :: post) pos t
    = if isCodeBlock (type e) then (if t then type e else NONE)
      else if BlockType_eqb (type e) DOLLAR_SINGLE && negb (eline e =? line pos)
           then pairingPass post pos t
           else type e.
Proof.
  intros e post pos t Hpost.
  unfold pairingPass at 1.
  destruct (Z.ltb_spec (Z.of_nat (List.length (e :: post))) 1)
    as [H|_]; [simpl List.length in H; lia|].
  cbn [pairingLoop].
  destruct (Z.leb_spec (Z.of_nat (List.length (e :: post))) 0)
    as [H|_]; [simpl List.length in H; lia|].
  change (stackAt (e :: post) 0) with e.
  unfold findIndex. cbn [findIndexFrom].
  change (0 <? 0) with false. cbn [andb].
  rewrite findIndexFrom_none by exact Hpost.
  destruct (isCodeBlock (type e)); [destruct t; reflexivity|].
  rewrite andb_false_r.
  destruct (_ && _); [|reflexivity].
  change (e :: post) with ([e] ++ post).
  change (0 + 1) with (Z.of_nat (List.length [e])).
  apply pairingLoop_behind. simpl. lia.
Qed.

Lemma unmatched_token_decides_witness :
  pairingPass [mkEntry CODE_MULTI 0; mkEntry DOLLAR_SINGLE 4] (mkPos 4 2) false
  = NONE.
Proof.
  rewrite (unmatched_token_decides (mkEntry CODE_MULTI 0)
             [mkEntry DOLLAR_SINGLE 4] (mkPos 4 2) false).
  - reflexivity.
  - repeat constructor; discriminate.
Defined.

(** ** Documents with no delimiter, or with one dollar sign *)

Lemma fold_lines_single d fm pos L e n :
  forall lo acc,
    (forall i a, lo <= i < lo + Z.of_nat n -> i <> L -> scanLine d fm pos i a = a) ->
    (forall a, scanLine d fm pos L a = a ++ [e]) ->
    fold_left (fun stack li => scanLine d fm pos li stack) (JS.range lo n) acc
    = if (lo <=? L) && (L <? lo + Z.of_nat n) then acc ++ [e] else acc.
Proof.
  induction n as [|n IH]; intros lo acc Hother HL; cbn [JS.range fold_left].
  - destruct (Z.leb_spec lo L), (Z.ltb_spec L (lo + Z.of_nat 0)); simpl; try reflexivity; lia.
  - destruct (Z.eq_dec lo L) as [->|Hne].
    + rewrite HL, IH; [|intros; apply Hother; lia|exact HL].
      destruct (Z.leb_spec (L + 1) L); [lia|]. cbn [andb].
      destruct (Z.leb_spec L L), (Z.ltb_spec L (L + Z.of_nat (S n)));
        simpl; try reflexivity; lia.
    + rewrite Hother by lia.
      rewrite IH; [|intros; apply Hother; lia|exact HL].
      destruct (Z.leb_spec (lo + 1) L), (Z.ltb_spec L (lo + 1 + Z.of_nat n)),
        (Z.leb_spec lo L), (Z.ltb_spec L (lo + Z.of_nat (S n)));
        simpl; try reflexivity; lia.
Qed.

Lemma fold_lines_nothing d fm pos n :
  forall lo acc,
    (forall i a, lo <= i < lo + Z.of_nat n -> scanLine d fm pos i a = a) ->
    fold_left (fun stack li => scanLine d fm pos li stack) (JS.range lo n) acc
    = acc.
Proof.
  induction n as [|n IH]; intros lo acc H; cbn [JS.range fold_left];
    [reflexivity|].
  rewrite H by lia. apply IH. intros i a Hi. apply H. lia.
Qed.

(** When no character that the scan looks at is a dollar sign or a
    backtick, nothing is pushed and the position is classified NONE. *)
Theorem plain_text_is_none :
  forall d pos t,
    (forall i k,
        Z.max 0 (line pos - 5000) <= i <= line pos ->
        skipped d i = false ->
        0 <= k ->
        (i = line pos -> k < ch pos) ->
        plainAt (getLine d i) k) ->
    collectTokens d pos = [] /\ getLatexBlockType d pos t = NONE.
Proof.
  intros d pos t Hplain.
  assert (E : collectTokens d pos = []).
  { unfold collectTokens. fold (frontMatterOf d).
    apply fold_lines_nothing. intros i a Hi.
    unfold scanLine. fold (skipped d i).
    destruct (skipped d i) eqn:Hs; [reflexivity|].
    apply scanLoop_plain. intros k Hk.
    apply Hplain; try assumption; try lia.
    destruct (Z.eqb_spec i (line pos)); intros; lia. }
  split; [exact E|]. unfold getLatexBlockType. now rewrite E.
Qed.

Lemma plain_text_is_none_witness :
  collectTokens ["ab"] (mkPos 0 2) = []
  /\ getLatexBlockType ["ab"] (mkPos 0 2) false = NONE.
Proof.
  apply (plain_text_is_none ["ab"] (mkPos 0 2) false).
  simpl line. simpl ch. intros i k Hi _ Hk Hcur.
  assert (i = 0) as -> by lia. specialize (Hcur eq_refl).
  assert (Hk' : k = 0 \/ k = 1) by lia.
  destruct Hk' as [-> | ->]; split; discriminate.
Defined.

(** At a dollar sign that has neither a backslash nor a dollar sign in
    front of it the body pushes one DOLLAR_SINGLE entry and stays. *)
Lemma scanChar_single text li c0 :
  JS.charAt text c0 = "$" ->
  (0 < c0 -> JS.charAt text (c0 - 1) <> "\" /\ JS.charAt text (c0 - 1) <> "$") ->
  scanChar text li c0 = (Some (mkEntry DOLLAR_SINGLE li), c0).
Proof.
  intros H0 Hprev.
  pose proof (charAt_in_range _ _ _ H0) as Hr.
  unfold scanChar. rewrite find_single, H0.
  change ("$" =? "$")%string with true. cbv iota.
  assert (Hesc : (0 <? c0) && (JS.charAt text (c0 - 1) =? "\")%string = false).
  { destruct (Z.ltb_spec 0 c0) as [Hpos|]; [|reflexivity].
    destruct (Hprev Hpos) as [Hb _].
    destruct (String.eqb_spec (JS.charAt text (c0 - 1)) "\"); [contradiction|reflexivity]. }
  rewrite Hesc. cbn [otherType c]. change (JS.len "$$") with 2.
  assert (Hm : (2 <=? c0 + 1) && substringMatches text "$$" (c0 - 2 + 1) = false).
  { destruct (Z.leb_spec 2 (c0 + 1)) as [Hge|]; [|reflexivity].
    destruct (Hprev ltac:(lia)) as [_ Hd].
    unfold substringMatches. change (JS.len "$$") with 2.
    destruct (Z.ltb_spec (JS.len text) (c0 - 2 + 1 + 2)); [reflexivity|].
    cbn [String.length JS.range forallb andb].
    replace (c0 - 2 + 1) with (c0 - 1) by lia.
    replace (c0 - 1 - (c0 - 1)) with 0 by lia.
    change (JS.charAt "$$" 0) with "$".
    destruct (String.eqb_spec (JS.charAt text (c0 - 1)) "$"); [contradiction|reflexivity]. }
  rewrite Hm. reflexivity.
Qed.

Lemma scanLoop_lone fuel text li c0 :
  JS.charAt text c0 = "$" ->
  (0 < c0 -> JS.charAt text (c0 - 1) <> "\") ->
  forall j acc,
    c0 <= j ->
    (forall k, 0 <= k <= j -> k <> c0 -> plainAt text k) ->
    (Z.to_nat (j + 1) <= fuel)%nat ->
    scanLoop fuel text li j acc = acc ++ [mkEntry DOLLAR_SINGLE li].
Proof.
  intros H0 Hesc.
  pose proof (charAt_in_range _ _ _ H0) as Hr.
  induction fuel as [|fuel IH]; intros j acc Hj Hp Hf; [lia|].
  cbn [scanLoop].
  destruct (Z.ltb_spec j 0); [lia|].
  destruct (Z.eq_dec j c0) as [->|Hne].
  - rewrite scanChar_single; [|exact H0|].
    + apply scanLoop_plain. intros k Hk. apply Hp; lia.
    + intros Hpos. split; [auto|]. apply Hp; lia.
  - rewrite scanChar_plain by (apply Hp; lia).
    apply IH; [lia | intros k Hk ?; apply Hp; lia | lia].
Qed.

(** One dollar sign, not escaped, and nothing else: the position is
    inside inline math if the dollar sign is on the cursor's line; a
    dollar sign on a line above does not reach the cursor. *)
Theorem lone_dollar_opens_on_its_line_only :
  forall d pos t L c0,
    Z.max 0 (line pos - 5000) <= L <= line pos ->
    skipped d L = false ->
    JS.charAt (getLine d L) c0 = "$" ->
    (0 < c0 -> JS.charAt (getLine d L) (c0 - 1) <> "\") ->
    (L = line pos -> c0 < ch pos) ->
    ScannerTerms.plainExceptAt d pos L c0 ->
    collectTokens d pos = [mkEntry DOLLAR_SINGLE L]
    /\ getLatexBlockType d pos t
       = if L =? line pos then DOLLAR_SINGLE else NONE.
Proof.
  intros d pos t L c0 HL Hskip H0 Hesc Hcur Hplain.
  pose proof (charAt_in_range _ _ _ H0) as Hr.
  assert (E : collectTokens d pos = [mkEntry DOLLAR_SINGLE L]).
  { unfold collectTokens. fold (frontMatterOf d).
    set (start := Z.max 0 (line pos - 5000)) in *.
    rewrite (fold_lines_single d (frontMatterOf d) pos L (mkEntry DOLLAR_SINGLE L)).
    - destruct (Z.leb_spec start L),
        (Z.ltb_spec L (start + Z.of_nat (Z.to_nat (line pos - start + 1))));
        simpl; try reflexivity; lia.
    - intros i a Hi Hne. unfold scanLine. fold (skipped d i).
      destruct (skipped d i) eqn:Hs; [reflexivity|].
      apply scanLoop_plain. intros k Hk.
      apply Hplain; try assumption; try lia.
      destruct (Z.eqb_spec i (line pos)); intros; lia.
    - intros a. unfold scanLine. fold (skipped d L). rewrite Hskip.
      apply scanLoop_lone with (c0 := c0); try assumption.
      + destruct (Z.eqb_spec L (line pos)) as [e|]; [specialize (Hcur e)|]; lia.
      + intros k Hk Hk0. apply Hplain; try assumption; try lia.
        destruct (Z.eqb_spec L (line pos)); intros; lia.
      + lia. }
  split; [exact E|].
  unfold getLatexBlockType. rewrite E.
  rewrite pairingPass_unmatched by constructor.
  cbn [type eline isCodeBlock isDollarBlock BlockType_eqb orb negb andb].
  destruct (L =? line pos); reflexivity.
Qed.

Lemma lone_dollar_opens_on_its_line_only_witness :
  collectTokens ["$a"; "b"] (mkPos 1 1) = [mkEntry DOLLAR_SINGLE 0]
  /\ getLatexBlockType ["$a"; "b"] (mkPos 1 1) true = NONE.
Proof.
  apply (lone_dollar_opens_on_its_line_only ["$a"; "b"] (mkPos 1 1) true 0 0).
  - simpl. lia.
  - reflexivity.
  - reflexivity.
  - lia.
  - simpl. lia.
  - unfold ScannerTerms.plainExceptAt. simpl line. simpl ch.
    intros i k Hi _ Hk Hcur Hnot.
    assert (Hcase : i = 0 \/ i = 1) by lia.
    destruct Hcase as [-> | ->].
    + assert (Hk' : k = 1 \/ 2 <= k) by (destruct (Z.eq_dec k 0); [exfalso; auto|lia]).
      destruct Hk' as [-> | Hk']; [split; discriminate|].
      unfold plainAt, JS.charAt, getLine. simpl.
      destruct (Z.ltb_spec k 0); [lia|].
      destruct (Z.to_nat k) as [|[|n]] eqn:En; try lia; split; discriminate.
    + specialize (Hcur eq_refl). assert (k = 0) as -> by lia.
      split; discriminate.
Defined.

(** ** Every token is a real delimiter *)


(** A wide token with a backslash in front of it is pushed all the same. *)
Example wide_token_behind_a_backslash :
  JS.charAt "\$$x" 0 = "\"
  /\ collectTokensAt ["\$$x"] (mkPos 0 4) = [(mkEntry DOLLAR_MULTI 0, 2)]
  /\ getLatexBlockType ["\$$x"] (mkPos 0 4) false = DOLLAR_MULTI.
Proof. repeat split. Qed.

End ScannerMore.

(* ================================================================== *)
(** * Further properties of editor_helpers.ts *)
(* ================================================================== *)

Module HelperFacts.

Import EditorHelpers.

(** ** Front matter *)

Lemma find_range_spec (f : Z -> bool) n :
  forall lo x,
    find f (JS.range lo n) = Some x ->
    lo <= x < lo + Z.of_nat n
    /\ f x = true
    /\ forall y, lo <= y < x -> f y = false.
Proof.
  induction n as [|n IH]; intros lo x; simpl; [discriminate|].
  destruct (f lo) eqn:E.
  - intros [= <-]. repeat split; [lia | lia | exact E | intros; lia].
  - intros H. apply IH in H. destruct H as (Hr & Hx & Hmin).
    repeat split; [lia | lia | exact Hx |].
    intros y Hy. destruct (Z.eq_dec y lo) as [->|]; [exact E|apply Hmin; lia].
Qed.

(** What [getFrontMatterBounds] finds. *)
Lemma getFrontMatterBounds_spec d b :
  getFrontMatterBounds d = Some b ->
  0 <= startLine b < Z.min 5 (lastLine d)
  /\ startLine b < endLine b <= Z.min 50 (lastLine d)
  /\ getLine d (startLine b) = "---"
  /\ getLine d (endLine b) = "---"
  /\ (forall i, 0 <= i < startLine b -> getLine d i <> "---")
  /\ (forall i, startLine b < i < endLine b -> getLine d i <> "---").
Proof.
  unfold getFrontMatterBounds.
  destruct (find _ (JS.range 0 _)) as [s|] eqn:Es; [|discriminate].
  destruct (find _ (JS.range (s + 1) _)) as [e|] eqn:Ee; [|discriminate].
  intros [= <-]. simpl.
  apply find_range_spec in Es. destruct Es as (Hs & Hsf & Hsm).
  apply find_range_spec in Ee. destruct Ee as (He & Hef & Hem).
  apply String.eqb_eq in Hsf. apply String.eqb_eq in Hef.
  repeat split; try assumption; try lia.
  - intros i Hi E. specialize (Hsm i ltac:(lia)).
    apply String.eqb_neq in Hsm. contradiction.
  - intros i Hi E. specialize (Hem i ltac:(lia)).
    apply String.eqb_neq in Hem. contradiction.
Qed.

(** The bounds that [getFrontMatterBounds] reports are the first line
    that is exactly [---] among the first five lines, the last line of the
    document excepted, and the next such line, at most line 50; both are
    lines of the document. *)
Theorem front_matter_bounds_are_the_first_fences :
  forall d b,
    getFrontMatterBounds d = Some b ->
    0 <= startLine b < Z.min 5 (lastLine d)
    /\ startLine b < endLine b <= Z.min 50 (lastLine d)
    /\ getLine d (startLine b) = "---"
    /\ getLine d (endLine b) = "---"
    /\ (forall i, 0 <= i < startLine b -> getLine d i <> "---")
    /\ (forall i, startLine b < i < endLine b -> getLine d i <> "---").
Proof.
  intros d b. unfold getFrontMatterBounds.
  destruct (find _ (JS.range 0 _)) as [s|] eqn:Es; [|discriminate].
  destruct (find _ (JS.range (s + 1) _)) as [e|] eqn:Ee; [|discriminate].
  intros [= <-]. simpl.
  apply find_range_spec in Es. destruct Es as (Hs & Hsf & Hsm).
  apply find_range_spec in Ee. destruct Ee as (He & Hef & Hem).
  apply String.eqb_eq in Hsf. apply String.eqb_eq in Hef.
  repeat split; try assumption; try lia.
  - intros i Hi E. specialize (Hsm i ltac:(lia)).
    apply String.eqb_neq in Hsm. contradiction.
  - intros i Hi E. specialize (Hem i ltac:(lia)).
    apply String.eqb_neq in Hem. contradiction.
Qed.

Lemma front_matter_bounds_are_the_first_fences_witness :
  0 <= 0 < Z.min 5 (lastLine ["---"; "a: b"; "---"; "text"])
  /\ 0 < 2 <= Z.min 50 (lastLine ["---"; "a: b"; "---"; "text"])
  /\ getLine ["---"; "a: b"; "---"; "text"] 0 = "---"
  /\ getLine ["---"; "a: b"; "---"; "text"] 2 = "---"
  /\ (forall i, 0 <= i < 0 -> getLine ["---"; "a: b"; "---"; "text"] i <> "---")
  /\ (forall i, 0 < i < 2 -> getLine ["---"; "a: b"; "---"; "text"] i <> "---").
Proof.
  apply (front_matter_bounds_are_the_first_fences
           ["---"; "a: b"; "---"; "text"] (mkBounds 0 2)).
  reflexivity.
Defined.

(** A position is in the front matter block only strictly between the two
    fences: never on line 0, never on a fence line, never past line 49. *)
Theorem in_front_matter_is_strictly_inside :
  forall d pos,
    isInFrontMatterBlock d pos = true ->
    exists b,
      getFrontMatterBounds d = Some b
      /\ startLine b < line pos < endLine b
      /\ 1 <= line pos <= 49
      /\ getLine d (line pos) <> "---".
Proof.
  intros d pos. unfold isInFrontMatterBlock.
  destruct (line pos =? 0); [discriminate|].
  destruct (getFrontMatterBounds d) as [b|] eqn:E; [|discriminate].
  intros H. apply andb_true_iff in H. destruct H as [H1 H2].
  apply Z.ltb_lt in H1. apply Z.ltb_lt in H2.
  destruct (getFrontMatterBounds_spec d b E)
    as (Hs & He & _ & _ & _ & Hbetween).
  exists b. repeat split; try lia. apply Hbetween. lia.
Qed.

Lemma in_front_matter_is_strictly_inside_witness :
  exists b,
    getFrontMatterBounds ["---"; "a: b"; "---"; "text"] = Some b
    /\ startLine b < 1 < endLine b
    /\ 1 <= 1 <= 49
    /\ getLine ["---"; "a: b"; "---"; "text"] 1 <> "---".
Proof.
  apply (in_front_matter_is_strictly_inside
           ["---"; "a: b"; "---"; "text"] (mkPos 1 2)).
  reflexivity.
Defined.

(** ** matchWordBackwards *)

Lemma range_snoc lo n : JS.range lo (S n) = JS.range lo n ++ [lo + Z.of_nat n].
Proof.
  revert lo. induction n as [|n IH]; intros lo.
  - simpl. now replace (lo + 0) with lo by lia.
  - change (JS.range lo (S (S n))) with (lo :: JS.range (lo + 1) (S n)).
    rewrite IH. simpl. do 3 f_equal. lia.
Qed.

Lemma append_assoc (a b c0 : string) : ((a ++ b) ++ c0 = a ++ (b ++ c0))%string.
Proof. induction a as [|x a IH]; simpl; [reflexivity|now rewrite IH]. Qed.

Lemma append_empty_r (a : string) : (a ++ "" = a)%string.
Proof. induction a as [|x a IH]; simpl; [reflexivity|now rewrite IH]. Qed.

Lemma textBetween_snoc text lo n :
  HelperTerms.textBetween text lo (S n)
  = (HelperTerms.textBetween text lo n ++ JS.charAt text (lo + Z.of_nat n))%string.
Proof.
  unfold HelperTerms.textBetween. rewrite range_snoc, map_app, fold_right_app.
  simpl. rewrite append_empty_r.
  generalize (JS.charAt text (lo + Z.of_nat n)) as z.
  generalize (map (JS.charAt text) (JS.range lo n)) as l.
  induction l as [|x l IH]; intros z; simpl; [reflexivity|].
  now rewrite IH, append_assoc.
Qed.

(** The loop over the indices [lo + m - 1, ..., lo]: it accepts the [n]
    characters in front of [lo + m] that pass the test and stops at the
    first that does not. *)
Lemma matchLoop_spec text charPredicate lo :
  forall m q0 q sep,
    matchLoop text charPredicate (rev (JS.range lo m)) q0 = (q, sep) ->
    exists n,
      (n <= m)%nat
      /\ q = (HelperTerms.textBetween text (lo + Z.of_nat m - Z.of_nat n) n ++ q0)%string
      /\ (forall i, lo + Z.of_nat m - Z.of_nat n <= i < lo + Z.of_nat m ->
                    charPredicate (JS.charAt text i) = true)
      /\ match sep with
         | Some ch0 => (n < m)%nat
                       /\ ch0 = JS.charAt text (lo + Z.of_nat m - Z.of_nat n - 1)
                       /\ charPredicate ch0 = false
         | None => n = m
         end.
Proof.
  induction m as [|m IH]; intros q0 q sep.
  - simpl. intros [= <- <-]. exists 0%nat. repeat split; try lia.
  - rewrite range_snoc, rev_app_distr. cbn [rev app matchLoop].
    destruct (charPredicate (JS.charAt text (lo + Z.of_nat m))) eqn:Ep;
      cbn [negb].
    + intros H. apply IH in H. destruct H as (n & Hn & Hq & Hall & Hsep).
      exists (S n). split; [lia|]. split; [|split].
      * rewrite Hq, textBetween_snoc, append_assoc.
        replace (lo + Z.of_nat (S m) - Z.of_nat (S n))
          with (lo + Z.of_nat m - Z.of_nat n) by lia.
        replace (lo + Z.of_nat m - Z.of_nat n + Z.of_nat n)
          with (lo + Z.of_nat m) by lia.
        reflexivity.
      * intros i Hi.
        destruct (Z.eq_dec i (lo + Z.of_nat m)) as [->|]; [exact Ep|].
        apply Hall. lia.
      * destruct sep as [ch0|].
        -- destruct Hsep as (Hlt & Hc & Hp). repeat split; [lia| |exact Hp].
           rewrite Hc. f_equal. lia.
        -- lia.
    + intros [= <- <-]. exists 0%nat. repeat split; try lia.
      * f_equal. lia.
      * exact Ep.
Qed.

Lemma charAt_some s i :
  0 <= i < JS.len s -> exists ch0, JS.charAt s i = String ch0 "".
Proof.
  unfold JS.charAt, JS.len. intros H.
  destruct (Z.ltb_spec i 0); [lia|].
  assert (Hn : (Z.to_nat i < String.length s)%nat) by lia.
  revert Hn. generalize (Z.to_nat i). clear.
  induction s as [|a s IH]; intros [|n] Hn; simpl in *; try lia.
  - eauto.
  - apply IH. lia.
Qed.

Lemma get_nat_charAt s (k : nat) ch0 :
  JS.charAt s (Z.of_nat k) = String ch0 "" -> String.get k s = Some ch0.
Proof.
  unfold JS.charAt. destruct (Z.ltb_spec (Z.of_nat k) 0); [lia|].
  rewrite Nat2Z.id. destruct (String.get k s); [|discriminate]. congruence.
Qed.

Lemma substring_step s :
  forall k n ch0,
    String.get k s = Some ch0 ->
    String.substring k (S n) s = String ch0 (String.substring (S k) n s).
Proof.
  induction s as [|a s IH]; intros [|k] n ch0; simpl; try discriminate.
  - intros [= ->]. destruct s; reflexivity.
  - intros H. apply IH. exact H.
Qed.

(** In range, the characters put together are the substring. *)
Lemma textBetween_substring text :
  forall n (k : nat),
    (k + n <= String.length text)%nat ->
    HelperTerms.textBetween text (Z.of_nat k) n = String.substring k n text.
Proof.
  induction n as [|n IH]; intros k Hk.
  - unfold HelperTerms.textBetween. simpl.
    clear. revert k. induction text as [|a t IHt]; intros [|k]; simpl; auto.
  - destruct (charAt_some text (Z.of_nat k)) as [ch0 Hc];
      [unfold JS.len; lia|].
    rewrite (substring_step text k n ch0 (get_nat_charAt _ _ _ Hc)).
    unfold HelperTerms.textBetween in *. cbn [JS.range map fold_right].
    rewrite Hc. simpl. f_equal.
    replace (Z.of_nat k + 1) with (Z.of_nat (S k)) by lia.
    apply IH. lia.
Qed.

Lemma substring_length s :
  forall k n, (k + n <= String.length s)%nat ->
              String.length (String.substring k n s) = n.
Proof.
  induction s as [|a s IH]; intros [|k] [|n] H; simpl in *; try lia; auto.
  - f_equal. apply (IH 0%nat). lia.
  - apply IH. lia.
  - apply IH. lia.
Qed.

(** What [matchWordBackwards] returns, in terms of the line. *)
Lemma matchWordBackwards_spec :
  forall e cursor charPredicate maxLookBack q sep,
    0 <= ch cursor <= JS.len (getLine (doc e) (line cursor)) ->
    0 <= maxLookBack ->
    matchWordBackwards e cursor charPredicate maxLookBack = (q, sep) ->
    JS.len q <= Z.min (ch cursor) maxLookBack
    /\ q = JS.substring (getLine (doc e) (line cursor))
                        (ch cursor - JS.len q) (ch cursor)
    /\ (forall i, ch cursor - JS.len q <= i < ch cursor ->
                  charPredicate (JS.charAt (getLine (doc e) (line cursor)) i) = true)
    /\ match sep with
       | Some ch0 =>
           ch0 = JS.charAt (getLine (doc e) (line cursor)) (ch cursor - JS.len q - 1)
           /\ charPredicate ch0 = false
           /\ JS.len q < Z.min (ch cursor) maxLookBack
       | None => JS.len q = Z.min (ch cursor) maxLookBack
       end.
Proof.
  intros e cursor charPredicate maxLookBack q sep Hch Hmax.
  unfold matchWordBackwards.
  set (text := getLine (doc e) (line cursor)) in *.
  set (start := Z.max 0 (ch cursor - maxLookBack)).
  intros H. apply matchLoop_spec in H.
  destruct H as (n & Hn & Hq & Hall & Hsep).
  rewrite append_empty_r in Hq.
  replace (start + Z.of_nat (Z.to_nat (ch cursor - start))) with (ch cursor)
    in * by lia.
  assert (Hsub : q = String.substring (Z.to_nat (ch cursor) - n) n text).
  { rewrite Hq.
    replace (ch cursor - Z.of_nat n) with (Z.of_nat (Z.to_nat (ch cursor) - n)) by lia.
    apply textBetween_substring. unfold JS.len in Hch. lia. }
  assert (Hlen : JS.len q = Z.of_nat n).
  { unfold JS.len. rewrite Hsub, substring_length; [reflexivity|].
    unfold JS.len in Hch. lia. }
  rewrite Hlen.
  split; [lia|]. split; [|split].
  - rewrite Hsub. unfold JS.substring.
    rewrite !Z.max_r by lia.
    replace (Z.to_nat (ch cursor - Z.of_nat n)) with (Z.to_nat (ch cursor) - n)%nat by lia.
    f_equal. unfold JS.len in Hch. lia.
  - exact Hall.
  - destruct sep as [ch0|].
    + destruct Hsep as (Hlt & Hc & Hp). repeat split; [exact Hc|exact Hp|lia].
    + lia.
Qed.

(** With the cursor inside its line, [matchWordBackwards] returns the
    text right in front of the cursor: every character of the query
    passes the test, the query is at most [maxLookBack] characters long,
    and the separator, if any, is the character in front of the query and
    does not pass the test; without a separator the query reaches the
    start of the line or the look-back limit. *)
Theorem match_word_backwards_is_the_text_before_the_cursor :
  forall e cursor charPredicate maxLookBack q sep,
    0 <= ch cursor <= JS.len (getLine (doc e) (line cursor)) ->
    0 <= maxLookBack ->
    matchWordBackwards e cursor charPredicate maxLookBack = (q, sep) ->
    JS.len q <= Z.min (ch cursor) maxLookBack
    /\ q = JS.substring (getLine (doc e) (line cursor))
                        (ch cursor - JS.len q) (ch cursor)
    /\ (forall i, ch cursor - JS.len q <= i < ch cursor ->
                  charPredicate (JS.charAt (getLine (doc e) (line cursor)) i) = true)
    /\ match sep with
       | Some ch0 =>
           ch0 = JS.charAt (getLine (doc e) (line cursor)) (ch cursor - JS.len q - 1)
           /\ charPredicate ch0 = false
           /\ JS.len q < Z.min (ch cursor) maxLookBack
       | None => JS.len q = Z.min (ch cursor) maxLookBack
       end.
Proof.
  intros e cursor charPredicate maxLookBack q sep Hch Hmax H.
  now apply (matchWordBackwards_spec e cursor charPredicate maxLookBack).
Qed.

Lemma match_word_backwards_is_the_text_before_the_cursor_witness :
  JS.len "wor" <= Z.min 7 50
  /\ "wor" = JS.substring "the wor" (7 - JS.len "wor") 7
  /\ (forall i, 7 - JS.len "wor" <= i < 7 ->
                negb (JS.charAt "the wor" i =? " ")%string = true)
  /\ (" " = JS.charAt "the wor" (7 - JS.len "wor" - 1)
      /\ negb (" " =? " ")%string = false
      /\ JS.len "wor" < Z.min 7 50).
Proof.
  apply (match_word_backwards_is_the_text_before_the_cursor
           (mkEditor ["the wor"] (mkPos 0 7, mkPos 0 7) []) (mkPos 0 7)
           (fun s => negb (s =? " ")%string) 50 "wor" (Some " ")).
  - vm_compute. split; discriminate.
  - lia.
  - reflexivity.
Defined.

(** ** Offsets and positions *)

Lemma lineFrom_step d :
  forall k, (k < List.length d)%nat ->
            CM.lineFrom d (S k) = CM.lineFrom d k + JS.len (nth k d "") + 1.
Proof.
  induction d as [|l d IH]; intros k Hk; simpl in Hk; [lia|].
  destruct k as [|k].
  - simpl. destruct d; simpl; lia.
  - change (CM.lineFrom (l :: d) (S (S k)))
      with (JS.len l + 1 + CM.lineFrom d (S k)).
    rewrite IH by lia. simpl. lia.
Qed.

Lemma lineFrom_zero d : CM.lineFrom d 0 = 0.
Proof. destruct d; reflexivity. Qed.

Lemma len_nonneg s : 0 <= JS.len s.
Proof. unfold JS.len. lia. Qed.

Lemma lineFrom_mono d :
  forall k1 k2, (k1 <= k2 <= List.length d)%nat ->
                CM.lineFrom d k1 + Z.of_nat (k2 - k1) <= CM.lineFrom d k2.
Proof.
  intros k1 k2 [H1 H2]. induction k2 as [|k2 IH].
  - replace k1 with 0%nat by lia. rewrite lineFrom_zero. simpl. lia.
  - destruct (Nat.eq_dec k1 (S k2)) as [->|Hne].
    + replace (S k2 - S k2)%nat with 0%nat by lia. lia.
    + rewrite lineFrom_step by lia.
      pose proof (len_nonneg (nth k2 d "")).
      specialize (IH ltac:(lia) ltac:(lia)). lia.
Qed.

Lemma docLength_last d :
  d <> [] ->
  CM.docLength d
  = CM.lineFrom d (List.length d - 1)
    + JS.len (nth (List.length d - 1) d "").
Proof.
  intros Hd. unfold CM.docLength. destruct d as [|l d]; [contradiction|].
  replace (List.length (l :: d)) with (S (List.length (l :: d) - 1)) at 1
    by (simpl; lia).
  rewrite lineFrom_step by (simpl; lia). lia.
Qed.

(** The line that [lineAt] finds holds the offset. *)
Lemma lineAtOffset_spec d :
  forall li from offset,
    d <> [] ->
    exists k,
      (k < List.length d)%nat
      /\ CM.lineAtOffset d li from offset
         = (li + Z.of_nat k, from + CM.lineFrom d k)
      /\ (from <= offset -> from + CM.lineFrom d k <= offset)
      /\ (offset <= from + CM.lineFrom d k + JS.len (nth k d "")
          \/ k = (List.length d - 1)%nat).
Proof.
  induction d as [|l d IH]; intros li from offset Hd; [contradiction|].
  destruct d as [|l2 d].
  - exists 0%nat. simpl. repeat split; try lia.
    all: try (f_equal; lia).
    all: try (right; reflexivity).
  - change (CM.lineAtOffset (l :: l2 :: d) li from offset)
      with (if offset <=? from + JS.len l then (li, from)
            else CM.lineAtOffset (l2 :: d) (li + 1) (from + JS.len l + 1) offset).
    destruct (Z.leb_spec offset (from + JS.len l)).
    + exists 0%nat. repeat split.
      * simpl. lia.
      * simpl. f_equal; lia.
      * simpl. lia.
      * left. simpl. lia.
    + destruct (IH (li + 1) (from + JS.len l + 1) offset) as (k & Hk & E & Hlo & Hhi);
        [discriminate|].
      exists (S k). repeat split.
      * simpl in *. lia.
      * rewrite E. f_equal; [lia|].
        change (CM.lineFrom (l :: l2 :: d) (S k))
          with (JS.len l + 1 + CM.lineFrom (l2 :: d) k). lia.
      * intros _.
        change (CM.lineFrom (l :: l2 :: d) (S k))
          with (JS.len l + 1 + CM.lineFrom (l2 :: d) k).
        specialize (Hlo ltac:(lia)). lia.
      * change (CM.lineFrom (l :: l2 :: d) (S k))
          with (JS.len l + 1 + CM.lineFrom (l2 :: d) k).
        change (nth (S k) (l :: l2 :: d) "") with (nth k (l2 :: d) "").
        destruct Hhi as [Hhi|Hhi]; [left; lia|right].
        simpl in *. lia.
Qed.

Lemma getLine_nat d (k : nat) : getLine d (Z.of_nat k) = nth k d "".
Proof.
  unfold getLine. destruct (Z.ltb_spec (Z.of_nat k) 0); [lia|].
  now rewrite Nat2Z.id.
Qed.

(** Offsets and positions agree.  Every offset of the document has a
    position whose index is the offset again; and every position inside a
    line of the document has an index whose position it is. *)
Theorem offsets_and_positions_round_trip :
  (forall d offset,
      d <> [] ->
      0 <= offset <= CM.docLength d ->
      exists p,
        posFromIndex d offset = Some p
        /\ 0 <= line p < Z.of_nat (List.length d)
        /\ 0 <= ch p <= JS.len (getLine d (line p))
        /\ indexFromPos d p = Some offset)
  /\ (forall d p,
         0 <= line p < Z.of_nat (List.length d) ->
         0 <= ch p <= JS.len (getLine d (line p)) ->
         exists offset,
           indexFromPos d p = Some offset
           /\ 0 <= offset <= CM.docLength d
           /\ posFromIndex d offset = Some p).
Proof.
  split.
  - intros d offset Hd Hoff. unfold posFromIndex.
    destruct (Z.ltb_spec offset 0); [lia|].
    destruct (Z.ltb_spec (CM.docLength d) offset); [lia|]. cbn [orb].
    destruct (lineAtOffset_spec d 0 0 offset Hd) as (k & Hk & E & Hlo & Hhi).
    rewrite E. eexists. split; [reflexivity|]. cbn [line ch].
    specialize (Hlo ltac:(lia)).
    assert (Hup : offset <= CM.lineFrom d k + JS.len (nth k d "")).
    { destruct Hhi as [Hhi | ->]; [lia|].
      rewrite docLength_last in Hoff by exact Hd. lia. }
    replace (0 + Z.of_nat k) with (Z.of_nat k) by lia.
    rewrite getLine_nat.
    split; [lia|]. split; [lia|].
    unfold indexFromPos, CM.lineAtNumber. cbn [line ch].
    destruct (Z.ltb_spec (Z.of_nat k) 0); [lia|].
    destruct (Z.leb_spec (Z.of_nat (List.length d)) (Z.of_nat k)); [lia|].
    cbn [orb]. rewrite Nat2Z.id, getLine_nat. f_equal. lia.
  - intros d [n c0] Hn Hc. cbn [line ch] in *.
    assert (Hd : d <> []) by (intros ->; simpl in Hn; lia).
    unfold indexFromPos, CM.lineAtNumber. cbn [line ch].
    destruct (Z.ltb_spec n 0); [lia|].
    destruct (Z.leb_spec (Z.of_nat (List.length d)) n); [lia|]. cbn [orb].
    eexists. split; [reflexivity|].
    set (k0 := Z.to_nat n).
    assert (Hk0 : (k0 < List.length d)%nat) by lia.
    assert (Hline : getLine d n = nth k0 d "").
    { replace n with (Z.of_nat k0) by lia. apply getLine_nat. }
    rewrite Hline in *.
    rewrite (Z.max_r 0 c0) by lia.
    rewrite Z.min_l by lia.
    assert (Hge0 : 0 <= CM.lineFrom d k0).
    { pose proof (lineFrom_mono d 0 k0 ltac:(lia)) as Hm.
      rewrite lineFrom_zero in Hm. lia. }
    assert (Hend : CM.lineFrom d k0 + JS.len (nth k0 d "") <= CM.docLength d).
    { rewrite docLength_last by exact Hd.
      destruct (Nat.eq_dec k0 (List.length d - 1)) as [Heq|Hne];
        [rewrite Heq; lia|].
      pose proof (lineFrom_mono d (S k0) (List.length d - 1) ltac:(lia)) as Hm.
      rewrite lineFrom_step in Hm by lia.
      pose proof (len_nonneg (nth (List.length d - 1) d "")). lia. }
    split; [lia|].
    unfold posFromIndex.
    destruct (Z.ltb_spec (CM.lineFrom d k0 + c0) 0); [lia|].
    destruct (Z.ltb_spec (CM.docLength d) (CM.lineFrom d k0 + c0)); [lia|].
    cbn [orb].
    destruct (lineAtOffset_spec d 0 0 (CM.lineFrom d k0 + c0) Hd)
      as (k & Hk & E & Hlo & Hhi).
    rewrite E. specialize (Hlo ltac:(lia)).
    assert (k = k0) as ->.
    { destruct (Nat.lt_trichotomy k k0) as [Hlt|[Heq|Hgt]]; [|exact Heq|].
      - exfalso. destruct Hhi as [Hhi|Hhi]; [|lia].
        pose proof (lineFrom_mono d (S k) k0 ltac:(lia)) as Hm.
        rewrite lineFrom_step in Hm by lia. lia.
      - exfalso.
        pose proof (lineFrom_mono d (S k0) k ltac:(lia)) as Hm.
        rewrite lineFrom_step in Hm by lia. lia. }
    f_equal. f_equal; lia.
Qed.

Lemma offsets_and_positions_round_trip_witness :
  exists p,
    posFromIndex ["ab"; "cde"] 4 = Some p
    /\ 0 <= line p < 2
    /\ 0 <= ch p <= JS.len (getLine ["ab"; "cde"] (line p))
    /\ indexFromPos ["ab"; "cde"] p = Some 4.
Proof.
  apply (proj1 offsets_and_positions_round_trip ["ab"; "cde"] 4).
  - discriminate.
  - vm_compute. split; discriminate.
Defined.

End HelperFacts.

(* ================================================================== *)
(** * Further properties of the dictionary providers *)
(* ================================================================== *)

Module DictionaryMore.

Import Settings Provider Dictionary DictionaryFacts DictionaryTerms.

(** ** The order of the suggestions *)

Lemma insertBy_sorted {A} (key : A -> Z) x l :
  StronglySorted (fun a b => key a <= key b) l ->
  StronglySorted (fun a b => key a <= key b) (insertBy key x l).
Proof.
  induction 1 as [|y l Hs IH Hy]; simpl.
  - repeat constructor.
  - destruct (Z.ltb_spec (key x) (key y)).
    + constructor; [constructor; assumption|].
      constructor; [lia|].
      eapply Forall_impl; [|exact Hy]. simpl. intros z Hz. lia.
    + constructor; [exact IH|].
      apply Forall_forall. intros z Hz. apply insertBy_In in Hz.
      destruct Hz as [->|Hz]; [lia|].
      rewrite Forall_forall in Hy. now apply Hy.
Qed.

Lemma sortBy_sorted {A} (key : A -> Z) l :
  StronglySorted (fun a b => key a <= key b) (sortBy key l).
Proof.
  unfold sortBy.
  assert (G : forall acc,
             StronglySorted (fun a b => key a <= key b) acc ->
             StronglySorted (fun a b => key a <= key b)
                            (fold_left (fun acc x => insertBy key x acc) l acc)).
  { induction l as [|x l IH]; intros acc Hacc; simpl; [exact Hacc|].
    apply IH, insertBy_sorted, Hacc. }
  apply G. constructor.
Qed.

(** The suggestions of a dictionary provider come in ascending length of
    their display names, whatever the table, the query and the settings. *)
Theorem suggestions_come_shortest_first :
  forall (R : JS.StringRuntime) wordMap isEnabled ctx settings,
    StronglySorted byDisplayLength
                   (getSuggestions wordMap isEnabled ctx settings).
Proof.
  intros R wordMap isEnabled ctx settings. unfold getSuggestions.
  destruct (_ || _); [constructor|].
  apply (sortBy_sorted (fun a => JS.len (displayName a))).
Qed.

(** ** What the matcher can return *)

Lemma collect_inv {T U} (lists : list (list U)) predicate (mapFn : U -> T) y :
  forall acc,
    In y (fold_left (fun result iterable =>
                       filterMapIntoArray result iterable predicate mapFn)
                    lists acc) ->
    In y acc
    \/ exists l x, In l lists /\ In x l /\ predicate x = true /\ mapFn x = y.
Proof.
  induction lists as [|l0 lists IH]; intros acc H; simpl in H; [now left|].
  apply IH in H. destruct H as [H|(l & x & Hl & Hx & Hp & Hm)].
  - apply filterMapIntoArray_In in H.
    destruct H as [H|(x & Hx & Hp & Hm)]; [now left|].
    right. exists l0, x. simpl. auto.
  - right. exists l, x. simpl. auto.
Qed.

Lemma get_In {V} (m : JSMap.t V) k v : JSMap.get m k = Some v -> In (k, v) m.
Proof.
  induction m as [|[k0 v0] m IH]; simpl; [discriminate|].
  destruct (String.eqb_spec k0 k) as [->|].
  - intros [= ->]. now left.
  - intros H. right. now apply IH.
Qed.

Lemma getOrEmpty_inTable wordMap key w :
  In w (getOrEmpty wordMap key) -> inTable wordMap w.
Proof.
  unfold getOrEmpty. destruct (JSMap.get wordMap key) as [l|] eqn:E; [|intros []].
  intros H. exists key, l. split; [now apply get_In|exact H].
Qed.

Lemma listsToCheck_inTable (R : JS.StringRuntime) wordMap settings firstChar l w :
  In l (listsToCheck wordMap settings firstChar) -> In w l -> inTable wordMap w.
Proof.
  unfold listsToCheck. intros Hl Hw. apply in_app_or in Hl.
  destruct Hl as [Hl|Hl].
  - destruct (ignoreCaseOf settings); simpl in Hl.
    + destruct Hl as [<-|[<-|[]]]; eapply getOrEmpty_inTable; eassumption.
    + destruct Hl as [<-|[]]; eapply getOrEmpty_inTable; eassumption.
  - destruct (ignoreDiacriticsWhenFiltering settings); [|destruct Hl].
    apply in_flat_map in Hl. destruct Hl as ([key value] & Hin & Hl).
    destruct (_ =? _)%string; [|destruct Hl].
    destruct Hl as [<-|[]]. exists key, value. auto.
Qed.

(** Whatever is suggested was made from a word of the table whose folded
    form starts with the folded query, by a provider that is enabled, for
    a query that is not empty and not shorter than the minimum. *)
Lemma matcher_sound (R : JS.StringRuntime) wordMap isEnabled ctx settings s :
  In s (getSuggestions wordMap isEnabled ctx settings) ->
  isEnabled settings = true
  /\ query ctx <> ""
  /\ minWordTriggerLength settings <= JS.len (query ctx)
  /\ exists w,
       inTable wordMap w
       /\ JS.startsWith (folded settings w) (folded settings (query ctx)) = true
       /\ s = if WordInsertionMode_eqb (wordInsertionMode settings) APPEND
              then fromString (query ctx
                               ++ JS.substringFrom w
                                    (JS.len (folded settings (query ctx))))%string
              else fromString w.
Proof.
  unfold getSuggestions.
  destruct (isEnabled settings); [|intros []].
  destruct (JS.truthy (query ctx)) eqn:Et; [|intros []].
  destruct (Z.ltb_spec (JS.len (query ctx)) (minWordTriggerLength settings));
    [intros []|].
  cbn [negb orb]. intros Hin. apply sortBy_In in Hin.
  apply collect_inv in Hin. destruct Hin as [[]|(l & w & Hl & Hw & Hp & Hm)].
  split; [reflexivity|]. split; [now apply truthy_nonempty|]. split; [lia|].
  exists w. split; [eapply listsToCheck_inTable; eassumption|].
  split; [exact Hp|]. now rewrite <- Hm.
Qed.

(** Every suggestion of a dictionary provider comes from a word of its
    table whose folded form starts with the folded query; in the two
    REPLACE modes the suggestion is that word.  Nothing is suggested by a
    disabled provider, for an empty query or for a query shorter than
    [minWordTriggerLength]. *)
Theorem suggestions_come_from_the_table :
  forall (R : JS.StringRuntime) wordMap isEnabled ctx settings s,
    In s (getSuggestions wordMap isEnabled ctx settings) ->
    isEnabled settings = true
    /\ query ctx <> ""
    /\ minWordTriggerLength settings <= JS.len (query ctx)
    /\ exists w,
         inTable wordMap w
         /\ JS.startsWith (folded settings w) (folded settings (query ctx)) = true
         /\ (wordInsertionMode settings <> APPEND -> s = fromString w).
Proof.
  intros R wordMap isEnabled ctx settings s H.
  destruct (matcher_sound R wordMap isEnabled ctx settings s H)
    as (He & Hq & Hm & w & Hw & Hp & Hs).
  repeat split; try assumption.
  exists w. repeat split; try assumption.
  intros Hmode. rewrite Hs.
  destruct (wordInsertionMode settings); simpl; congruence.
Qed.

Lemma suggestions_come_from_the_table_witness :
  exists w,
    inTable (addWord [] JSMap.empty "hello") w
    /\ JS.startsWith (@folded JS.asciiRuntime DEFAULT_SETTINGS w)
                     (@folded JS.asciiRuntime DEFAULT_SETTINGS "He") = true
    /\ (IGNORE_CASE_REPLACE <> APPEND -> fromString "hello" = fromString w).
Proof.
  apply (suggestions_come_from_the_table JS.asciiRuntime
           (addWord [] JSMap.empty "hello") FileScanner_isEnabled
           (queryContext "He") DEFAULT_SETTINGS (fromString "hello")).
  vm_compute. now left.
Defined.

Lemma prefix_append p x : String.prefix p (p ++ x) = true.
Proof.
  induction p as [|a p IH]; simpl; [now destruct x|].
  destruct (ascii_dec a a); [exact IH|contradiction].
Qed.

(** In APPEND mode every suggestion starts with the query exactly as it
    was typed, in its display name and in its replacement. *)
Theorem append_mode_keeps_the_typed_text :
  forall (R : JS.StringRuntime) wordMap isEnabled ctx settings s,
    wordInsertionMode settings = APPEND ->
    In s (getSuggestions wordMap isEnabled ctx settings) ->
    JS.startsWith (replacement s) (query ctx) = true
    /\ JS.startsWith (displayName s) (query ctx) = true.
Proof.
  intros R wordMap isEnabled ctx settings s Hmode H.
  destruct (matcher_sound R wordMap isEnabled ctx settings s H)
    as (_ & _ & _ & w & _ & _ & Hs).
  rewrite Hmode in Hs. simpl in Hs. subst s. simpl.
  unfold JS.startsWith. split; apply prefix_append.
Qed.

Lemma append_mode_keeps_the_typed_text_witness :
  JS.startsWith (replacement (fromString "Hello")) "He" = true
  /\ JS.startsWith (displayName (fromString "Hello")) "He" = true.
Proof.
  apply (append_mode_keeps_the_typed_text JS.asciiRuntime
           (addWord [] JSMap.empty "hello") FileScanner_isEnabled
           (queryContext "He") (withMode DEFAULT_SETTINGS APPEND)
           (fromString "Hello")).
  - reflexivity.
  - vm_compute. now left.
Defined.

(** ** The scanner's table *)

Lemma set_keys {V} (m : JSMap.t V) k v :
  map fst (JSMap.set m k v)
  = if JSMap.has m k then map fst m else map fst m ++ [k].
Proof.
  unfold JSMap.has. induction m as [|[k0 v0] m IH]; simpl; [reflexivity|].
  destruct (String.eqb_spec k0 k) as [->|Hne]; simpl; [reflexivity|].
  rewrite IH. now destruct (JSMap.get m k).
Qed.

Lemma has_false_notin {V} (m : JSMap.t V) k :
  JSMap.has m k = false -> ~ In k (map fst m).
Proof.
  unfold JSMap.has. induction m as [|[k0 v0] m IH]; simpl; [tauto|].
  destruct (String.eqb_spec k0 k) as [->|Hne]; [discriminate|].
  intros H [E|Hin]; [contradiction|]. now apply IH.
Qed.

Lemma set_NoDup {V} (m : JSMap.t V) k v :
  NoDup (map fst m) -> NoDup (map fst (JSMap.set m k v)).
Proof.
  intros Hm. rewrite set_keys. destruct (JSMap.has m k) eqn:E; [exact Hm|].
  apply NoDup_app; [exact Hm|repeat constructor; intros []|].
  intros x Hx [<-|[]]. now apply has_false_notin in E.
Qed.

Lemma set_inv {V} (m : JSMap.t V) k v k' v' :
  In (k', v') (JSMap.set m k v) -> (k' = k /\ v' = v) \/ In (k', v') m.
Proof.
  induction m as [|[k0 v0] m IH]; simpl.
  - intros [[= <- <-]|[]]. now left.
  - destruct (String.eqb_spec k0 k) as [->|Hne]; simpl.
    + intros [[= <- <-]|H]; [now left|right; now right].
    + intros [H|H]; [right; now left|].
      apply IH in H. destruct H; [now left|right; now right].
Qed.

Lemma getOrEmpty_cases (m : WordMap) k :
  getOrEmpty m k = [] \/ In (k, getOrEmpty m k) m.
Proof.
  unfold getOrEmpty. destruct (JSMap.get m k) eqn:E; [|now left].
  right. now apply get_In.
Qed.

(** [addWord] keeps the scanner's table well formed: keys stay distinct,
    no bucket is empty or holds a word twice, and every word is not empty,
    not blacklisted and filed under its own first character. *)
Theorem scanner_table_stays_well_formed :
  forall blacklist wordMap word,
    wellFormed blacklist wordMap ->
    wellFormed blacklist (addWord blacklist wordMap word).
Proof.
  intros bl m w [Hkeys Hm].
  destruct (storable bl w) eqn:Hs;
    [|rewrite addWord_unstorable by exact Hs; now split].
  rewrite addWord_storable by exact Hs.
  split; [now apply set_NoDup|].
  intros key bucket Hin. apply set_inv in Hin.
  destruct Hin as [[-> ->]|Hin]; [|now apply Hm].
  split; [|split].
  - intros E. pose proof (setAdd_In (getOrEmpty m (JS.charAt w 0)) w) as Hw.
    now rewrite E in Hw.
  - apply setAdd_NoDup.
    destruct (getOrEmpty_cases m (JS.charAt w 0)) as [->|Hc];
      [constructor|now apply Hm in Hc].
  - intros x Hx. apply setAdd_inv in Hx. destruct Hx as [Hx | ->].
    + destruct (getOrEmpty_cases m (JS.charAt w 0)) as [E|Hc];
        [now rewrite E in Hx|].
      apply Hm in Hc. now apply Hc.
    + unfold storable in Hs. apply andb_true_iff in Hs. destruct Hs as [Ht Hb].
      split; [reflexivity|]. split; [now apply truthy_nonempty|].
      now apply negb_true_iff in Hb.
Qed.

Lemma scanner_table_stays_well_formed_witness :
  wellFormed ["bad"] (addWord ["bad"] JSMap.empty "hello").
Proof.
  apply (scanner_table_stays_well_formed ["bad"] JSMap.empty "hello").
  split; [constructor|]. intros key bucket [].
Defined.

(** ** The blacklist *)

Lemma hasText_addFromText bl x y :
  SuggestionBlacklist.hasText (SuggestionBlacklist.addFromText bl x) y
  = SuggestionBlacklist.hasText bl y || (y =? x)%string.
Proof.
  unfold SuggestionBlacklist.addFromText.
  destruct (SuggestionBlacklist.hasText bl x) eqn:E.
  - unfold SuggestionBlacklist.hasText in *.
    destruct (String.eqb_spec y x) as [->|]; [|now rewrite orb_false_r].
    now rewrite E.
  - unfold SuggestionBlacklist.hasText. rewrite existsb_app. simpl.
    now rewrite orb_false_r.
Qed.

Lemma filterText_filter bl l :
  SuggestionBlacklist.filterText bl l
  = filter (fun s => negb (SuggestionBlacklist.hasText bl s)) l.
Proof.
  unfold SuggestionBlacklist.filterText. destruct bl as [|b bl].
  - simpl. induction l as [|x l IH]; simpl; [reflexivity|]. now rewrite <- IH.
  - replace (Z.of_nat (List.length (b :: bl)) <? 1) with false; [reflexivity|].
    symmetry. apply Z.ltb_ge. simpl List.length. lia.
Qed.

(** Once a text is blacklisted, [filterText] drops it and otherwise lets
    through exactly what it let through before, the empty blacklist's
    shortcut included. *)
Theorem blacklisted_text_is_filtered_out :
  forall blacklist text suggestions s,
    In s (SuggestionBlacklist.filterText
            (SuggestionBlacklist.addFromText blacklist text) suggestions)
    <-> In s (SuggestionBlacklist.filterText blacklist suggestions)
        /\ s <> text.
Proof.
  intros bl x l s. rewrite !filterText_filter, !filter_In.
  rewrite hasText_addFromText, negb_orb, andb_true_iff.
  destruct (String.eqb_spec s x) as [->|Hne]; simpl; intuition congruence.
Qed.

(** ** The word list *)

Lemma set_in_place {V} (pre : JSMap.t V) k a rest v :
  ~ In k (map fst pre) ->
  JSMap.set (pre ++ (k, a) :: rest) k v = pre ++ (k, v) :: rest.
Proof.
  induction pre as [|[k0 v0] pre IH]; simpl; intros Hn.
  - now rewrite String.eqb_refl.
  - destruct (String.eqb_spec k0 k) as [->|Hne]; [tauto|].
    rewrite IH; [reflexivity|tauto].
Qed.

Lemma finish_fold (f : list string -> list string) rest :
  forall done tot,
    NoDup (map fst (done ++ rest)) ->
    fold_left (fun '(wordMap, total) '(k, arr) =>
                 let filtered := f arr in
                 (JSMap.set wordMap k filtered,
                  total + Z.of_nat (List.length filtered)))
              rest (done ++ rest, tot)
    = (done ++ map (fun '(k, arr) => (k, f arr)) rest,
       tot + bucketTotal (map (fun '(k, arr) => (k, f arr)) rest)).
Proof.
  induction rest as [|[k a] rest IH]; intros done tot Hnd.
  - simpl. now rewrite Z.add_0_r.
  - cbn [fold_left map bucketTotal fold_right].
    rewrite set_in_place.
    + change (done ++ (k, f a) :: rest) with (done ++ [(k, f a)] ++ rest).
      rewrite app_assoc, IH.
      * rewrite <- app_assoc. f_equal. unfold bucketTotal. lia.
      * rewrite <- app_assoc. rewrite !map_app in *. exact Hnd.
    + rewrite map_app in Hnd. apply NoDup_remove_2 in Hnd.
      intros Hin. apply Hnd. apply in_or_app. now left.
Qed.

Lemma filter_sorted {A} (R : A -> A -> Prop) p l :
  StronglySorted R l -> StronglySorted R (filter p l).
Proof.
  induction 1 as [|x l Hs IH Hx]; simpl; [constructor|].
  destruct (p x); [|exact IH].
  constructor; [exact IH|].
  rewrite Forall_forall in *. intros y Hy. apply filter_In in Hy. now apply Hx.
Qed.

Lemma addLine_linesKept settings (Q : string -> Prop) m line :
  Q line -> linesKept settings Q m -> linesKept settings Q (addLine settings m line).
Proof.
  intros HQ [Hnd Hm]. unfold addLine.
  destruct (JS.truthy line) eqn:Et; cbn [negb orb]; [|now split].
  assert (Hlong : (match minWordLength settings with
                   | Some n => JS.len line <? n
                   | None => false
                   end) = false -> longEnough settings line).
  { intros E. split; [now apply truthy_nonempty|].
    destruct (minWordLength settings); [|exact I].
    apply Z.ltb_ge in E. exact E. }
  destruct (match minWordLength settings with
            | Some n => JS.len line <? n
            | None => false
            end); [now split|].
  specialize (Hlong eq_refl).
  set (m1 := if negb (JSMap.has m (JS.charAt line 0))
             then JSMap.set m (JS.charAt line 0) []
             else m).
  assert (H1 : linesKept settings Q m1).
  { unfold m1. destruct (JSMap.has m (JS.charAt line 0)); cbn [negb];
      [now split|].
    split; [now apply set_NoDup|].
    intros k arr w Hin Hw. apply set_inv in Hin.
    destruct Hin as [[-> ->]|Hin]; [destruct Hw|eapply Hm; eassumption]. }
  destruct (JSMap.get m1 (JS.charAt line 0)) as [arr0|] eqn:Eg; [|exact H1].
  destruct H1 as [Hnd1 Hm1].
  split; [now apply set_NoDup|].
  intros k arr w Hin Hw. apply set_inv in Hin.
  destruct Hin as [[-> ->]|Hin]; [|eapply Hm1; eassumption].
  apply in_app_or in Hw. destruct Hw as [Hw|[<-|[]]].
  - eapply Hm1; [apply get_In, Eg|exact Hw].
  - exists line. auto.
Qed.

Lemma addLines_linesKept settings (Q : string -> Prop) lines :
  forall m,
    Forall Q lines -> linesKept settings Q m ->
    linesKept settings Q (fold_left (addLine settings) lines m).
Proof.
  induction lines as [|l lines IH]; intros m HQ Hm; simpl; [exact Hm|].
  apply IH; [now apply Forall_inv_tail in HQ|].
  apply addLine_linesKept; [now apply Forall_inv in HQ|exact Hm].
Qed.

Lemma readFiles_linesKept settings files fs :
  forall m,
    (forall f, In f fs -> In f files) ->
    linesKept settings (readLine files) m ->
    linesKept settings (readLine files)
      (fold_left (fun wordMap file =>
                    match file with
                    | JS.Throws _ => wordMap
                    | JS.Returns data =>
                        fold_left (addLine settings) (splitNewLines data) wordMap
                    end) fs m).
Proof.
  induction fs as [|f fs IH]; intros m Hfs Hm; simpl; [exact Hm|].
  apply IH; [intros g Hg; apply Hfs; now right|].
  destruct f as [data|e]; [|exact Hm].
  apply addLines_linesKept; [|exact Hm].
  apply Forall_forall. intros line Hline. exists data.
  split; [apply Hfs; now left|exact Hline].
Qed.

Lemma filterText_clean bl l w :
  In w (SuggestionBlacklist.filterText bl l) ->
  In w l /\ SuggestionBlacklist.hasText bl w = false.
Proof.
  rewrite filterText_filter, filter_In. intros [Hin Hb].
  split; [exact Hin|]. now apply negb_true_iff in Hb.
Qed.

(** After [loadFromFiles] every bucket of the word list is in ascending
    length and free of blacklisted words, every word is the trimmed form of
    a line of a file that could be read, filed under the first character of
    that line as it was read, and the returned total is the number of words
    left in the table. *)
Theorem word_list_is_sorted_and_filtered :
  forall blacklist settings files,
    snd (loadFromFiles blacklist settings files)
    = bucketTotal (fst (loadFromFiles blacklist settings files))
    /\ NoDup (map fst (fst (loadFromFiles blacklist settings files)))
    /\ forall k arr,
         In (k, arr) (fst (loadFromFiles blacklist settings files)) ->
         StronglySorted byLength arr
         /\ forall w,
              In w arr ->
              SuggestionBlacklist.hasText blacklist w = false
              /\ exists line,
                   w = JS.trim line /\ JS.charAt line 0 = k
                   /\ longEnough settings line /\ readLine files line.
Proof.
  intros bl settings files.
  pose (loaded :=
          fold_left (fun wordMap file =>
                       match file with
                       | JS.Throws _ => wordMap
                       | JS.Returns data =>
                           fold_left (addLine settings) (splitNewLines data) wordMap
                       end) files (@JSMap.empty (list string))).
  assert (Hl : linesKept settings (readLine files) loaded).
  { apply readFiles_linesKept; [auto|]. split; [constructor|]. intros k arr w []. }
  destruct Hl as [Hnd Hm].
  assert (E : loadFromFiles bl settings files
              = (map (fun '(k, arr) =>
                        (k, SuggestionBlacklist.filterText bl (sortBy JS.len arr)))
                     loaded,
                 bucketTotal
                   (map (fun '(k, arr) =>
                           (k, SuggestionBlacklist.filterText bl (sortBy JS.len arr)))
                        loaded))).
  { exact (finish_fold
             (fun arr => SuggestionBlacklist.filterText bl (sortBy JS.len arr))
             loaded [] 0 Hnd). }
  rewrite E. cbn [fst snd].
  split; [reflexivity|]. split.
  - rewrite map_map.
    replace (map (fun x => fst (let '(k, arr) := x in
                                (k, SuggestionBlacklist.filterText bl
                                      (sortBy JS.len arr)))) loaded)
      with (map fst loaded); [exact Hnd|].
    apply map_ext. now intros [k arr].
  - intros k arr Hin. apply in_map_iff in Hin.
    destruct Hin as ([k0 arr0] & [= <- <-] & Hin).
    split.
    + rewrite filterText_filter. apply filter_sorted.
      apply (sortBy_sorted JS.len).
    + intros w Hw. apply filterText_clean in Hw. destruct Hw as [Hw Hb].
      split; [exact Hb|]. apply sortBy_In in Hw. eapply Hm; eassumption.
Qed.

End DictionaryMore.

(* ================================================================== *)
(** * Further properties of the popup *)
(* ================================================================== *)

Module PopupFacts.

Import Settings Provider Popup SuggestionPopup.

Lemma loop_merges settings ctx providers :
  forall all log,
    Forall (fun q => firesExclusively settings ctx q = false) providers ->
    providerLoop settings ctx providers all log
    = (all ++ flat_map (contribution settings ctx) providers,
       log ++ map (logLine settings ctx) providers).
Proof.
  induction providers as [|p rest IH]; intros all log Hf.
  - simpl. now rewrite !app_nil_r.
  - pose proof (Forall_inv Hf) as Hp. apply Forall_inv_tail in Hf.
    cbn [providerLoop flat_map map]. unfold firesExclusively in Hp.
    unfold contribution at 1, logLine at 1.
    destruct (enabled p settings); cbn [negb andb] in *.
    + destruct (Provider.getSuggestions p ctx settings) as [l|e].
      * destruct (0 <? Z.of_nat (List.length l)) eqn:El.
        -- rewrite andb_true_r in Hp. rewrite Hp.
           rewrite IH by exact Hf. now rewrite <- !app_assoc.
        -- rewrite IH by exact Hf. rewrite <- !app_assoc.
           destruct l; [reflexivity|discriminate].
      * rewrite IH by exact Hf. now rewrite <- !app_assoc.
    + rewrite IH by exact Hf. now rewrite <- !app_assoc.
Qed.

(** When no provider of the list stops the loop, the composed result is
    what the enabled providers returned, one after the other in the order
    of the list, and the console holds one line for each provider, in the
    same order. *)
Theorem suggestions_are_merged_in_provider_order :
  forall settings ctx providers,
    Forall (fun q => firesExclusively settings ctx q = false) providers ->
    compose settings ctx providers
    = (flat_map (contribution settings ctx) providers,
       map (logLine settings ctx) providers).
Proof.
  intros settings ctx providers Hf. unfold compose.
  now rewrite loop_merges.
Qed.

Lemma suggestions_are_merged_in_provider_order_witness :
  compose DEFAULT_SETTINGS (Dictionary.queryContext "ab")
          [exampleA (fromString "a1") (fromString "a2"); throwing;
           exampleC (fromString "c1") (fromString "c2") (fromString "c3")]
  = (map fromString ["a1"; "a2"; "c1"; "c2"; "c3"],
     [LogReturned "A" 2; LogError (name throwing) "boom"; LogReturned "C" 3]).
Proof.
  apply (suggestions_are_merged_in_provider_order DEFAULT_SETTINGS
           (Dictionary.queryContext "ab")
           [exampleA (fromString "a1") (fromString "a2"); throwing;
            exampleC (fromString "c1") (fromString "c2") (fromString "c3")]).
  repeat constructor.
Defined.

(** The popup's suggestions are those of the file scanner followed by
    those of the word list, each as its dictionary matcher returns them
    for the word in front of the cursor; the three other providers add
    nothing, whatever their [getSuggestions] would do. *)
Theorem popup_lists_scanner_then_word_list :
  forall (R : JS.StringRuntime) settings charPredicate scannerWords
         wordListWords latex callout frontMatter context,
    let matched :=
      EditorHelpers.matchWordBackwards (sc_editor context)
        (getCursor (sc_editor context)) charPredicate
        (maxLookBackDistance settings) in
    let ctx := contextFor context (fst matched) (snd matched) in
    fst (Popup.getSuggestions settings charPredicate scannerWords
           wordListWords latex callout frontMatter context)
    = Dictionary.getSuggestions scannerWords Dictionary.FileScanner_isEnabled
                                ctx settings
      ++ Dictionary.getSuggestions wordListWords Dictionary.WordList_isEnabled
                                   ctx settings.
Proof.
  intros R settings charPredicate scannerWords wordListWords latex callout
         frontMatter context matched ctx.
  unfold Popup.getSuggestions. fold matched.
  destruct matched as [q sep] eqn:Em. cbn [fst snd] in ctx.
  fold (contextFor context q sep). fold ctx.
  rewrite loop_merges.
  - cbn [fst flat_map app]. rewrite app_nil_r.
    unfold contribution. cbn [enabled isEnabled Provider.getSuggestions
                              FileScanner WordList Latex Callout FrontMatter].
    assert (G : forall (wm : Dictionary.WordMap)
                       (en : MyAutoCompletionSettings -> bool),
               (if en settings
                then Dictionary.getSuggestions wm en ctx settings else [])
               = Dictionary.getSuggestions wm en ctx settings).
    { intros wm en. unfold Dictionary.getSuggestions.
      now destruct (en settings). }
    now rewrite !G.
  - repeat constructor; unfold firesExclusively;
      cbn [blocks blocksAllOtherProviders enabled isEnabled
           FileScanner WordList Latex Callout FrontMatter];
      try reflexivity; now rewrite andb_false_r.
Qed.

(** ** Trigger *)

(** With the cursor inside its line, a trigger that fires hands the host
    the range that holds exactly the query: it ends at the cursor, starts
    as many characters before it as the query is long, and the text of the
    line between the two is the query.  Unless forced, it fires only for a
    query that is not empty and not shorter than [minWordTriggerLength],
    with [autoTrigger] on. *)
Theorem trigger_range_holds_the_query :
  forall settings charPredicate e force info,
    0 <= ch (getCursor e)
         <= JS.len (getLine (doc e) (line (getCursor e))) ->
    0 <= maxLookBackDistance settings ->
    trigger settings charPredicate e force = Some info ->
    t_end info = getCursor e
    /\ line (t_start info) = line (getCursor e)
    /\ ch (t_start info) = ch (getCursor e) - JS.len (t_query info)
    /\ t_query info
       = JS.substring (getLine (doc e) (line (getCursor e)))
                      (ch (t_start info)) (ch (getCursor e))
    /\ (force = false ->
        t_query info <> ""
        /\ minWordTriggerLength settings <= JS.len (t_query info)
        /\ autoTrigger settings = true).
Proof.
  intros settings charPredicate e force info Hch Hmax. unfold trigger.
  destruct (EditorHelpers.matchWordBackwards e (getCursor e) charPredicate
              (maxLookBackDistance settings)) as [q sep] eqn:Em.
  destruct (HelperFacts.matchWordBackwards_spec _ _ _ _ _ _ Hch Hmax Em)
    as (Hlen & Hq & _).
  assert (Hquery : (if JS.truthy q then q else "") = q).
  { destruct (JS.truthy q) eqn:Et; [reflexivity|].
    destruct (String.eqb_spec q ""); [now subst|].
    apply DictionaryFacts.truthy_nonempty in n. congruence. }
  assert (Hn : (if JS.truthy q then JS.len q else 0) = JS.len q).
  { destruct (JS.truthy q) eqn:Et; [reflexivity|].
    rewrite <- Hquery. reflexivity. }
  rewrite Hquery, Hn.
  assert (Hstart : Z.max 0 (ch (getCursor e) - JS.len q)
                   = ch (getCursor e) - JS.len q) by lia.
  rewrite Hstart.
  destruct (negb force && _) eqn:Eg; [discriminate|].
  intros [= <-]. cbn [t_start t_end t_query line ch].
  do 4 (split; [reflexivity || exact Hq|]).
  intros ->. cbn [negb andb] in Eg.
  apply orb_false_iff in Eg. destruct Eg as [Eg Ea].
  apply orb_false_iff in Eg. destruct Eg as [Et El].
  split; [|split].
  - apply negb_false_iff in Et. now apply DictionaryFacts.truthy_nonempty.
  - now apply Z.ltb_ge in El.
  - now apply negb_false_iff in Ea.
Qed.

Lemma trigger_range_holds_the_query_witness :
  t_end (mkTrigger (mkPos 0 3) (mkPos 0 5) "lo") = mkPos 0 5
  /\ line (t_start (mkTrigger (mkPos 0 3) (mkPos 0 5) "lo")) = 0
  /\ ch (t_start (mkTrigger (mkPos 0 3) (mkPos 0 5) "lo")) = 5 - JS.len "lo"
  /\ "lo" = JS.substring "a, lo" 3 5
  /\ (false = false ->
      "lo" <> "" /\ 2 <= JS.len "lo" /\ true = true).
Proof.
  apply (trigger_range_holds_the_query DEFAULT_SETTINGS
           (fun c => negb (c =? " ")%string && negb (c =? ",")%string)
           (mkEditor ["a, lo"] (mkPos 0 5, mkPos 0 5) []) false
           (mkTrigger (mkPos 0 3) (mkPos 0 5) "lo")).
  - vm_compute. split; discriminate.
  - vm_compute. discriminate.
  - reflexivity.
Defined.

(** ** Selection *)

(** In an open popup with suggestions, [selectNextItem] leaves an index
    that selects one of them, whatever the index was before; from an
    index within the list it is the next or the previous one, going round
    at the two ends. *)
Theorem selection_moves_round_the_list :
  forall p direction,
    isOpen p = true ->
    suggestions p <> [] ->
    let n := Z.of_nat (List.length (suggestions p)) in
    let p' := selectNextItem p direction in
    0 <= selectedIndex p' < n
    /\ getSelectedItem p' <> None
    /\ suggestions p' = suggestions p
    /\ (0 <= selectedIndex p < n ->
        selectedIndex p'
        = (selectedIndex p
           + match direction with NEXT => 1 | PREVIOUS => -1 end) mod n).
Proof.
  intros p direction Hopen Hne n p'.
  assert (Hn : 0 < n).
  { unfold n. destruct (suggestions p); [contradiction|]. simpl List.length. lia. }
  unfold p', selectNextItem. fold n. rewrite Hopen. cbn [negb orb].
  destruct (Z.eqb_spec n 0) as [E|_]; [lia|].
  cbn [selectedIndex suggestions].
  set (a := selectedIndex p + match direction with NEXT => 1 | PREVIOUS => -1 end).
  assert (Hr : - n < Z.rem a n < n).
  { destruct (Z.le_ge_cases 0 a) as [Ha|Ha].
    - pose proof (Z.rem_bound_pos a n Ha Hn). lia.
    - pose proof (Z.rem_bound_pos (- a) n) as Hb.
      pose proof (Z.rem_opp_l (- a) n) as Ho.
      rewrite Z.opp_involutive in Ho. lia. }
  assert (Hin : 0 <= (if Z.rem a n <? 0 then n - 1 else Z.rem a n) < n).
  { destruct (Z.ltb_spec (Z.rem a n) 0); lia. }
  split; [exact Hin|]. split; [|split; [reflexivity|]].
  - unfold getSelectedItem. cbn [selectedIndex suggestions].
    set (i := if Z.rem a n <? 0 then n - 1 else Z.rem a n) in *.
    destruct (Z.ltb_spec i 0); [lia|].
    apply nth_error_Some. unfold n in Hin. lia.
  - intros Hi. destruct (Z.le_ge_cases 0 a) as [Ha|Ha].
    + rewrite Z.rem_mod_nonneg by lia.
      destruct (Z.ltb_spec (a mod n) 0); [|reflexivity].
      pose proof (Z.mod_pos_bound a n Hn). lia.
    + assert (Ea : a = -1 \/ a = 0) by (unfold a in *; destruct direction; lia).
      destruct Ea as [Ea|Ea]; rewrite Ea.
      * destruct (Z.eq_dec n 1) as [E1|N1].
        -- rewrite E1. reflexivity.
        -- change (-1) with (- (1)). rewrite Z.rem_opp_l by lia.
           rewrite Z.rem_small by lia. cbn [Z.opp Z.ltb Z.compare].
           apply Z.mod_unique with (q := -1); lia.
      * rewrite Z.rem_0_l by lia. rewrite Z.mod_0_l by lia. reflexivity.
Qed.

Lemma selection_moves_round_the_list_witness :
  0 <= selectedIndex (selectNextItem threeItems PREVIOUS) < 3
  /\ getSelectedItem (selectNextItem threeItems PREVIOUS) <> None
  /\ suggestions (selectNextItem threeItems PREVIOUS) = suggestions threeItems
  /\ (0 <= 0 < 3 ->
      selectedIndex (selectNextItem threeItems PREVIOUS) = (0 + -1) mod 3).
Proof.
  apply (selection_moves_round_the_list threeItems PREVIOUS).
  - reflexivity.
  - discriminate.
Defined.

End PopupFacts.

(* ================================================================== *)
(** * Further properties of the snippet manager *)
(* ================================================================== *)

Module SnippetMore.

Import CM MarkerStateField Snippets SnippetTerms.

(** ** Looking up the placeholder at a position *)

Lemma placeholderLoop_spec e pos pending :
  forall kept found phs,
    placeholderLoop e pos pending kept = Some (found, phs) ->
    match found with
    | Some ph =>
        covers e pos ph = true
        /\ exists pre rest,
             pending = pre ++ ph :: rest
             /\ phs = kept ++ filter (live e) pre ++ ph :: rest
             /\ Forall (fun x => covers e pos x = false) pre
    | None =>
        phs = kept ++ filter (live e) pending
        /\ Forall (fun x => covers e pos x = false) pending
    end.
Proof.
  induction pending as [|ph rest IH]; intros kept found phs; simpl.
  - intros [= <- <-]. split; [now rewrite app_nil_r|constructor].
  - destruct (marker e ph) as [r|] eqn:Em.
    + assert (Hlive : live e ph = true) by (unfold live; now rewrite Em).
      destruct (EditorHelpers.posFromIndex (doc e) (from r)) as [f|] eqn:Ef;
        [|discriminate].
      destruct (EditorHelpers.posFromIndex (doc e) (to r)) as [t|] eqn:Eto;
        [|discriminate].
      assert (Hcov : covers e pos ph
                     = (line pos =? line f) && (ch f <=? ch pos)
                       && (ch pos <=? ch t)).
      { unfold covers. now rewrite Em, Ef, Eto. }
      destruct ((line pos =? line f) && (ch f <=? ch pos) && (ch pos <=? ch t)).
      * intros [= <- <-]. split; [exact Hcov|].
        exists [], rest. repeat split. constructor.
      * intros H. apply IH in H. destruct found as [ph'|].
        -- destruct H as (Hc & pre & rest' & -> & -> & Hpre).
           split; [exact Hc|]. exists (ph :: pre), rest'.
           split; [reflexivity|]. split.
           ++ cbn [filter]. rewrite Hlive. now rewrite <- app_assoc.
           ++ constructor; [exact Hcov|exact Hpre].
        -- destruct H as (-> & Hall). split.
           ++ cbn [filter]. rewrite Hlive. now rewrite <- app_assoc.
           ++ constructor; [exact Hcov|exact Hall].
    + assert (Hlive : live e ph = false) by (unfold live; now rewrite Em).
      assert (Hcov : covers e pos ph = false) by (unfold covers; now rewrite Em).
      intros H. apply IH in H. destruct found as [ph'|].
      * destruct H as (Hc & pre & rest' & -> & -> & Hpre).
        split; [exact Hc|]. exists (ph :: pre), rest'.
        split; [reflexivity|]. split.
        -- cbn [filter]. now rewrite Hlive.
        -- constructor; [exact Hcov|exact Hpre].
      * destruct H as (-> & Hall). split.
        -- cbn [filter]. now rewrite Hlive.
        -- constructor; [exact Hcov|exact Hall].
Qed.



(** ** Moving on to the next placeholder *)

Lemma find_filter_keep {A} (p q : A -> bool) l :
  (forall x, p x = true -> q x = true) ->
  find p (filter q l) = find p l.
Proof.
  intros H. induction l as [|x l IH]; simpl; [reflexivity|].
  destruct (q x) eqn:Eq; simpl.
  - now rewrite IH.
  - destruct (p x) eqn:Ep; [|exact IH].
    apply H in Ep. congruence.
Qed.

Lemma find_filter_drop {A} (p q : A -> bool) l :
  (forall x, p x = true -> q x = false) ->
  find p (filter q l) = None.
Proof.
  intros H. induction l as [|x l IH]; simpl; [reflexivity|].
  destruct (q x) eqn:Eq; simpl; [|exact IH].
  destruct (p x) eqn:Ep; [|exact IH].
  apply H in Ep. congruence.
Qed.

Lemma removeFromEditor_marks e old :
  marks (removeFromEditor e old)
  = filter (fun r => negb (Nat.eqb (reference (value r)) old)) (marks e).
Proof. reflexivity. Qed.

Lemma removeFromEditor_marker_gone e old :
  marker (removeFromEditor e old) old = None.
Proof.
  unfold marker. rewrite removeFromEditor_marks.
  apply find_filter_drop. intros x Hx. now rewrite Hx.
Qed.

Lemma removeFromEditor_marker_other e old ref :
  ref <> old -> marker (removeFromEditor e old) ref = marker e ref.
Proof.
  intros Hne. unfold marker. rewrite removeFromEditor_marks.
  apply find_filter_keep. intros x Hx. apply Nat.eqb_eq in Hx.
  apply negb_true_iff, Nat.eqb_neq. congruence.
Qed.

Lemma selectMarker_inv st ref st' :
  selectMarker st ref = Some st' ->
  placeholders st' = placeholders st
  /\ nextRef st' = nextRef st
  /\ doc (editor st') = doc (editor st)
  /\ marks (editor st') = marks (editor st)
  /\ match marker (editor st) ref with
     | None => selection (editor st') = selection (editor st)
     | Some m =>
         exists p,
           EditorHelpers.posFromIndex (doc (editor st)) (from m) = Some p
           /\ selection (editor st') = (p, mkPos (line p) (ch p + 1))
     end.
Proof.
  unfold selectMarker. destruct (marker (editor st) ref) as [m|].
  - destruct (EditorHelpers.posFromIndex (doc (editor st)) (from m)) as [p|];
      [|discriminate].
    intros [= <-]. cbn. repeat split. exists p. now split.
  - intros [= <-]. now repeat split.
Qed.

(** [consumeAndGotoNextMarker] takes the front placeholder off the list
    and its marker out of the editor; the text and the markers of the
    other placeholders stay.  It answers [true] exactly when it has put
    the selection on the first character of the marker of the placeholder
    that is now in front, and [false] leaves the selection where it was. *)
Theorem consume_drops_the_front_placeholder :
  forall st old rest b st',
    placeholders st = old :: rest ->
    consumeAndGotoNextMarker st = Some (b, st') ->
    placeholders st' = rest
    /\ doc (editor st') = doc (editor st)
    /\ marker (editor st') old = None
    /\ (forall ref, ref <> old ->
                    marker (editor st') ref = marker (editor st) ref)
    /\ if b
       then exists next r p,
              hd_error rest = Some next
              /\ marker (editor st') next = Some r
              /\ EditorHelpers.posFromIndex (doc (editor st')) (from r) = Some p
              /\ selection (editor st') = (p, mkPos (line p) (ch p + 1))
       else selection (editor st') = selection (editor st)
            /\ match rest with
               | [] => True
               | next :: _ => marker (editor st') next = None
               end.
Proof.
  intros st old rest b st' Hp. unfold consumeAndGotoNextMarker. rewrite Hp.
  cbn [placeholders editor].
  destruct rest as [|next rest'].
  - intros [= <- <-]. cbn [placeholders editor].
    split; [reflexivity|]. split; [reflexivity|].
    split; [apply removeFromEditor_marker_gone|].
    split; [intros ref Hne; now apply removeFromEditor_marker_other|].
    now split.
  - destruct (marker (removeFromEditor (editor st) old) next) as [r|] eqn:Em.
    + destruct (selectMarker _ next) as [st2|] eqn:Es; [|discriminate].
      intros [= <- <-]. apply selectMarker_inv in Es.
      cbn [placeholders editor nextRef] in Es.
      destruct Es as (Hph & _ & Hdoc & Hmarks & Hsel).
      rewrite Em in Hsel. destruct Hsel as (q & Hq & Hsel).
      assert (Hmk : forall ref, marker (editor st2) ref
                                = marker (removeFromEditor (editor st) old) ref).
      { intros ref. unfold marker. now rewrite Hmarks. }
      split; [exact Hph|]. split; [exact Hdoc|].
      split; [rewrite Hmk; apply removeFromEditor_marker_gone|].
      split; [intros ref Hne; rewrite Hmk;
              now apply removeFromEditor_marker_other|].
      exists next, r, q. rewrite Hmk, Hdoc. now repeat split.
    + intros [= <- <-]. cbn [placeholders editor].
      split; [reflexivity|]. split; [reflexivity|].
      split; [apply removeFromEditor_marker_gone|].
      split; [intros ref Hne; now apply removeFromEditor_marker_other|].
      now split.
Qed.

Lemma consume_drops_the_front_placeholder_witness :
  placeholders trackedNext = [1%nat]
  /\ doc (editor trackedNext) = doc (editor tracked)
  /\ marker (editor trackedNext) 0%nat = None
  /\ (forall ref, ref <> 0%nat ->
                  marker (editor trackedNext) ref = marker (editor tracked) ref)
  /\ exists next r p,
       hd_error [1%nat] = Some next
       /\ marker (editor trackedNext) next = Some r
       /\ EditorHelpers.posFromIndex (doc (editor trackedNext)) (from r) = Some p
       /\ selection (editor trackedNext) = (p, mkPos (line p) (ch p + 1)).
Proof.
  apply (consume_drops_the_front_placeholder
           tracked 0%nat [1%nat] true trackedNext).
  - reflexivity.
  - reflexivity.
Defined.

(** ** The placeholders of a snippet *)

Lemma grows_zero st : grows 0 st st.
Proof. split; [reflexivity|now rewrite Nat.add_0_r]. Qed.

Lemma grows_trans a b st st1 st2 :
  grows a st st1 -> grows b st1 st2 -> grows (a + b) st st2.
Proof.
  intros [Hp1 Hn1] [Hp2 Hn2]. split.
  - rewrite Hp2, Hp1, Hn1, seq_app, rev_app_distr. now rewrite app_assoc.
  - rewrite Hn2, Hn1. lia.
Qed.

Lemma forEach_grows {A} (body : A -> State -> option State) (count : A -> nat) l :
  (forall x st st', body x st = Some st' -> grows (count x) st st') ->
  forall st st',
    forEach body l st = Some st' -> grows (list_sum (map count l)) st st'.
Proof.
  intros Hbody. induction l as [|x l IH]; intros st st'; simpl.
  - intros [= <-]. apply grows_zero.
  - destruct (body x st) as [st1|] eqn:E; [|discriminate].
    intros H. eapply grows_trans; [apply Hbody, E|apply IH, H].
Qed.

Lemma processChar_grows start colorIndex lineText lineIndex i st st' :
  processChar start colorIndex lineText lineIndex i st = Some st' ->
  grows (if (JS.charAt lineText i =? "#")%string then 1 else 0) st st'.
Proof.
  unfold processChar.
  destruct (JS.charAt lineText i =? "#")%string eqn:Eh; cbn [negb andb].
  - apply String.eqb_eq in Eh. rewrite Eh. cbn [String.eqb Ascii.eqb Bool.eqb].
    unfold registerPlaceholder.
    destruct (EditorHelpers.indexFromPos _ _) as [from|]; [|discriminate].
    intros [= <-]. split; cbn [placeholders nextRef]; [reflexivity|lia].
  - destruct (JS.charAt lineText i =? "~")%string; cbn [negb].
    + intros [= <-]. unfold deleteTilde.
      split; cbn [placeholders nextRef]; [reflexivity|lia].
    + intros [= <-]. apply grows_zero.
Qed.

Lemma list_sum_rev l : list_sum (rev l) = list_sum l.
Proof.
  induction l as [|x l IH]; simpl; [reflexivity|].
  rewrite list_sum_app, IH. simpl. lia.
Qed.

Lemma charAt_succ c rest i :
  0 <= i -> JS.charAt (String c rest) (i + 1) = JS.charAt rest i.
Proof.
  intros Hi. unfold JS.charAt.
  destruct (Z.ltb_spec (i + 1) 0); [lia|].
  destruct (Z.ltb_spec i 0); [lia|].
  replace (Z.to_nat (i + 1)) with (S (Z.to_nat i)) by lia. reflexivity.
Qed.

Lemma range_shift {B} (f g : Z -> B) n :
  forall lo,
    (forall i, lo <= i -> f (i + 1) = g i) ->
    map f (JS.range (lo + 1) n) = map g (JS.range lo n).
Proof.
  induction n as [|n IH]; intros lo H; simpl; [reflexivity|].
  rewrite H by lia. f_equal. apply IH. intros i Hi. apply H. lia.
Qed.

Lemma line_hashes l :
  list_sum (map (fun i => if (JS.charAt l i =? "#")%string then 1 else 0)%nat
                (JS.range 0 (String.length l)))
  = countHashes l.
Proof.
  induction l as [|c rest IH]; [reflexivity|].
  cbn [String.length JS.range map list_sum fold_right countHashes].
  rewrite (range_shift _ (fun i => if (JS.charAt rest i =? "#")%string
                                   then 1 else 0)%nat).
  - fold (list_sum (map (fun i => if (JS.charAt rest i =? "#")%string
                                  then 1 else 0)%nat
                        (JS.range 0 (String.length rest)))).
    rewrite IH. f_equal.
    change (JS.charAt (String c rest) 0) with (String c "").
    unfold String.eqb. now destruct (Ascii.eqb c "#").
  - intros i Hi. now rewrite charAt_succ.
Qed.

Lemma lines_shift {B} (g : string -> B) x lines n :
  forall lo,
    0 <= lo ->
    map (fun i => g (nth (Z.to_nat i) (x :: lines) "")) (JS.range (lo + 1) n)
    = map (fun i => g (nth (Z.to_nat i) lines "")) (JS.range lo n).
Proof.
  intros lo Hlo. apply range_shift. intros i Hi.
  replace (Z.to_nat (i + 1)) with (S (Z.to_nat i)) by lia. reflexivity.
Qed.

Lemma lines_by_index {B} (g : string -> B) lines :
  map (fun i => g (nth (Z.to_nat i) lines "")) (JS.range 0 (List.length lines))
  = map g lines.
Proof.
  induction lines as [|x lines IH]; [reflexivity|].
  cbn [List.length JS.range map]. rewrite lines_shift by lia.
  rewrite IH. reflexivity.
Qed.

Lemma splitLines_hashes value :
  list_sum (map countHashes (JS.splitLines value)) = countHashes value.
Proof.
  induction value as [|c rest IH]; [reflexivity|].
  cbn [JS.splitLines countHashes].
  destruct (Ascii.eqb_spec c "010"%char) as [->|Hne].
  - cbn [map list_sum fold_right countHashes]. fold (list_sum (map countHashes (JS.splitLines rest))).
    rewrite IH. reflexivity.
  - destruct (JS.splitLines rest) as [|l ls].
    + simpl in IH. rewrite <- IH. simpl. lia.
    + cbn [map list_sum fold_right countHashes] in *. lia.
Qed.

Lemma selectMarker_grows st ref st' :
  selectMarker st ref = Some st' -> grows 0 st st'.
Proof.
  intros H. apply selectMarker_inv in H. destruct H as (Hp & Hn & _).
  split; [now rewrite Hp|rewrite Hn; lia].
Qed.

(** A snippet that is handled without an exception adds one placeholder
    for each [#] of its text and nothing else: the new placeholders are
    put in front of the tracked ones, the one created last first. *)
Theorem snippet_adds_one_placeholder_per_hash :
  forall value start random st st',
    handleSnippet value start random st = Some st' ->
    placeholders st'
    = rev (seq (nextRef st) (countHashes value)) ++ placeholders st
    /\ nextRef st' = (nextRef st + countHashes value)%nat.
Proof.
  intros value start random st st'. unfold handleSnippet.
  set (colorIndex := chooseColorIndex st random).
  set (lines := JS.splitLines value).
  destruct (forEach _ (downFrom (List.length lines)) st) as [st1|] eqn:E;
    [|discriminate].
  intros Hsel.
  assert (H1 : grows (countHashes value) st st1).
  { apply (forEach_grows _ (fun lineIndex =>
                              countHashes (nth (Z.to_nat lineIndex) lines "")))
      in E.
    - unfold downFrom in E. rewrite map_rev, list_sum_rev in E.
      rewrite (lines_by_index countHashes) in E.
      unfold lines in E. now rewrite splitLines_hashes in E.
    - intros lineIndex s0 s1 Hline.
      apply (forEach_grows _ (fun i =>
               if (JS.charAt (nth (Z.to_nat lineIndex) lines "") i =? "#")%string
               then 1 else 0)%nat) in Hline.
      + unfold downFrom in Hline. rewrite map_rev, list_sum_rev in Hline.
        now rewrite line_hashes in Hline.
      + intros i s2 s3. apply processChar_grows. }
  assert (H2 : grows 0 st1 st').
  { destruct (placeholders st1) as [|first rest].
    - injection Hsel as <-. apply grows_zero.
    - eapply selectMarker_grows, Hsel. }
  pose proof (grows_trans _ _ _ _ _ H1 H2) as H.
  rewrite Nat.add_0_r in H. exact H.
Qed.

Lemma snippet_adds_one_placeholder_per_hash_witness :
  placeholders afterSnippet
  = rev (seq (nextRef untracked) (countHashes "a#b#")) ++ placeholders untracked
  /\ nextRef afterSnippet = (nextRef untracked + countHashes "a#b#")%nat.
Proof.
  apply (snippet_adds_one_placeholder_per_hash
           "a#b#" (mkPos 0 0) 0 untracked afterSnippet).
  reflexivity.
Defined.

(** ** The colour of a snippet's placeholders *)

Lemma range_In n :
  forall lo x, In x (JS.range lo n) <-> lo <= x < lo + Z.of_nat n.
Proof.
  induction n as [|n IH]; intros lo x; simpl.
  - lia.
  - rewrite IH. lia.
Qed.

(** The colour index of a snippet is the lowest of the seven that is not
    the class suffix of a tracked placeholder; only when all seven are in
    use is it the random one. *)
Theorem colour_is_the_lowest_free_one :
  forall st random,
    (inUse st (chooseColorIndex st random) = false
     /\ 0 <= chooseColorIndex st random < Z.of_nat (List.length COLORS)
     /\ forall j, 0 <= j < chooseColorIndex st random -> inUse st j = true)
    \/ (chooseColorIndex st random = random
        /\ forall j, 0 <= j < Z.of_nat (List.length COLORS) ->
                     inUse st j = true).
Proof.
  intros st random. unfold chooseColorIndex. fold (inUse st).
  change (fun colorIndex =>
            negb (existsb (fun p => JS.endsWith (markerClass (editor st) p)
                                                (JS.toString colorIndex))
                          (placeholders st)))
    with (fun colorIndex => negb (inUse st colorIndex)).
  destruct (find _ (JS.range 0 (List.length COLORS))) as [c|] eqn:E.
  - left. apply HelperFacts.find_range_spec in E.
    destruct E as (Hr & Hc & Hmin).
    split; [now apply negb_true_iff in Hc|]. split; [lia|].
    intros j Hj. specialize (Hmin j Hj). now apply negb_false_iff in Hmin.
  - right. split; [reflexivity|]. intros j Hj.
    pose proof (find_none _ _ E j) as Hn. cbv beta in Hn.
    apply negb_false_iff, Hn, range_In. lia.
Qed.

End SnippetMore.

(* ================================================================== *)
(** * Properties of the cursor handler *)
(* ================================================================== *)

Module MainFacts.

Import CM MarkerStateField Snippets SnippetTerms SuggestionPopup Main MainTerms.

Lemma filter_nothing {A} (l : list A) : filter (fun _ => false) l = [].
Proof. induction l; simpl; auto. Qed.

Lemma clearAllPlaceholders_marks st :
  placeholders st <> [] -> marks (editor (clearAllPlaceholders st)) = [].
Proof.
  unfold clearAllPlaceholders. destruct (placeholders st); [contradiction|].
  intros _. cbn. apply filter_nothing.
Qed.

Lemma clearAllPlaceholders_inv st :
  placeholders (clearAllPlaceholders st) = []
  /\ doc (editor (clearAllPlaceholders st)) = doc (editor st).
Proof.
  unfold clearAllPlaceholders. destruct (placeholders st) eqn:E; [|now split].
  now split.
Qed.

(** After the cursor has moved, the period flag is off, the popup is
    closed and remembers the cursor's line, and the next trigger is
    prevented when the line changed.  The text is as it was.  Either the
    cursor is in the marker of a tracked placeholder and the editor is
    untouched, or no placeholder is tracked any more and none of those
    that were has a marker left. *)
Theorem cursor_activity_keeps_or_clears_placeholders :
  forall cursor pl pl',
    handleCursorActivity cursor pl = Some pl' ->
    canInsert pl' = false
    /\ isOpen (suggestionPopup pl') = false
    /\ lastCursorLine (suggestionPopup pl') = line cursor
    /\ shouldPreventNextTrigger (suggestionPopup pl')
       = shouldPreventNextTrigger (suggestionPopup pl)
         || negb (lastCursorLine (suggestionPopup pl) =? line cursor)
    /\ doc (editor (snippetManager pl')) = doc (editor (snippetManager pl))
    /\ ((exists ph,
           In ph (placeholders (snippetManager pl'))
           /\ covers (editor (snippetManager pl)) cursor ph = true
           /\ editor (snippetManager pl') = editor (snippetManager pl))
        \/ (placeholders (snippetManager pl') = []
            /\ (forall ph, In ph (placeholders (snippetManager pl)) ->
                           marker (editor (snippetManager pl')) ph = None)
            /\ Forall (fun ph => covers (editor (snippetManager pl)) cursor ph
                                 = false)
                      (placeholders (snippetManager pl)))).
Proof.
  intros cursor pl pl'. unfold handleCursorActivity, placeholderAtPos.
  set (st := snippetManager pl).
  destruct (placeholderLoop (editor st) cursor (placeholders st) [])
    as [[found phs]|] eqn:El; [|discriminate].
  intros [= <-]. cbn [canInsert suggestionPopup snippetManager].
  split; [reflexivity|]. split; [reflexivity|]. split; [reflexivity|].
  split.
  { destruct (lastCursorLine (suggestionPopup pl) =? line cursor); cbn;
      [now rewrite orb_false_r|now rewrite orb_true_r]. }
  apply SnippetMore.placeholderLoop_spec in El. cbn [app] in El.
  destruct found as [ph|].
  - destruct El as (Hc & pre & rest & Hp & -> & Hpre). cbn [editor placeholders].
    split; [reflexivity|]. left. exists ph.
    split; [apply in_or_app; right; now left|]. now split.
  - destruct El as (-> & Hall).
    set (st1 := mkState (editor st) (filter (live (editor st)) (placeholders st))
                        (nextRef st)).
    destruct (clearAllPlaceholders_inv st1) as [Hnil Hdoc].
    split; [exact Hdoc|]. right. split; [exact Hnil|]. split; [|exact Hall].
    intros ph Hph.
    destruct (filter (live (editor st)) (placeholders st)) as [|x l] eqn:Ef.
    + unfold clearAllPlaceholders, st1. cbn [placeholders editor].
      destruct (marker (editor st) ph) eqn:Em; [|reflexivity].
      assert (Hin : In ph (filter (live (editor st)) (placeholders st))).
      { apply filter_In. split; [exact Hph|]. unfold live. now rewrite Em. }
      rewrite Ef in Hin. destruct Hin.
    + unfold marker. rewrite clearAllPlaceholders_marks; [reflexivity|].
      unfold st1. cbn [placeholders]. discriminate.
Qed.

Lemma cursor_activity_keeps_or_clears_placeholders_witness :
  canInsert settled = false
  /\ isOpen (suggestionPopup settled) = false
  /\ lastCursorLine (suggestionPopup settled) = 0
  /\ shouldPreventNextTrigger (suggestionPopup settled)
     = shouldPreventNextTrigger (suggestionPopup busy)
       || negb (lastCursorLine (suggestionPopup busy) =? 0)
  /\ doc (editor (snippetManager settled)) = doc (editor (snippetManager busy))
  /\ ((exists ph,
         In ph (placeholders (snippetManager settled))
         /\ covers (editor (snippetManager busy)) (mkPos 0 0) ph = true
         /\ editor (snippetManager settled) = editor (snippetManager busy))
      \/ (placeholders (snippetManager settled) = []
          /\ (forall ph, In ph (placeholders (snippetManager busy)) ->
                         marker (editor (snippetManager settled)) ph = None)
          /\ Forall (fun ph => covers (editor (snippetManager busy)) (mkPos 0 0) ph
                               = false)
                    (placeholders (snippetManager busy)))).
Proof.
  apply (cursor_activity_keeps_or_clears_placeholders (mkPos 0 0) busy settled).
  reflexivity.
Defined.

End MainFacts.

(* ================================================================== *)
(** * Properties of the marker field and of the [publish] values *)
(* ================================================================== *)

Module FieldFacts.

Import CM MarkerStateField Provider FrontMatterProvider.

Lemma effects_sound effects :
  forall value r,
    In r (fold_left applyEffect effects value) ->
    In (addMark r) effects \/ In r value.
Proof.
  induction effects as [|effect effects IH]; intros value r; simpl; [auto|].
  intros H. apply IH in H. destruct H as [H|H]; [left; now right|].
  destruct effect as [x| |attr ref]; simpl in H.
  - apply SnippetFacts.addRange_inv in H. destruct H as [->|H]; [left; now left|now right].
  - apply filter_In in H. right. tauto.
  - apply filter_In in H. right. tauto.
Qed.

(** No mark comes out of nothing: a mark of the field after a
    transaction was added by an effect of that transaction or is an old
    mark mapped through its changes. *)
Theorem marks_are_added_or_mapped :
  forall value tr r,
    In r (update value tr) ->
    In (addMark r) (effects tr) \/ In r (mapRangeSet (changes tr) value).
Proof.
  intros value tr r. unfold update. apply effects_sound.
Qed.

Lemma marks_are_added_or_mapped_witness :
  In (addMark (mkRange 5 6 (mkDeco true "" "c0" 0%nat)))
     [addMark (mkRange 5 6 (mkDeco true "" "c0" 0%nat))]
  \/ In (mkRange 5 6 (mkDeco true "" "c0" 0%nat))
        (mapRangeSet None [mkRange 1 2 (mkDeco true "" "c0" 1%nat)]).
Proof.
  apply (marks_are_added_or_mapped
           [mkRange 1 2 (mkDeco true "" "c0" 1%nat)]
           (mkTr None [addMark (mkRange 5 6 (mkDeco true "" "c0" 0%nat))])
           (mkRange 5 6 (mkDeco true "" "c0" 0%nat))).
  vm_compute. right. now left.
Defined.

(** A [clearMarks] effect forgets the old marks and whatever the effects
    before it did: the field is what the effects after it make of the
    empty set. *)
Theorem clear_marks_forgets_what_came_before :
  forall value chg before after,
    update value (mkTr chg (before ++ clearMarks :: after))
    = fold_left applyEffect after [].
Proof.
  intros value chg before after. unfold update. cbn [effects changes].
  rewrite fold_left_app. cbn [fold_left applyEffect].
  now rewrite MainFacts.filter_nothing.
Qed.

(** ** The values of [publish] *)

(** For the key [publish] only [true] and [false] are ever suggested,
    something is suggested exactly when one of the two starts with the
    query, and the first suggestion is never what has been typed already:
    for a complete value the other value comes first. *)
Theorem publish_offers_the_other_value_first :
  forall query,
    (forall s, In s (getPublishSuggestions query) ->
               s = fromString "true" \/ s = fromString "false")
    /\ (getPublishSuggestions query <> []
        <-> JS.startsWith "true" query || JS.startsWith "false" query = true)
    /\ match getPublishSuggestions query with
       | s :: _ => displayName s <> query
       | [] => True
       end.
Proof.
  intros query.
  destruct (String.eqb_spec query "true") as [->|Ht].
  { change (getPublishSuggestions "true")
      with [fromString "false"; fromString "true"].
    split; [intros s [<-|[<-|[]]]; auto|].
    split; [split; [reflexivity|discriminate]|]. discriminate. }
  destruct (String.eqb_spec query "false") as [->|Hf].
  { change (getPublishSuggestions "false")
      with [fromString "true"; fromString "false"].
    split; [intros s [<-|[<-|[]]]; auto|].
    split; [split; [reflexivity|discriminate]|]. discriminate. }
  unfold getPublishSuggestions. cbn [filter displayName fromString].
  assert (Et : ("true" =? query)%string = false)
    by (apply String.eqb_neq; congruence).
  assert (Ef : ("false" =? query)%string = false)
    by (apply String.eqb_neq; congruence).
  assert (Et' : (query =? "true")%string = false) by now apply String.eqb_neq.
  assert (Ef' : (query =? "false")%string = false) by now apply String.eqb_neq.
  rewrite Et, Ef, Et', Ef'. cbn [negb orb]. rewrite !andb_true_r.
  destruct (JS.startsWith "true" query), (JS.startsWith "false" query);
    cbn [List.length Z.of_nat Z.ltb Z.compare Pos.of_succ_nat orb];
    (split; [intros s Hs; simpl in Hs; intuition auto|]);
    (split; [split; [reflexivity || (intros H; now contradiction H)
                    | discriminate || (intros _; discriminate)]|]);
    try exact I; cbn [displayName fromString]; congruence.
Qed.

End FieldFacts.

(* ================================================================== *)
(** * Properties of edits within a line *)
(* ================================================================== *)

Module EditFacts.

Import CM Snippets SnippetTerms EditTerms.

(** ** Strings *)

Lemma length_append (a b : string) :
  String.length (a ++ b) = (String.length a + String.length b)%nat.
Proof. induction a as [|x a IH]; simpl; [reflexivity|now rewrite IH]. Qed.

Lemma substring_prefix_app (p x : string) n :
  String.substring 0 (String.length p + n) (p ++ x)
  = (p ++ String.substring 0 n x)%string.
Proof. induction p as [|c p IH]; simpl; [reflexivity|now rewrite IH]. Qed.

Lemma substring_skip_app (p x : string) k n :
  String.substring (String.length p + k) n (p ++ x) = String.substring k n x.
Proof. induction p as [|c p IH]; simpl; [reflexivity|exact IH]. Qed.

Lemma substring_0_app_l (l x : string) :
  forall n, (n <= String.length l)%nat ->
            String.substring 0 n (l ++ x) = String.substring 0 n l.
Proof.
  induction l as [|c l IH]; intros [|n] Hn; simpl in *; try lia.
  - now destruct x.
  - reflexivity.
  - rewrite IH by lia. reflexivity.
Qed.

Lemma substring_tail_app (l x : string) :
  forall k, (k <= String.length l)%nat ->
            String.substring k (String.length (l ++ x) - k) (l ++ x)
            = (String.substring k (String.length l - k) l ++ x)%string.
Proof.
  induction l as [|c l IH]; intros k Hk.
  - simpl in Hk. replace k with 0%nat by lia.
    cbn [append String.length minus]. rewrite Nat.sub_0_r.
    rewrite DictionaryFacts.substring_all. now destruct x.
  - destruct k as [|k].
    + rewrite !Nat.sub_0_r. cbn [append String.length String.substring].
      rewrite !DictionaryFacts.substring_all. reflexivity.
    + cbn [append String.length String.substring minus].
      apply IH. simpl in Hk. lia.
Qed.

(** ** Lines *)

Lemma noBreak_append a b :
  noBreak (a ++ b) = noBreak a && noBreak b.
Proof.
  induction a as [|c a IH]; simpl; [reflexivity|].
  rewrite IH. now rewrite andb_assoc.
Qed.

Lemma noBreak_substring s :
  forall k n, noBreak s = true -> noBreak (String.substring k n s) = true.
Proof.
  induction s as [|c s IH]; intros k n H; simpl in *.
  - now destruct k, n.
  - apply andb_true_iff in H. destruct H as [Hc Hs].
    destruct k as [|k].
    + destruct n as [|n]; [reflexivity|]. simpl. rewrite Hc. now apply IH.
    + now apply IH.
Qed.

Lemma splitLines_single l : noBreak l = true -> JS.splitLines l = [l].
Proof.
  induction l as [|c l IH]; simpl; [reflexivity|].
  intros H. apply andb_true_iff in H. destruct H as [Hc Hl].
  apply negb_true_iff in Hc. rewrite Hc, IH by exact Hl. reflexivity.
Qed.

Lemma splitLines_line l rest :
  noBreak l = true ->
  JS.splitLines (l ++ String "010" rest) = l :: JS.splitLines rest.
Proof.
  induction l as [|c l IH]; simpl; [reflexivity|].
  intros H. apply andb_true_iff in H. destruct H as [Hc Hl].
  apply negb_true_iff in Hc. rewrite Hc, IH by exact Hl. reflexivity.
Qed.

(** The lines before a line, each with its line break, and the lines
    after it, each with the line break in front. *)
Lemma text_cons l d :
  CM.text (l :: d)
  = (l ++ fold_right (fun x acc => String "010" (x ++ acc)) "" d)%string.
Proof.
  unfold CM.text. revert l. induction d as [|y d IH]; intros l.
  - simpl. now rewrite HelperFacts.append_empty_r.
  - change (String.concat (String "010" "") (l :: y :: d))
      with (l ++ String "010" "" ++ String.concat (String "010" "") (y :: d))%string.
    rewrite IH. reflexivity.
Qed.

Lemma text_more x d :
  d <> [] -> CM.text (x :: d) = (x ++ String "010" (CM.text d))%string.
Proof. destruct d as [|y d]; [contradiction|reflexivity]. Qed.

Lemma text_split pre l post :
  CM.text (pre ++ l :: post)
  = (fold_right (fun x acc => x ++ String "010" acc) "" pre
     ++ l ++ fold_right (fun x acc => String "010" (x ++ acc)) "" post)%string.
Proof.
  induction pre as [|x pre IH].
  - apply text_cons.
  - cbn [app fold_right]. rewrite text_more by (now destruct pre).
    rewrite IH, HelperFacts.append_assoc. reflexivity.
Qed.

Lemma lineFrom_pre pre l post :
  CM.lineFrom (pre ++ l :: post) (List.length pre)
  = JS.len (fold_right (fun x acc => x ++ String "010" acc) "" pre)%string.
Proof.
  induction pre as [|x pre IH]; [reflexivity|].
  cbn [app List.length CM.lineFrom fold_right]. rewrite IH.
  unfold JS.len. rewrite length_append. simpl String.length. lia.
Qed.

Lemma splitLines_joined pre l post :
  Forall (fun x => noBreak x = true) pre ->
  noBreak l = true ->
  Forall (fun x => noBreak x = true) post ->
  JS.splitLines
    (fold_right (fun x acc => x ++ String "010" acc) "" pre
     ++ l ++ fold_right (fun x acc => String "010" (x ++ acc)) "" post)%string
  = pre ++ l :: post.
Proof.
  intros Hpre Hl Hpost. induction Hpre as [|x pre Hx Hpre IH].
  - cbn [fold_right append app]. revert l Hl.
    induction Hpost as [|y post Hy Hpost IHp]; intros l Hl.
    + cbn [fold_right]. rewrite HelperFacts.append_empty_r.
      now apply splitLines_single.
    + cbn [fold_right]. rewrite splitLines_line by exact Hl.
      f_equal. now apply IHp.
  - cbn [fold_right app]. rewrite HelperFacts.append_assoc. cbn [append].
    rewrite splitLines_line by exact Hx. f_equal. exact IH.
Qed.

Lemma split_at (d : Doc) :
  forall k, (k < List.length d)%nat ->
            d = firstn k d ++ nth k d "" :: skipn (S k) d.
Proof.
  induction d as [|l d IH]; intros k Hk; simpl in Hk; [lia|].
  destruct k as [|k]; [reflexivity|].
  cbn [firstn nth skipn app]. f_equal. apply IH. lia.
Qed.

(** ** One replacement within a line *)

Lemma js_substring_split (p l x : string) a :
  0 <= a <= JS.len l ->
  JS.substring (p ++ l ++ x) 0 (JS.len p + a) = (p ++ JS.substring l 0 a)%string.
Proof.
  unfold JS.substring, JS.len. intros Ha.
  replace (Z.to_nat (Z.max 0 0)) with 0%nat by lia.
  replace (Z.to_nat (Z.max 0 (Z.of_nat (String.length p) + a)))
    with (String.length p + Z.to_nat a)%nat by lia.
  replace (Z.to_nat (Z.max 0 a)) with (Z.to_nat a) by lia.
  rewrite !Nat.sub_0_r, !length_append.
  rewrite (Nat.min_l (String.length p + Z.to_nat a)) by lia.
  rewrite (Nat.min_l (Z.to_nat a)) by lia.
  rewrite substring_prefix_app, substring_0_app_l by lia. reflexivity.
Qed.

Lemma js_substringFrom_split (p l x : string) b :
  0 <= b <= JS.len l ->
  JS.substringFrom (p ++ l ++ x) (JS.len p + b)
  = (JS.substringFrom l b ++ x)%string.
Proof.
  unfold JS.substringFrom, JS.len. intros Hb.
  replace (Z.to_nat (Z.max 0 (Z.of_nat (String.length p) + b)))
    with (String.length p + Z.to_nat b)%nat by lia.
  replace (Z.to_nat (Z.max 0 b)) with (Z.to_nat b) by lia.
  rewrite substring_skip_app.
  replace (String.length (p ++ l ++ x) - (String.length p + Z.to_nat b))%nat
    with (String.length (l ++ x) - Z.to_nat b)%nat
    by (rewrite !length_append; lia).
  apply substring_tail_app. lia.
Qed.

Lemma applyChange_in_line pre l post a b txt :
  wellSplit (pre ++ l :: post) ->
  noBreak txt = true ->
  0 <= a <= b -> b <= JS.len l ->
  CM.applyChange (pre ++ l :: post)
    (CM.mkChange (CM.lineFrom (pre ++ l :: post) (List.length pre) + a)
                 (CM.lineFrom (pre ++ l :: post) (List.length pre) + b) txt)
  = pre ++ (JS.substring l 0 a ++ txt ++ JS.substringFrom l b)%string :: post.
Proof.
  intros Hd Htxt Hab Hb. unfold CM.applyChange. cbn [CM.cfrom CM.cto CM.insert].
  rewrite lineFrom_pre, text_split.
  rewrite js_substring_split, js_substringFrom_split by lia.
  rewrite !HelperFacts.append_assoc.
  rewrite <- (HelperFacts.append_assoc txt).
  rewrite <- (HelperFacts.append_assoc (JS.substring l 0 a)).
  unfold wellSplit in Hd. apply Forall_app in Hd. destruct Hd as [Hpre Hrest].
  apply splitLines_joined;
    [exact Hpre| |now apply Forall_inv_tail in Hrest].
  apply Forall_inv in Hrest.
  rewrite !noBreak_append, Htxt. unfold JS.substring, JS.substringFrom.
  rewrite !noBreak_substring by exact Hrest. reflexivity.
Qed.

Lemma posToOffset_in_line d n c :
  0 <= n < Z.of_nat (List.length d) ->
  0 <= c <= JS.len (getLine d n) ->
  posToOffset d (mkPos n c) = CM.lineFrom d (Z.to_nat n) + c.
Proof.
  intros Hn Hc. unfold posToOffset, CM.lineAtNumber. cbn [line ch].
  destruct (Z.ltb_spec n 0); [lia|].
  destruct (Z.leb_spec (Z.of_nat (List.length d)) n); [lia|].
  cbn [orb]. lia.
Qed.

Lemma posToOffset_pos d pos :
  0 <= line pos < Z.of_nat (List.length d) ->
  0 <= ch pos <= JS.len (getLine d (line pos)) ->
  posToOffset d pos = CM.lineFrom d (Z.to_nat (line pos)) + ch pos.
Proof. destruct pos as [n c]. apply posToOffset_in_line. Qed.

Lemma replaceRange_doc e txt n a b :
  wellSplit (doc e) ->
  noBreak txt = true ->
  0 <= n < Z.of_nat (List.length (doc e)) ->
  0 <= a <= b -> b <= JS.len (getLine (doc e) n) ->
  doc (replaceRange e txt (mkPos n a) (mkPos n b)) = spliced (doc e) n a b txt.
Proof.
  intros Hd Htxt Hn Hab Hb. unfold replaceRange, dispatch, spliced.
  cbn [doc MarkerStateField.changes].
  rewrite !posToOffset_in_line by lia.
  assert (Hk : (Z.to_nat n < List.length (doc e))%nat) by lia.
  assert (Hl : getLine (doc e) n = nth (Z.to_nat n) (doc e) "").
  { unfold getLine. destruct (Z.ltb_spec n 0); [lia|reflexivity]. }
  rewrite Hl in *.
  pose proof (split_at (doc e) (Z.to_nat n) Hk) as Hs.
  pose proof (firstn_length_le (doc e) (Nat.lt_le_incl _ _ Hk)) as Hlen.
  set (pre := firstn (Z.to_nat n) (doc e)) in *.
  set (l := nth (Z.to_nat n) (doc e) "") in *.
  set (post := skipn (S (Z.to_nat n)) (doc e)) in *.
  rewrite Hs in Hd |- *. rewrite <- Hlen.
  rewrite applyChange_in_line by assumption. reflexivity.
Qed.

Lemma mark_behind_moves_left off r :
  off + 1 <= from r -> from r < to r ->
  mapRange (mkChange off (off + 1) "") r
  = Some (mkRange (from r - 1) (to r - 1) (value r)).
Proof.
  intros Hf Ht. unfold mapRange.
  replace (covered (mkChange off (off + 1) "") r) with false
    by (unfold covered; cbn [cfrom cto]; symmetry; apply andb_false_iff;
        right; apply Z.ltb_ge; lia).
  rewrite !SnippetFacts.mapPos_shift by (cbn [cfrom cto]; lia).
  cbn [cfrom cto insert]. change (JS.len "") with 0.
  replace (off + 0 + (from r - (off + 1))) with (from r - 1) by lia.
  replace (off + 0 + (to r - (off + 1))) with (to r - 1) by lia.
  destruct (Z.ltb_spec (to r - 1) (from r - 1)); [lia|].
  destruct (Z.eqb_spec (from r - 1) (to r - 1)); [lia|]. reflexivity.
Qed.

Lemma mark_in_front_stays off r :
  to r <= off -> from r < to r ->
  mapRange (mkChange off (off + 1) "") r = Some r.
Proof.
  intros Hf Ht. unfold mapRange.
  replace (covered (mkChange off (off + 1) "") r) with false
    by (unfold covered; cbn [cfrom cto]; symmetry; apply andb_false_iff;
        left; apply Z.ltb_ge; lia).
  rewrite !SnippetFacts.mapPos_stay by (cbn [cfrom cto]; lia).
  destruct (Z.ltb_spec (to r) (from r)); [lia|].
  destruct (Z.eqb_spec (from r) (to r)); [lia|]. now destruct r.
Qed.

(** The [~] branch of [handleSnippet] cuts exactly the character at the
    sentinel's position out of its line; all other lines stay, and so
    does the list of placeholders.  A marker in front of that character
    stays where it is, a marker behind it moves left by one, so that it
    still covers the text it covered. *)
Theorem tilde_is_cut_out_of_its_line :
  forall start lineIndex i st,
    wellSplit (doc (editor st)) ->
    0 <= line (sentinelPos start lineIndex i)
      < Z.of_nat (List.length (doc (editor st))) ->
    0 <= ch (sentinelPos start lineIndex i)
      < JS.len (getLine (doc (editor st)) (line (sentinelPos start lineIndex i))) ->
    doc (editor (deleteTilde start lineIndex i st))
    = spliced (doc (editor st))
              (line (sentinelPos start lineIndex i))
              (ch (sentinelPos start lineIndex i))
              (ch (sentinelPos start lineIndex i) + 1) ""
    /\ placeholders (deleteTilde start lineIndex i st) = placeholders st
    /\ (forall r,
           In r (marks (editor st)) -> from r < to r ->
           let off := posToOffset (doc (editor st))
                                  (sentinelPos start lineIndex i) in
           (to r <= off -> In r (marks (editor (deleteTilde start lineIndex i st))))
           /\ (off + 1 <= from r ->
               In (mkRange (from r - 1) (to r - 1) (value r))
                  (marks (editor (deleteTilde start lineIndex i st))))).
Proof.
  intros start lineIndex i st Hd Hl Hc.
  split; [|split; [reflexivity|]].
  - unfold deleteTilde, sentinelPos in *. cbn [editor line ch] in *.
    apply replaceRange_doc; try assumption; try reflexivity; lia.
  - intros r Hr Hlt off.
    assert (Hto : posToOffset (doc (editor st))
                    (mkPos (line (sentinelPos start lineIndex i))
                           (ch (sentinelPos start lineIndex i) + 1))
                  = off + 1).
    { unfold off. rewrite posToOffset_in_line by lia.
      rewrite posToOffset_pos by lia. lia. }
    unfold deleteTilde. cbn [editor]. unfold replaceRange, dispatch.
    cbn [marks]. fold (sentinelPos start lineIndex i). fold off. rewrite Hto.
    split; intros H.
    + eapply SnippetFacts.update_reprojects; [exact Hr|].
      now apply mark_in_front_stays.
    + eapply SnippetFacts.update_reprojects; [exact Hr|].
      now apply mark_behind_moves_left.
Qed.

Lemma tilde_is_cut_out_of_its_line_witness :
  doc (editor (deleteTilde (mkPos 0 0) 0 2 tracked))
  = spliced (doc (editor tracked)) 0 2 (2 + 1) ""
  /\ placeholders (deleteTilde (mkPos 0 0) 0 2 tracked) = placeholders tracked
  /\ (forall r,
         In r (marks (editor tracked)) -> from r < to r ->
         let off := posToOffset (doc (editor tracked))
                                (sentinelPos (mkPos 0 0) 0 2) in
         (to r <= off ->
          In r (marks (editor (deleteTilde (mkPos 0 0) 0 2 tracked))))
         /\ (off + 1 <= from r ->
             In (mkRange (from r - 1) (to r - 1) (value r))
                (marks (editor (deleteTilde (mkPos 0 0) 0 2 tracked))))).
Proof.
  apply (tilde_is_cut_out_of_its_line (mkPos 0 0) 0 2 SnippetTerms.tracked).
  - repeat constructor.
  - vm_compute. split; [discriminate|reflexivity].
  - vm_compute. split; [discriminate|reflexivity].
Defined.

(** ** The period inserter *)

(** [attemptInsert] switches the flag off and puts one period into the
    cursor's line, right in front of the character before the cursor; the
    rest of the line and all other lines stay. *)
Theorem period_goes_in_front_of_the_last_character :
  forall canInsert e,
    wellSplit (doc e) ->
    0 <= line (getCursor e) < Z.of_nat (List.length (doc e)) ->
    1 <= ch (getCursor e) <= JS.len (getLine (doc e) (line (getCursor e))) ->
    fst (PeriodInserter.attemptInsert canInsert e) = false
    /\ doc (snd (PeriodInserter.attemptInsert canInsert e))
       = spliced (doc e) (line (getCursor e))
                 (ch (getCursor e) - 1) (ch (getCursor e) - 1) ".".
Proof.
  intros canInsert e Hd Hl Hc. split; [reflexivity|].
  unfold PeriodInserter.attemptInsert. cbn [snd].
  apply replaceRange_doc; try assumption; try reflexivity; lia.
Qed.

Lemma period_goes_in_front_of_the_last_character_witness :
  fst (PeriodInserter.attemptInsert true
         (mkEditor ["one "; "two"] (mkPos 0 4, mkPos 0 4) [])) = false
  /\ doc (snd (PeriodInserter.attemptInsert true
                 (mkEditor ["one "; "two"] (mkPos 0 4, mkPos 0 4) [])))
     = spliced ["one "; "two"] 0 (4 - 1) (4 - 1) ".".
Proof.
  apply (period_goes_in_front_of_the_last_character true
           (mkEditor ["one "; "two"] (mkPos 0 4, mkPos 0 4) [])).
  - repeat constructor.
  - vm_compute. split; [discriminate|reflexivity].
  - vm_compute. split; discriminate.
Defined.

End EditFacts.

(* ================================================================== *)
(** * Properties of the front matter key cache *)
(* ================================================================== *)

Module YamlFacts.

Import Dictionary DictionaryFacts FrontMatterProvider.

Lemma combine_eq combined info :
  combine combined info
  = JSMap.set combined (key info)
      (let existing := match JSMap.get combined (key info) with
                       | Some i => i
                       | None => mkKeyInfo (key info) false []
                       end in
       mkKeyInfo (key existing) (isList existing || isList info)
                 (fold_left setAdd (completions info) (completions existing))).
Proof.
  unfold combine, ensure, JSMap.has.
  destruct (JSMap.get combined (key info)) as [i|] eqn:E; cbn [negb].
  - now rewrite E.
  - rewrite get_set_same, set_set_same. reflexivity.
Qed.

Lemma fold_setAdd_In cs :
  forall acc c, In c (fold_left setAdd cs acc) <-> In c acc \/ In c cs.
Proof.
  induction cs as [|x cs IH]; intros acc c; simpl; [tauto|].
  rewrite IH. split.
  - intros [H|H]; [|tauto]. apply setAdd_inv in H. destruct H; [tauto|subst; tauto].
  - intros [H|[<-|H]]; [left; now apply setAdd_keeps|left; apply setAdd_In|tauto].
Qed.

Lemma fold_setAdd_NoDup cs :
  forall acc, NoDup acc -> NoDup (fold_left setAdd cs acc).
Proof.
  induction cs as [|x cs IH]; intros acc H; simpl; [exact H|].
  apply IH, setAdd_NoDup, H.
Qed.

Lemma In_get {V} (m : JSMap.t V) k v :
  NoDup (map fst m) -> In (k, v) m -> JSMap.get m k = Some v.
Proof.
  induction m as [|[k0 v0] m IH]; simpl; [tauto|].
  intros Hnd [[= -> ->]|Hin].
  - now rewrite String.eqb_refl.
  - destruct (String.eqb_spec k0 k) as [->|Hne].
    + apply NoDup_cons_iff in Hnd. destruct Hnd as [Hn _].
      exfalso. apply Hn. apply in_map_iff. exists (k, v). auto.
    + apply IH; [now apply NoDup_cons_iff in Hnd|exact Hin].
Qed.

Lemma someInfo_snoc infos info k (P : YAMLKeyInfo -> Prop) :
  someInfo (infos ++ [info]) k P
  <-> someInfo infos k P \/ (key info = k /\ P info).
Proof.
  unfold someInfo. split.
  - intros (i & Hin & Hk & HP). apply in_app_or in Hin.
    destruct Hin as [Hin|[<-|[]]]; [left; eauto|right; auto].
  - intros [(i & Hin & Hk & HP)|[Hk HP]].
    + exists i. split; [apply in_or_app; now left|auto].
    + exists info. split; [apply in_or_app; right; now left|auto].
Qed.

Lemma combine_gathers infos combined info :
  gathers infos combined -> gathers (infos ++ [info]) (combine combined info).
Proof.
  intros (Hnd & Hhas & Hget). rewrite combine_eq.
  split; [now apply DictionaryMore.set_NoDup|]. split.
  - intros i Hi. unfold JSMap.has.
    destruct (String.eqb_spec (key info) (key i)) as [E|Hne].
    + rewrite <- E. now rewrite get_set_same.
    + rewrite get_set_other by exact Hne.
      apply in_app_or in Hi. destruct Hi as [Hi|[<-|[]]]; [|contradiction].
      apply Hhas in Hi. exact Hi.
  - intros k merged.
    destruct (String.eqb_spec (key info) k) as [<-|Hne].
    + rewrite get_set_same. intros [= <-]. cbv zeta.
      destruct (JSMap.get combined (key info)) as [old|] eqn:E.
      * destruct (Hget _ _ E) as (Hk & Hnc & Hsome & Hc & Hl).
        cbn [key isList completions].
        split; [exact Hk|]. split; [now apply fold_setAdd_NoDup|].
        split; [apply someInfo_snoc; now left|]. split.
        -- intros c. rewrite fold_setAdd_In, someInfo_snoc, Hc. tauto.
        -- rewrite orb_true_iff, someInfo_snoc, Hl. tauto.
      * cbn [key isList completions].
        assert (Hnone : forall P, ~ someInfo infos (key info) P).
        { intros P (i & Hi & Hk & _). apply Hhas in Hi.
          unfold JSMap.has in Hi. rewrite Hk, E in Hi. discriminate. }
        split; [reflexivity|].
        split; [apply fold_setAdd_NoDup; constructor|].
        split; [apply someInfo_snoc; now right|]. split.
        -- intros c. rewrite fold_setAdd_In, someInfo_snoc.
           split; [intros [[]|H]; auto|].
           intros [H|[_ H]]; [now apply Hnone in H|now right].
        -- rewrite someInfo_snoc. cbn [orb].
           split; [auto|]. intros [H|[_ H]]; [now apply Hnone in H|exact H].
    + rewrite get_set_other by exact Hne. intros Hm.
      destruct (Hget _ _ Hm) as (Hk & Hnc & Hsome & Hc & Hl).
      split; [exact Hk|]. split; [exact Hnc|].
      split; [apply someInfo_snoc; now left|]. split.
      * intros c. rewrite someInfo_snoc, Hc. tauto.
      * rewrite someInfo_snoc, Hl. tauto.
Qed.

Lemma combine_all infos :
  forall done combined,
    gathers done combined ->
    gathers (done ++ infos) (fold_left combine infos combined).
Proof.
  induction infos as [|info infos IH]; intros done combined H; simpl.
  - now rewrite app_nil_r.
  - change (info :: infos) with ([info] ++ infos). rewrite app_assoc.
    apply IH, combine_gathers, H.
Qed.

Lemma combine_caches caches :
  forall combined,
    fold_left (fun combined cache =>
                 fold_left combine (getAllKeys cache) combined) caches combined
    = fold_left combine (flat_map getAllKeys caches) combined.
Proof.
  induction caches as [|cache caches IH]; intros combined; simpl;
    [reflexivity|].
  now rewrite IH, fold_left_app.
Qed.

(** [getAllKnownKeys] gathers the keys of all files: every key of some
    file is there exactly once; its completions are those that some file
    has for the key, each once; and it is a list key exactly when it is
    one in some file. *)
Theorem known_keys_gather_all_files :
  forall fileSuggestionCache,
    NoDup (map key (getAllKnownKeys fileSuggestionCache))
    /\ (forall info,
           In info (allInfos fileSuggestionCache) ->
           In (key info) (map key (getAllKnownKeys fileSuggestionCache)))
    /\ forall merged,
         In merged (getAllKnownKeys fileSuggestionCache) ->
         NoDup (completions merged)
         /\ someInfo (allInfos fileSuggestionCache) (key merged) (fun _ => True)
         /\ (forall c,
                In c (completions merged)
                <-> someInfo (allInfos fileSuggestionCache) (key merged)
                             (fun info => In c (completions info)))
         /\ (isList merged = true
             <-> someInfo (allInfos fileSuggestionCache) (key merged)
                          (fun info => isList info = true)).
Proof.
  intros fsc. unfold getAllKnownKeys. rewrite combine_caches.
  fold (allInfos fsc).
  assert (H : gathers (allInfos fsc) (fold_left combine (allInfos fsc) [])).
  { apply (combine_all (allInfos fsc) [] []).
    split; [constructor|]. split; [intros info []|]. intros k merged [=]. }
  set (m := fold_left combine (allInfos fsc) []) in *.
  destruct H as (Hnd & Hhas & Hget).
  assert (Hentry : forall k i, In (k, i) m -> key i = k).
  { intros k i Hin. apply In_get in Hin; [|exact Hnd]. now apply Hget in Hin. }
  assert (Hkeys : map key (map snd m) = map fst m).
  { rewrite map_map. apply map_ext_in. intros [k i] Hin. now apply Hentry. }
  split; [now rewrite Hkeys|]. split.
  - intros info Hin. rewrite Hkeys. apply Hhas in Hin. unfold JSMap.has in Hin.
    destruct (JSMap.get m (key info)) as [i|] eqn:E; [|discriminate].
    apply DictionaryMore.get_In in E. apply in_map_iff. exists (key info, i). auto.
  - intros merged Hin. apply in_map_iff in Hin.
    destruct Hin as ([k i] & <- & Hin). cbn [snd].
    pose proof (Hentry _ _ Hin) as Hk. apply In_get in Hin; [|exact Hnd].
    destruct (Hget _ _ Hin) as (_ & Hnc & Hsome & Hc & Hl).
    rewrite Hk. auto.
Qed.

End YamlFacts.

(* ================================================================== *)
(** * Properties of the Latex provider *)
(* ================================================================== *)

Module LatexFacts.

Import Settings Provider EditorHelpers EditTerms LatexProvider.

Lemma insertWith_In {A} (cmp : A -> A -> Z) x y l :
  In y (insertWith cmp x l) <-> y = x \/ In y l.
Proof.
  induction l as [|z l IH]; simpl; [intuition congruence|].
  destruct (cmp x z <? 0); simpl; [intuition congruence|].
  rewrite IH. intuition congruence.
Qed.

Lemma sortWith_In {A} (cmp : A -> A -> Z) l y :
  In y (sortWith cmp l) <-> In y l.
Proof.
  unfold sortWith.
  assert (G : forall acc,
             In y (fold_left (fun acc x => insertWith cmp x acc) l acc)
             <-> In y l \/ In y acc).
  { induction l as [|x l IH]; intros acc; simpl; [tauto|].
    rewrite IH, insertWith_In. intuition congruence. }
  rewrite G. simpl. tauto.
Qed.

Lemma removeBreaks_noBreak s : noBreak (removeBreaks s) = true.
Proof.
  induction s as [|c s IH]; simpl; [reflexivity|].
  destruct (Ascii.eqb c "010") eqn:E; [exact IH|].
  simpl. now rewrite E, IH.
Qed.

(** When the Latex provider is enabled and the query long enough, the
    display names it returns are those of the loaded commands whose
    lowered display name includes the typed text, wherever the cursor is:
    the block type is computed but only decides whether line breaks are
    taken out of the replacements, which happens inside inline math. *)
Theorem latex_commands_are_offered_in_every_block :
  forall (R : JS.StringRuntime) getDisplayNameLowerCase loadedCommands
         context settings,
    enableLatexProvider settings = true ->
    query context <> "" ->
    minWordTriggerLength settings <= JS.len (query context) ->
    (forall name,
        In name (map displayName
                     (getSuggestions getDisplayNameLowerCase loadedCommands
                                     context settings))
        <-> exists cmd,
              In cmd loadedCommands
              /\ displayName cmd = name
              /\ includes (getDisplayNameLowerCase cmd (latexIgnoreCase settings))
                          (maybeLowerCase (query context)
                                          (latexIgnoreCase settings)) = true)
    /\ (getLatexBlockType (doc (editor context)) (start context)
                          (latexTriggerInCodeBlocks settings) = DOLLAR_SINGLE ->
        forall s,
          In s (getSuggestions getDisplayNameLowerCase loadedCommands
                               context settings) ->
          noBreak (replacement s) = true).
Proof.
  intros R getName loaded context settings Hen Hq Hlen.
  unfold getSuggestions. rewrite Hen. cbn [negb].
  apply DictionaryFacts.truthy_nonempty in Hq. rewrite Hq. cbn [negb orb].
  destruct (Z.ltb_spec (JS.len (query context)) (minWordTriggerLength settings));
    [lia|].
  cbv zeta. split.
  - intros name. rewrite map_map. cbn [displayName]. split.
    + intros Hin. apply in_map_iff in Hin. destruct Hin as (item & <- & Hin).
      apply sortWith_In, in_map_iff in Hin. destruct Hin as (cmd & <- & Hin).
      apply filter_In in Hin. exists cmd. cbn [i_displayName]. tauto.
    + intros (cmd & Hin & <- & Hinc). apply in_map_iff.
      eexists. split; [|apply sortWith_In, in_map_iff; exists cmd;
                         split; [reflexivity|apply filter_In; now split]].
      reflexivity.
  - intros Hblock s Hin. apply in_map_iff in Hin.
    destruct Hin as (item & <- & Hin).
    apply sortWith_In, in_map_iff in Hin. destruct Hin as (cmd & <- & _).
    cbn [replacement i_replacement]. rewrite Hblock. cbn [BlockType_eqb].
    apply removeBreaks_noBreak.
Qed.

Lemma latex_commands_are_offered_in_every_block_witness :
  (forall name,
      In name (map displayName
                   (@getSuggestions JS.asciiRuntime
                      (fun s _ => JS.asciiLower (displayName s))
                      [mkSuggestion "\sum" "\sum_{#}^{#}"]
                      (Dictionary.queryContext "su") DEFAULT_SETTINGS))
      <-> exists cmd,
            In cmd [mkSuggestion "\sum" "\sum_{#}^{#}"]
            /\ displayName cmd = name
            /\ includes (JS.asciiLower (displayName cmd))
                        (@maybeLowerCase JS.asciiRuntime "su" true) = true)
  /\ (getLatexBlockType ["su"] (mkPos 0 0) true = DOLLAR_SINGLE ->
      forall s,
        In s (@getSuggestions JS.asciiRuntime
                (fun s _ => JS.asciiLower (displayName s))
                [mkSuggestion "\sum" "\sum_{#}^{#}"]
                (Dictionary.queryContext "su") DEFAULT_SETTINGS) ->
        noBreak (replacement s) = true).
Proof.
  apply (latex_commands_are_offered_in_every_block JS.asciiRuntime
           (fun s _ => JS.asciiLower (displayName s))
           [mkSuggestion "\sum" "\sum_{#}^{#}"]
           (Dictionary.queryContext "su") DEFAULT_SETTINGS).
  - reflexivity.
  - discriminate.
  - vm_compute. discriminate.
Defined.

End LatexFacts.
